(** * fix_ea: checking and repairing AFP extended attributes

    A shallow embedding of [src/fix_ea/fix_ea.c].  The C code works on
    malloc'ed buffers, three intrusive tail queues threaded through the same
    [struct xattr] records, and the extattr system calls of one open object.
    The embedding keeps all of that explicit:

    - the byte buffers live in a [heap] of blocks addressed by pointers; what
      [malloc] leaves usable past the size asked for is the [room] of a
      block, a store outside a block is recorded in the trace as an [Oob]
      event, and it is kept when it falls into that room;
    - [xlist] owns the records; [afp_list] and [append_list] hold positions
      in [xlist], as the [afp_link] and [append_link] queues thread the same
      records;
    - the attributes of the object are an association list in enumeration
      order, read and written by [extattr_list_fd], [extattr_get_fd] and
      [extattr_set_fd];
    - whatever the C code cannot control (the result of [open], which
      [malloc] returns NULL, what fresh memory contains and how much of it is
      usable past the size asked for, which system call fails) is read from
      an [oracle].

    The tree walk [do_ea_stuff_recursive] runs over the entries that
    [fts_read] yields, each with the object found at its access path and
    with what [open] returns for that path, and of [main] the loop over the
    options is embedded.  [usage],
    [fts_compare] and what [main] does after the options are not part of
    the embedding. *)

From Stdlib Require Import ZArith List String Ascii Bool Lia Sorted Permutation.
From Stdlib Require Import Strings.Byte.
Import ListNotations.
Open Scope string_scope.
Open Scope list_scope.
Open Scope Z_scope.

(** ** Constants *)

(* sysexits.h *)
Definition EX_OK : Z := 0.
Definition EX_USAGE : Z := 64.
Definition EX_DATAERR : Z := 65.
Definition EX_OSERR : Z := 71.

Definition EX_EA_CORRUPTED : Z := 1.

Definition F_NONE : Z := 0x0000.
Definition F_APPEND_NULL_ALL : Z := 0x0001.
Definition F_CHECK_AFP_EA : Z := 0x0002.
Definition F_DRY_RUN : Z := 0x0004.
Definition F_FIX_AFP_EA : Z := 0x0008.
Definition F_APPEND_NULL : Z := 0x0010.
Definition F_VERBOSE : Z := 0x0020.
Definition F_DEBUG : Z := 0x0040.
Definition F_RECURSIVE : Z := 0x0080.

(** The C condition [flags & F]. *)
Definition has (flags F : Z) : bool := negb (Z.land flags F =? 0).

(** Conversion of a [size_t] or [ssize_t] value to [int]. *)
Definition to_int (x : Z) : Z := (x + 2 ^ 31) mod 2 ^ 32 - 2 ^ 31.

(** ** Memory, records and the state of one object-processing cycle *)

Definition ptr := nat.

Record block := mkBlock {
  bytes : list byte;     (* the allocation; its size is the length *)
  live : bool            (* false once freed *)
}.

(** [struct xattr] without its three link fields. *)
Record xattr := mkXattr {
  name : ptr;
  value : ptr;
  length : Z
}.

Inductive event :=
| Warn (what : string)                                  (* warn(3) *)
| Hexdump (path nm : string) (head tail : list byte) (len : Z)
| Printf_corrupted (path nm : string)                   (* "%s: %s is corrupted" *)
| Printf_fixed (path nm : string)                       (* "%s: %s is fixed" *)
| Printf_appended (path nm : string)                    (* "%s: %s null byte appended" *)
| Free (p : ptr)                                        (* free of a byte buffer *)
| FreeRec (x : xattr)                                   (* free(xptr) *)
| Oob (p : ptr) (idx : Z) (size : nat)                  (* store at idx outside the size bytes of block p *)
| SetCall (nm : string) (data : list byte) (res : Z)    (* extattr_set_fd *)
| Close (fd : Z).

Record state := mkState {
  heap : list block;
  xlist : list xattr;
  afp_list : list nat;
  append_list : list nat;
  storage : list (string * list byte);
  trace : list event;
  nmalloc : nat;         (* calls made so far, the keys of the oracle *)
  nlist : nat;
  nget : nat;
  nset : nat;
  room : list (ptr * list byte)
    (* the usable bytes past the end of a block (malloc_usable_size minus
       the size asked for), the latest entry of a block first *)
}.

Record oracle := mkOracle {
  open_result : Z;               (* what open(path, O_RDONLY) returns *)
  malloc_null : nat -> bool;     (* the k-th malloc returns NULL *)
  junk : nat -> nat -> byte;     (* contents of the k-th allocation, per offset *)
  list_err : nat -> bool;        (* the k-th extattr_list_fd fails *)
  get_err : nat -> bool;         (* the k-th extattr_get_fd fails *)
  set_err : nat -> bool;         (* the k-th extattr_set_fd fails *)
  slack : nat -> nat             (* usable bytes past the size of the k-th allocation *)
}.

Definition set_heap (h : list block) (s : state) : state :=
  mkState h (xlist s) (afp_list s) (append_list s) (storage s) (trace s)
          (nmalloc s) (nlist s) (nget s) (nset s) (room s).
Definition set_xlist (l : list xattr) (s : state) : state :=
  mkState (heap s) l (afp_list s) (append_list s) (storage s) (trace s)
          (nmalloc s) (nlist s) (nget s) (nset s) (room s).
Definition set_afp_list (l : list nat) (s : state) : state :=
  mkState (heap s) (xlist s) l (append_list s) (storage s) (trace s)
          (nmalloc s) (nlist s) (nget s) (nset s) (room s).
Definition set_append_list (l : list nat) (s : state) : state :=
  mkState (heap s) (xlist s) (afp_list s) l (storage s) (trace s)
          (nmalloc s) (nlist s) (nget s) (nset s) (room s).
Definition set_storage (st : list (string * list byte)) (s : state) : state :=
  mkState (heap s) (xlist s) (afp_list s) (append_list s) st (trace s)
          (nmalloc s) (nlist s) (nget s) (nset s) (room s).
Definition set_trace (t : list event) (s : state) : state :=
  mkState (heap s) (xlist s) (afp_list s) (append_list s) (storage s) t
          (nmalloc s) (nlist s) (nget s) (nset s) (room s).
Definition set_nmalloc (n : nat) (s : state) : state :=
  mkState (heap s) (xlist s) (afp_list s) (append_list s) (storage s) (trace s)
          n (nlist s) (nget s) (nset s) (room s).
Definition set_nlist (n : nat) (s : state) : state :=
  mkState (heap s) (xlist s) (afp_list s) (append_list s) (storage s) (trace s)
          (nmalloc s) n (nget s) (nset s) (room s).
Definition set_nget (n : nat) (s : state) : state :=
  mkState (heap s) (xlist s) (afp_list s) (append_list s) (storage s) (trace s)
          (nmalloc s) (nlist s) n (nset s) (room s).
Definition set_nset (n : nat) (s : state) : state :=
  mkState (heap s) (xlist s) (afp_list s) (append_list s) (storage s) (trace s)
          (nmalloc s) (nlist s) (nget s) n (room s).
Definition set_room (r : list (ptr * list byte)) (s : state) : state :=
  mkState (heap s) (xlist s) (afp_list s) (append_list s) (storage s) (trace s)
          (nmalloc s) (nlist s) (nget s) (nset s) r.

(** The state in which [do_ea_stuff_single] starts on an object whose
    user-namespace attributes are [st]. *)
Definition initial (st : list (string * list byte)) : state :=
  mkState [] [] [] [] st [] 0 0 0 0 [].

(** ** The state monad *)

Definition M (A : Type) : Type := state -> A * state.

Definition mret {A} (a : A) : M A := fun s => (a, s).
Definition bind {A B} (m : M A) (f : A -> M B) : M B :=
  fun s => let (a, s') := m s in f a s'.
Definition gets {A} (f : state -> A) : M A := fun s => (f s, s).
Definition modify (f : state -> state) : M unit := fun s => (tt, f s).

Notation "x <- c1 ;; c2" := (bind c1 (fun x => c2))
  (at level 61, c1 at next level, right associativity).
Notation "' pat <- c1 ;; c2" := (bind c1 (fun x => match x with pat => c2 end))
  (at level 61, pat pattern, c1 at next level, right associativity).
Notation "c1 ;; c2" := (bind c1 (fun _ => c2))
  (at level 61, right associativity).

Definition emit (e : event) : M unit :=
  modify (fun s => set_trace (trace s ++ [e]) s).

Definition warn (what : string) : M unit := emit (Warn what).

(** Replace position [i] of a list; nothing happens out of range. *)
Fixpoint upd {A} (i : nat) (x : A) (l : list A) : list A :=
  match l, i with
  | [], _ => []
  | _ :: t, O => x :: t
  | h :: t, S j => h :: upd j x t
  end.

(** ** Heap primitives *)

Section Program.

Variable o : oracle.

(** The usable bytes past the end of block [p]. *)
Definition room_of (s : state) (p : ptr) : list byte :=
  match find (fun e => Nat.eqb (fst e) p) (room s) with
  | Some e => snd e
  | None => []
  end.

(** [malloc(n)]: NULL when the oracle says so, otherwise a fresh block of
    [n] bytes whose contents are indeterminate (taken from the oracle), as
    are the bytes of its room.  [n] is the argument as a [size_t]; an [int]
    known to be non-negative is passed as it is. *)
Definition malloc (n : Z) : M (option ptr) := fun s =>
  let k := nmalloc s in
  if malloc_null o k then (None, set_nmalloc (S k) s)
  else
    let p := List.length (heap s) in
    let blk := mkBlock (map (junk o k) (seq 0 (Z.to_nat n))) true in
    let pad := map (junk o k) (seq (Z.to_nat n) (slack o k)) in
    (Some p,
     set_nmalloc (S k) (set_room ((p, pad) :: room s) (set_heap (heap s ++ [blk]) s))).

(** [malloc(sizeof(struct xattr))]: the record itself goes to [xlist], only
    the success of the call is decided here. *)
Definition malloc_xattr : M bool := fun s =>
  let k := nmalloc s in
  (negb (malloc_null o k), set_nmalloc (S k) s).

Definition free (p : ptr) : M unit := fun s =>
  let h := match nth_error (heap s) p with
           | Some blk => upd p (mkBlock (bytes blk) false) (heap s)
           | None => heap s
           end in
  (tt, set_trace (trace s ++ [Free p]) (set_heap h s)).

Definition block_bytes (s : state) (p : ptr) : list byte :=
  match nth_error (heap s) p with
  | Some blk => bytes blk
  | None => []
  end.

(** The room after a store [p[i] = b] outside the [n] bytes of block [p]:
    past the end the byte goes to the room of the block, as far as that
    reaches; anywhere else it lands in memory that is not the program's, of
    which the embedding holds nothing. *)
Definition spill (p : ptr) (i : Z) (n : nat) (b : byte) (s : state)
  : list (ptr * list byte) :=
  let j := Z.to_nat (i - Z.of_nat n) in
  if (0 <=? i) && (j <? List.length (room_of s p))%nat
  then (p, upd j b (room_of s p)) :: room s
  else room s.

(** [p[i] = b].  Inside the block the byte is replaced; outside, the block
    is left as it is and the store is recorded as [Oob]. *)
Definition store (p : ptr) (i : Z) (b : byte) : M unit := fun s =>
  match nth_error (heap s) p with
  | Some blk =>
      let n := List.length (bytes blk) in
      if (0 <=? i) && (i <? Z.of_nat n) then
        (tt, set_heap (upd p (mkBlock (upd (Z.to_nat i) b (bytes blk)) (live blk))
                           (heap s)) s)
      else (tt, set_trace (trace s ++ [Oob p i n]) (set_room (spill p i n b s) s))
  | None => (tt, s)
  end.

(** Consecutive stores [p[i] = b0; p[i+1] = b1; ...]. *)
Fixpoint store_bytes (p : ptr) (i : Z) (bs : list byte) : M unit :=
  match bs with
  | [] => mret tt
  | b :: rest => store p i b ;; store_bytes p (i + 1) rest
  end.

(** [p[i]] ([x00] outside the block). *)
Definition load (s : state) (p : ptr) (i : Z) : byte :=
  nth (Z.to_nat i) (block_bytes s p) x00.

(** The [n] bytes at [p + i]. *)
Definition load_bytes (s : state) (p : ptr) (i n : Z) : list byte :=
  firstn (Z.to_nat n) (skipn (Z.to_nat i) (block_bytes s p)).

Fixpoint until_nul (bs : list byte) : list byte :=
  match bs with
  | [] => []
  | b :: rest => if Byte.eqb b x00 then [] else b :: until_nul rest
  end.

(** The C string at [p]: the bytes before the first NUL of the block and
    its room.  A string with no NUL there runs on into memory of which the
    embedding holds nothing, and is cut where the room ends. *)
Definition cstr (s : state) (p : ptr) : string :=
  string_of_list_byte (until_nul (block_bytes s p ++ room_of s p)).

(** What [strncpy(dst, src, n)] writes: the source up to its first NUL,
    padded with NULs to [n] bytes. *)
Definition strncpy_image (src : list byte) (n : Z) : list byte :=
  let body := until_nul (firstn (Z.to_nat n) src) in
  body ++ repeat x00 (Z.to_nat n - List.length body).

(** ** The extattr system calls on the open object *)

Definition byte_of_nat (n : nat) : byte :=
  match Byte.of_nat (n mod 256) with
  | Some b => b
  | None => x00
  end.

(** The list of names as the kernel returns it: each name preceded by a byte
    holding its length, no terminators. *)
Definition listing (st : list (string * list byte)) : list byte :=
  flat_map (fun e => byte_of_nat (String.length (fst e)) ::
                       list_byte_of_string (fst e)) st.

Fixpoint lookup (nm : string) (st : list (string * list byte)) : option (list byte) :=
  match st with
  | [] => None
  | (k, v) :: rest => if String.eqb k nm then Some v else lookup nm rest
  end.

Fixpoint assign (nm : string) (v : list byte) (st : list (string * list byte))
  : list (string * list byte) :=
  match st with
  | [] => [(nm, v)]
  | (k, w) :: rest =>
      if String.eqb k nm then (k, v) :: rest else (k, w) :: assign nm v rest
  end.

Definition extattr_list_fd (fd : Z) (data : option ptr) (nbytes : Z) : M Z := fun s =>
  let k := nlist s in
  let s1 := set_nlist (S k) s in
  if list_err o k then (-1, s1)
  else
    match data with
    | None => (Z.of_nat (List.length (listing (storage s))), s1)
    | Some p =>
        let out := firstn (Z.to_nat nbytes) (listing (storage s)) in
        (Z.of_nat (List.length out), snd (store_bytes p 0 out s1))
    end.

Definition extattr_get_fd (fd : Z) (nm : string) (data : option ptr) (nbytes : Z)
  : M Z := fun s =>
  let k := nget s in
  let s1 := set_nget (S k) s in
  if get_err o k then (-1, s1)
  else
    match lookup nm (storage s) with
    | None => (-1, s1)
    | Some v =>
        match data with
        | None => (Z.of_nat (List.length v), s1)
        | Some p =>
            let out := firstn (Z.to_nat nbytes) v in
            (Z.of_nat (List.length out), snd (store_bytes p 0 out s1))
        end
    end.

Definition extattr_set_fd (fd : Z) (nm : string) (data : ptr) (nbytes : Z)
  : M Z := fun s =>
  let k := nset s in
  let s1 := set_nset (S k) s in
  let v := load_bytes s data 0 nbytes in
  if set_err o k then (-1, set_trace (trace s ++ [SetCall nm v (-1)]) s1)
  else (nbytes, set_trace (trace s ++ [SetCall nm v nbytes])
                  (set_storage (assign nm v (storage s)) s1)).

(** ** get_extended_attributes *)

(** One turn of the [for] loop over the list of names: [i] is the offset of
    the length byte and [ch] its value.  Every [continue] of the C code is a
    branch that ends here without a record. *)
Definition fetch_entry (fd : Z) (buf : ptr) (i ch : Z) : M unit :=
  oname <- malloc ch ;;
  match oname with
  | None => warn "malloc"
  | Some name =>
      src <- gets (fun s => load_bytes s buf (i + 1) ch) ;;
      store_bytes name 0 (strncpy_image src ch) ;;
      store name ch x00 ;;
      nm <- gets (fun s => cstr s name) ;;
      if negb (prefix "DosStream." nm) then free name
      else
        getret <- extattr_get_fd fd nm None 0 ;;
        let getret := to_int getret in
        if getret <? 0 then free name
        else
          ovalue <- malloc getret ;;
          match ovalue with
          | None => warn "malloc" ;; free name
          | Some value =>
              nm <- gets (fun s => cstr s name) ;;
              getret <- extattr_get_fd fd nm (Some value) getret ;;
              let getret := to_int getret in
              if getret <? 0 then free value ;; free name
              else
                ok <- malloc_xattr ;;
                if negb ok then warn "malloc" ;; free value ;; free name
                else
                  modify (fun s => set_xlist (xlist s ++ [mkXattr name value getret]) s)
          end
  end.

(** The loop [for (i = 0; i < ret; i += ch + 1)].  Each turn advances [i] by
    at least one, so [ret - i] turns are always enough ([ea_loop_fuel]). *)
Fixpoint ea_loop (fuel : nat) (fd : Z) (buf : ptr) (ret i : Z) : M unit :=
  match fuel with
  | O => mret tt
  | S fuel' =>
      if i <? ret then
        ch <- gets (fun s => Z.of_N (Byte.to_N (load s buf i))) ;;
        fetch_entry fd buf i ch ;;
        ea_loop fuel' fd buf ret (i + (ch + 1))
      else mret tt
  end.

Definition get_extended_attributes (fd : Z) : M Z :=
  ret <- extattr_list_fd fd None 0 ;;
  let ret := to_int ret in
  if ret <? 0 then mret EX_OK
  else
    obuf <- malloc ret ;;
    match obuf with
    | None => warn "malloc" ;; mret (-1)
    | Some buf =>
        let buflen := ret in
        ret <- extattr_list_fd fd (Some buf) buflen ;;
        let ret := to_int ret in
        if ret <? 0 then free buf ;; warn "extattr_list_fd" ;; mret (-1)
        else ea_loop (Z.to_nat ret) fd buf ret 0 ;; mret 0
    end.

(** ** get_afp_list *)

(** The macro [AFP_EA_CORRUPTED(v)]. *)
Definition AFP_EA_CORRUPTED (s : state) (v : ptr) : bool :=
  Byte.eqb (load s v 0) x00 && Byte.eqb (load s v 1) "F" && Byte.eqb (load s v 2) "P".

(** [TAILQ_FOREACH(xptr, xlist, link)], [i] being the position of [xptr]. *)
Fixpoint get_afp_loop (i : nat) (xs : list xattr) : M unit :=
  match xs with
  | [] => mret tt
  | xptr :: rest =>
      corrupted <- gets (fun s => (3 <=? length xptr) && AFP_EA_CORRUPTED s (value xptr)) ;;
      (if corrupted
       then modify (fun s => set_afp_list (afp_list s ++ [i]) s)
       else mret tt) ;;
      get_afp_loop (S i) rest
  end.

(** The NULL guards of this and the following functions are left out: every
    caller passes the address of a list head local to [do_ea_stuff_single]. *)
Definition get_afp_list : M Z :=
  xs <- gets xlist ;;
  get_afp_loop 0 xs ;;
  mret 0.

(** ** hexdump_ea *)

Definition hexdump_ea (path nm : string) (buf : ptr) (len : Z) : M unit :=
  if len =? 0 then mret tt
  else if len <? 8 then
    bs <- gets (fun s => load_bytes s buf 0 len) ;;
    emit (Hexdump path nm bs [] len)
  else
    hd <- gets (fun s => load_bytes s buf 0 4) ;;
    tl <- gets (fun s => load_bytes s buf (len - 4) 4) ;;
    emit (Hexdump path nm hd tl len).

(** ** fix_afp_list *)

(** The body of [TAILQ_FOREACH(xptr, afp_list, afp_link)]: one record, with
    the locals [ret] and [setret] as they are before and after. *)
Definition fix_afp_turn (fd : Z) (path : string) (flags : Z) (xptr : xattr)
           (ret setret : Z) : M (Z * Z) :=
  nm <- gets (fun s => cstr s (name xptr)) ;;
  (if has flags F_DEBUG
   then hexdump_ea path nm (value xptr) (length xptr)
   else mret tt) ;;
  ret <- (if has flags F_CHECK_AFP_EA then
            let ret := Z.lor ret EX_EA_CORRUPTED in
            (if has flags F_VERBOSE
             then emit (Printf_corrupted path nm) else mret tt) ;;
            mret ret
          else mret ret) ;;
  if has flags F_FIX_AFP_EA then
    '(ret, setret) <-
      (if negb (has flags F_DRY_RUN) then
         store (value xptr) 0 "A" ;;
         nm <- gets (fun s => cstr s (name xptr)) ;;
         r <- extattr_set_fd fd nm (value xptr) (length xptr) ;;
         let setret := to_int r in
         if setret <? 0
         then warn "extattr_set_fd" ;; mret (Z.lor ret EX_EA_CORRUPTED, setret)
         else mret (ret, setret)
       else mret (ret, setret)) ;;
    if (0 <? setret) || has flags F_DRY_RUN then
      let ret := Z.lor ret EX_OK in
      nm <- gets (fun s => cstr s (name xptr)) ;;
      (if has flags F_VERBOSE
       then emit (Printf_fixed path nm) else mret tt) ;;
      mret (ret, setret)
    else mret (ret, setret)
  else mret (ret, setret).

Fixpoint fix_afp_loop (fd : Z) (path : string) (flags : Z) (view : list nat)
         (ret setret : Z) : M Z :=
  match view with
  | [] => mret ret
  | idx :: rest =>
      ox <- gets (fun s => nth_error (xlist s) idx) ;;
      match ox with
      | None => fix_afp_loop fd path flags rest ret setret
      | Some xptr =>
          '(ret, setret) <- fix_afp_turn fd path flags xptr ret setret ;;
          fix_afp_loop fd path flags rest ret setret
      end
  end.

Definition fix_afp_list (fd : Z) (path : string) (flags : Z) : M Z :=
  view <- gets afp_list ;;
  fix_afp_loop fd path flags view 0 0.

Definition unlink_afp_list : M unit :=
  modify (set_afp_list []).

(** ** get_append_list *)

Fixpoint get_append_loop (attr : option string) (i : nat) (xs : list xattr) : M unit :=
  match xs with
  | [] => mret tt
  | xptr :: rest =>
      match attr with
      | None =>
          modify (fun s => set_append_list (append_list s ++ [i]) s) ;;
          get_append_loop attr (S i) rest
      | Some a =>
          nm <- gets (fun s => cstr s (name xptr)) ;;
          if String.eqb nm a
          then modify (fun s => set_append_list (append_list s ++ [i]) s)
          else get_append_loop attr (S i) rest
      end
  end.

Definition get_append_list (attr : option string) : M Z :=
  xs <- gets xlist ;;
  get_append_loop attr 0 xs ;;
  mret 0.

(** ** fix_append_list *)

(** Conversion of an [int] to [size_t]. *)
Definition to_size_t (x : Z) : Z := x mod 2 ^ 64.

(** The body of [TAILQ_FOREACH(xptr, append_list, append_link)] for the
    record at position [idx]: [inl r] is [return (r)] out of the loop,
    [inr (ret, setret)] the locals at the end of the turn. *)
Definition fix_append_turn (fd : Z) (path : string) (flags : Z) (idx : nat)
           (xptr : xattr) (ret setret : Z) : M (Z + Z * Z) :=
  nm <- gets (fun s => cstr s (name xptr)) ;;
  (if has flags F_DEBUG
   then hexdump_ea path nm (value xptr) (length xptr)
   else mret tt) ;;
  if has flags F_APPEND_NULL then
    r <- (if negb (has flags F_DRY_RUN) then
            let len := to_int (length xptr + 1) in
            obuf <- malloc (to_size_t len) ;;
            match obuf with
            | None => warn "malloc" ;; mret (inl (-1))
            | Some buf =>
                src <- gets (fun s => load_bytes s (value xptr) 0 (length xptr)) ;;
                store_bytes buf 0 src ;;
                store buf len x00 ;;
                free (value xptr) ;;
                modify (fun s =>
                  set_xlist (upd idx (mkXattr (name xptr) buf (to_size_t len))
                                 (xlist s)) s) ;;
                nm <- gets (fun s => cstr s (name xptr)) ;;
                r <- extattr_set_fd fd nm buf (to_size_t len) ;;
                let setret := to_int r in
                if setret <? 0
                then warn "extattr_set_fd" ;;
                     mret (inr (Z.lor ret EX_EA_CORRUPTED, setret))
                else mret (inr (ret, setret))
            end
          else mret (inr (ret, setret))) ;;
    match r with
    | inl e => mret (inl e)
    | inr (ret, setret) =>
        if (0 <? setret) || has flags F_DRY_RUN then
          let ret := Z.lor ret EX_OK in
          nm <- gets (fun s => cstr s (name xptr)) ;;
          (if has flags F_VERBOSE
           then emit (Printf_appended path nm) else mret tt) ;;
          mret (inr (ret, setret))
        else mret (inr (ret, setret))
    end
  else mret (inr (ret, setret)).

Fixpoint fix_append_loop (fd : Z) (path : string) (flags : Z) (view : list nat)
         (ret setret : Z) : M Z :=
  match view with
  | [] => mret ret
  | idx :: rest =>
      ox <- gets (fun s => nth_error (xlist s) idx) ;;
      match ox with
      | None => fix_append_loop fd path flags rest ret setret
      | Some xptr =>
          r <- fix_append_turn fd path flags idx xptr ret setret ;;
          match r with
          | inl e => mret e
          | inr (ret, setret) => fix_append_loop fd path flags rest ret setret
          end
      end
  end.

Definition fix_append_list (fd : Z) (path : string) (flags : Z) : M Z :=
  view <- gets append_list ;;
  fix_append_loop fd path flags view 0 0.

Definition unlink_append_list : M unit :=
  modify (set_append_list []).

(** ** free_extended_attributes *)

Fixpoint free_loop (xs : list xattr) : M unit :=
  match xs with
  | [] => mret tt
  | xptr :: rest =>
      modify (set_xlist rest) ;;
      free (name xptr) ;;
      free (value xptr) ;;
      emit (FreeRec xptr) ;;
      free_loop rest
  end.

Definition free_extended_attributes : M unit :=
  xs <- gets xlist ;;
  free_loop xs.

(** ** do_ea_stuff_single *)

(** The part of [do_ea_stuff_single] before the label [cleanup]; each
    [goto cleanup] is a branch that ends with the value [ret] has there. *)
Definition do_ea_stuff_body (fd : Z) (path : string) (attr : option string)
           (flags : Z) : M Z :=
  if fd <? 0 then warn "open" ;; mret EX_OSERR
  else
    r <- get_extended_attributes fd ;;
    if r <? 0 then mret EX_DATAERR
    else
      afp <- (if has flags F_CHECK_AFP_EA || has flags F_FIX_AFP_EA then
                get_afp_list ;;
                setret <- fix_afp_list fd path flags ;;
                if setret <? 0 then mret (inl EX_DATAERR) else mret (inr setret)
              else mret (inr 0)) ;;
      match afp with
      | inl ret => mret ret
      | inr ret =>
          if has flags F_APPEND_NULL_ALL || has flags F_APPEND_NULL then
            get_append_list attr ;;
            setret <- fix_append_list fd path flags ;;
            if setret <? 0 then mret EX_DATAERR else mret setret
          else mret ret
      end.

Definition do_ea_stuff_single (path : string) (attr : option string) (flags : Z)
  : M Z :=
  modify (fun s => set_append_list [] (set_afp_list [] (set_xlist [] s))) ;;
  let fd := open_result o in
  ret <- do_ea_stuff_body fd path attr flags ;;
  unlink_afp_list ;;
  unlink_append_list ;;
  free_extended_attributes ;;
  (if 0 <? fd then emit (Close fd) else mret tt) ;;
  mret ret.

End Program.

(** ** do_ea_stuff_recursive *)

(** The values of [fts_info] (fts.h). *)
Inductive fts_kind :=
| FTS_D | FTS_DC | FTS_DEFAULT | FTS_DNR | FTS_DOT | FTS_DP | FTS_ERR | FTS_F
| FTS_INIT | FTS_NS | FTS_NSOK | FTS_SL | FTS_SLNONE | FTS_W.

(** What [fts_read] returns: the fields of [FTSENT] that the program reads,
    with the message of [strerror(fts_errno)], the attributes of the object
    found at [fts_accpath], and what [open(fts_accpath, O_RDONLY)] returns
    when [do_ea_stuff_single] is called for the entry. *)
Record FTSENT := mkFTSENT {
  fts_info : fts_kind;
  fts_accpath : string;
  fts_path : string;
  fts_error : string;
  fts_object : list (string * list byte);
  fts_fd : Z
}.

Section Tree.

Variable o : oracle.

(** [open] is called once for each entry that is examined, and each call has
    a result of its own: the call made for [entry] runs in [o] with
    [fts_fd entry] as the result of [open]. *)
Definition opening (entry : FTSENT) : oracle :=
  mkOracle (fts_fd entry) (malloc_null o) (junk o) (list_err o) (get_err o)
           (set_err o) (slack o).

(** The loop [for (rval = 0; (entry = fts_read(tree)) != NULL;)] over the
    entries that [fts_read] yields.  [do_ea_stuff_single] opens the object
    of the entry, which is then the one the extattr calls act on. *)
Fixpoint fts_loop (entries : list FTSENT) (attr : option string) (flags : Z)
         (rval : Z) : M Z :=
  match entries with
  | [] => mret rval
  | entry :: rest =>
      match fts_info entry with
      | FTS_D | FTS_F =>
          modify (set_storage (fts_object entry)) ;;
          r <- do_ea_stuff_single (opening entry) (fts_accpath entry) attr flags ;;
          fts_loop rest attr flags (Z.lor rval r)
      | FTS_ERR =>
          warn (fts_path entry ++ ": " ++ fts_error entry) ;;
          fts_loop rest attr flags rval
      | _ => fts_loop rest attr flags rval
      end
  end.

(** [tree] is what [fts_open(paths, ...)] gives: [None] for NULL, otherwise
    the entries of the walk in the order of [fts_read]. *)
Definition do_ea_stuff_recursive (tree : option (list FTSENT)) (attr : option string)
           (flags : Z) : M Z :=
  match tree with
  | None => warn "fts_open" ;; mret EX_OSERR
  | Some entries => fts_loop entries attr flags 0
  end.

End Tree.

(** ** main: the options *)

(** Conversion to [u_int64_t]. *)
Definition u_int64_t (x : Z) : Z := x mod 2 ^ 64.

(** The body of [while ((ch = getopt(argc, argv, "acCdfn:p:rv")) != -1)]
    for one option: [ch] is what [getopt] returned and [dup] what
    [strdup(optarg)] gives ([None] for NULL).  The locals are [flags] and
    [attr]; [None] is the call of [usage], which exits.  [flags &= ~F] is
    taken on 64 bits, as [flags] is a [u_int64_t]. *)
Definition main_option (ch : ascii) (dup : option string) (fa : Z * option string)
  : option (Z * option string) :=
  let (flags, attr) := fa in
  match ch with
  | "a"%char => Some (Z.lor flags (Z.lor F_APPEND_NULL_ALL F_APPEND_NULL), None)
  | "c"%char => Some (Z.land (Z.lor flags F_CHECK_AFP_EA)
                             (u_int64_t (Z.lnot F_FIX_AFP_EA)), attr)
  | "C"%char => Some (Z.lor flags F_DRY_RUN, attr)
  | "d"%char => Some (Z.lor flags F_DEBUG, attr)
  | "f"%char => Some (Z.land (Z.lor flags F_FIX_AFP_EA)
                             (u_int64_t (Z.lnot F_CHECK_AFP_EA)), attr)
  | "n"%char => Some (Z.land (Z.lor flags F_APPEND_NULL)
                             (u_int64_t (Z.lnot F_APPEND_NULL_ALL)), dup)
  | "r"%char => Some (Z.lor flags F_RECURSIVE, attr)
  | "v"%char => Some (Z.lor flags F_VERBOSE, attr)
  | _ => None
  end.

(** The loop over the options [getopt] finds, in order. *)
Fixpoint main_getopt (opts : list (ascii * option string)) (fa : Z * option string)
  : option (Z * option string) :=
  match opts with
  | [] => Some fa
  | (ch, dup) :: rest =>
      match main_option ch dup fa with
      | None => None
      | Some fa' => main_getopt rest fa'
      end
  end.


(** ** Environments and objects *)

(** An environment in which nothing fails: [open] returns 3, fresh memory
    is filled with 0xa5, and every allocation has two usable bytes past its
    size, as have those of the other environments below. *)
Definition quiet : oracle :=
  mkOracle 3 (fun _ => false) (fun _ _ => xa5) (fun _ => false)
           (fun _ => false) (fun _ => false) (fun _ => 2%nat).

(** An environment in which [open] returns descriptor 0, as it does when the
    program is started with its standard input closed. *)
Definition stdin_closed : oracle :=
  mkOracle 0 (fun _ => false) (fun _ _ => xa5) (fun _ => false)
           (fun _ => false) (fun _ => false) (fun _ => 2%nat).

(** Environments in which every [extattr_list_fd] fails, in which the first
    [extattr_get_fd] fails, and in which the first [extattr_set_fd] fails. *)
Definition list_fails : oracle :=
  mkOracle 3 (fun _ => false) (fun _ _ => xa5) (fun _ => true)
           (fun _ => false) (fun _ => false) (fun _ => 2%nat).

Definition first_get_fails : oracle :=
  mkOracle 3 (fun _ => false) (fun _ _ => xa5) (fun _ => false)
           (fun k => Nat.eqb k 0) (fun _ => false) (fun _ => 2%nat).

Definition first_set_fails : oracle :=
  mkOracle 3 (fun _ => false) (fun _ _ => xa5) (fun _ => false)
           (fun _ => false) (fun k => Nat.eqb k 0) (fun _ => 2%nat).

(** The objects of scenarios A and D of the specification. *)
Definition scenario_A : list (string * list byte) :=
  [("DosStream.rsrc", [x00; x46; x50; x01; x02])].

Definition scenario_D : list (string * list byte) :=
  [("DosStream.info", list_byte_of_string "hello")].

(** An object with two attributes, both corrupted. *)
Definition two_attributes : list (string * list byte) :=
  [("DosStream.a", [x00; x46; x50]); ("DosStream.b", [x00; x46; x50; x01])].

(** The state of [get_extended_attributes] when its loop starts. *)
Definition names_listed (o : oracle) (fd : Z) (st : list (string * list byte)) : state :=
  let s0 := initial st in
  let (ret, s1) := extattr_list_fd o fd None 0 s0 in
  let (_, s2) := malloc o ret s1 in
  snd (extattr_list_fd o fd (Some 0%nat) ret s2).

(** The state of [do_ea_stuff_single] after reading the attributes of an
    object and building both selections (all records for the append). *)
Definition ready (o : oracle) (st : list (string * list byte)) : state :=
  let (_, s1) := get_extended_attributes o 3 (initial st) in
  let (_, s2) := get_afp_list s1 in
  snd (get_append_list None s2).

(** ** Observations on states and traces *)

Definition is_set_call (e : event) : bool :=
  match e with SetCall _ _ _ => true | _ => false end.

Definition is_corrupted_report (e : event) : bool :=
  match e with Printf_corrupted _ _ => true | _ => false end.

Definition is_close (e : event) : bool :=
  match e with Close _ => true | _ => false end.

Definition is_oob (e : event) : bool :=
  match e with Oob _ _ _ => true | _ => false end.

(** The [extattr_set_fd] calls of a trace. *)
Definition set_calls (t : list event) : list event := filter is_set_call t.

(** The "is corrupted" lines of a trace. *)
Definition corrupted_reports (t : list event) : list event :=
  filter is_corrupted_report t.

(** The corruption rule in the words of the specification: at least three
    bytes long, and the value starts with 00 'F' 'P'. *)
Definition corrupted (s : state) (x : xattr) : Prop :=
  3 <= length x /\ firstn 3 (block_bytes s (value x)) = [x00; x46; x50].

(** Every member of a selection is a position of [xlist]. *)
Definition view_ok (s : state) (view : list nat) : Prop :=
  Forall (fun i => (i < List.length (xlist s))%nat) view.

(** The sizes of the blocks of the heap. *)
Definition sizes (s : state) : list nat :=
  map (fun blk => List.length (bytes blk)) (heap s).

(** What a pass that only prints leaves untouched. *)
Definition untouched (s s' : state) : Prop :=
  heap s' = heap s /\ xlist s' = xlist s /\ storage s' = storage s /\
  nset s' = nset s /\ set_calls (trace s') = set_calls (trace s).

(** From [s] to [s'] there were [m] calls of [malloc] and [n] calls of
    [extattr_set_fd], and [xlist] kept its positions. *)
Definition advanced (m n : nat) (s s' : state) : Prop :=
  List.length (xlist s') = List.length (xlist s) /\
  nmalloc s' = (nmalloc s + m)%nat /\
  nset s' = (nset s + n)%nat /\
  List.length (set_calls (trace s')) = (List.length (set_calls (trace s)) + n)%nat.

(** From [s] to [s'] the records of [xlist] are the same, and there were
    [m] calls of [malloc] and [g] calls of [extattr_get_fd]. *)
Definition kept (m g : nat) (s s' : state) : Prop :=
  xlist s' = xlist s /\
  nmalloc s' = (nmalloc s + m)%nat /\
  nget s' = (nget s + g)%nat.

(** From [s] to [s'] events were added to the trace, none of them a
    [Close]. *)
Definition grows (s s' : state) : Prop :=
  exists t, trace s' = trace s ++ t /\ filter is_close t = [].

(** Reading the attributes leaves both selections alone. *)
Definition views_kept (s s' : state) : Prop :=
  afp_list s' = afp_list s /\ append_list s' = append_list s.




(** ** Further observations *)

(** The test of [get_afp_list] on one record. *)
Definition selects (s : state) (x : xattr) : bool :=
  (3 <=? length x) && AFP_EA_CORRUPTED s (value x).

(** A record as a reader of the list sees it: its name as a C string and
    the [length] bytes of its value. *)
Definition record_view (s : state) (x : xattr) : string * list byte :=
  (cstr s (name x), firstn (Z.to_nat (length x)) (block_bytes s (value x))).

(** A value after the repair: its first byte replaced by 'A'. *)
Definition fix_head (v : list byte) : list byte :=
  match v with
  | [] => []
  | _ :: t => x41 :: t
  end.

(** From [s] to [s'] no byte of any block changed and [xlist] is the
    same. *)
Definition same_blocks (s s' : state) : Prop :=
  (forall q, block_bytes s' q = block_bytes s q) /\ xlist s' = xlist s.

(** An environment in which the [malloc] call number [k] returns NULL. *)
Definition malloc_fails_at (k : nat) : oracle :=
  mkOracle 3 (fun j => Nat.eqb j k) (fun _ _ => xa5) (fun _ => false)
           (fun _ => false) (fun _ => false) (fun _ => 2%nat).

(** An environment in which [open] fails. *)
Definition open_fails : oracle :=
  mkOracle (-1) (fun _ => false) (fun _ _ => xa5) (fun _ => false)
           (fun _ => false) (fun _ => false) (fun _ => 2%nat).

(** From [s] to [s'] nothing was written to the object: the stored
    attributes are the same and [extattr_set_fd] was not called. *)
Definition unwritten (s s' : state) : Prop :=
  storage s' = storage s /\ nset s' = nset s /\
  set_calls (trace s') = set_calls (trace s).

(** An environment in which the list of names can be sized but not
    fetched. *)
Definition second_list_fails : oracle :=
  mkOracle 3 (fun _ => false) (fun _ _ => xa5) (fun k => Nat.eqb k 1)
           (fun _ => false) (fun _ => false) (fun _ => 2%nat).

(** A block after [free]. *)
Definition kill (blk : block) : block := mkBlock (bytes blk) false.

(** The buffers the records of a list point to. *)
Definition buffers_of (xs : list xattr) : list ptr :=
  flat_map (fun x => [name x; value x]) xs.

(** The events of releasing the records of a list, in the order of
    [free_extended_attributes]. *)
Definition releases (xs : list xattr) : list event :=
  flat_map (fun x => [Free (name x); Free (value x); FreeRec x]) xs.

(** The heap of [s] is [h0] followed by blocks allocated since: the blocks
    of [h0] are as they were, bytes and liveness. *)
Definition ext_of (h0 : list block) (s : state) : Prop :=
  exists ext, heap s = h0 ++ ext.

(** Whether block [q] holds the value of a record of the selection. *)
Definition repaired (xs : list xattr) (view : list nat) (q : ptr) : bool :=
  existsb (fun idx => match nth_error xs idx with
                      | Some x => Nat.eqb q (value x)
                      | None => false
                      end) view.

(** An environment in which no [malloc], [extattr_list_fd] or
    [extattr_get_fd] call fails. *)
Definition calm (o : oracle) : Prop :=
  forall k, malloc_null o k = false /\ list_err o k = false /\ get_err o k = false.

(** A name that the list of names can carry and a C string can hold: at
    most 255 bytes, none of them NUL. *)
Definition plain (nm : string) : bool :=
  (String.length nm <=? 255)%nat &&
  forallb (fun b => negb (Byte.eqb b x00)) (list_byte_of_string nm).

(** The attributes among [rest] that a reader keeps: those whose name starts
    with "DosStream.", each with the value the object [st] gives for that
    name. *)
Definition kept_entries (st rest : list (string * list byte)) : list (string * list byte) :=
  flat_map (fun e => if prefix "DosStream." (fst e)
                     then match lookup (fst e) st with
                          | Some v => [(fst e, v)]
                          | None => []
                          end
                     else []) rest.

Definition afp_entries (st : list (string * list byte)) : list (string * list byte) :=
  kept_entries st st.

(** Every allocation has at least one usable byte past its size: the
    terminators that the program stores at index [n] of an [n]-byte block
    land in memory that belongs to that block. *)
Definition roomy (o : oracle) : Prop := forall k, (1 <= slack o k)%nat.

(** Record [x] holds the attribute [e]: its name block is the bytes of the
    name, with the terminator behind it in the room of the block, its value
    block is the value, both are allocated, and [length] is the size of the
    value. *)
Definition holds (s : state) (x : xattr) (e : string * list byte) : Prop :=
  nth_error (heap s) (name x) = Some (mkBlock (list_byte_of_string (fst e)) true) /\
  hd_error (room_of s (name x)) = Some x00 /\
  nth_error (heap s) (value x) = Some (mkBlock (snd e) true) /\
  length x = Z.of_nat (List.length (snd e)).

(** From [s] to [s'] blocks were allocated, and the blocks of [s] have the
    room they had. *)
Definition extends (s s' : state) : Prop :=
  exists ext added,
    heap s' = heap s ++ ext /\
    room s' = added ++ room s /\
    Forall (fun e => (List.length (heap s) <= fst e)%nat) added.

(** What the specification says of one name, in terms of the calls made for
    it when [km] calls of [malloc] and [kg] of [extattr_get_fd] were made
    before: whether a record is added (the name starts with "DosStream." and
    neither the allocation of the name, the size query, the allocation of the
    value, the fetch nor the allocation of the record fails), and how many
    calls of [malloc] and of [extattr_get_fd] it takes. *)
Definition acquire (o : oracle) (km kg : nat) (nm : string) : bool * nat * nat :=
  if malloc_null o km then (false, 1%nat, 0%nat)
  else if negb (prefix "DosStream." nm) then (false, 1%nat, 0%nat)
  else if get_err o kg then (false, 1%nat, 1%nat)
  else if malloc_null o (S km) then (false, 2%nat, 1%nat)
  else if get_err o (S kg) then (false, 2%nat, 2%nat)
  else if malloc_null o (S (S km)) then (false, 3%nat, 2%nat)
  else (true, 3%nat, 2%nat).

(** The attribute set in the words of the specification: the names [rest]
    are taken in order; a name whose record cannot be acquired is skipped,
    and the enumeration goes on with the names after it; each of the others
    gives one record with the value the object [st] has for the name. *)
Fixpoint best_effort (o : oracle) (st : list (string * list byte)) (km kg : nat)
         (rest : list (string * list byte)) : list (string * list byte) :=
  match rest with
  | [] => []
  | e :: rest' =>
      let '(ok, m, g) := acquire o km kg (fst e) in
      (if ok then match lookup (fst e) st with
                  | Some v => [(fst e, v)]
                  | None => []
                  end
       else [])
      ++ best_effort o st (km + m) (kg + g) rest'
  end.

(** An object with an attribute that is not an AFP one between two that
    are. *)
Definition mixed_attributes : list (string * list byte) :=
  [("DosStream.a", [x00; x46; x50]); ("user.note", [x68; x69]);
   ("DosStream.b", [x41; x46; x50; x01])].

(** Record [x] points past the blocks of [h0]. *)
Definition above (h0 : list block) (x : xattr) : Prop :=
  (List.length h0 <= name x)%nat /\ (List.length h0 <= value x)%nat.

(** The blocks of [h0] are out of reach of the records: the heap is [h0]
    followed by later blocks, and every record of [xlist] points past
    [h0]. *)
Definition guarded (h0 : list block) (s : state) : Prop :=
  ext_of h0 s /\ Forall (above h0) (xlist s).

(** The values a pass keeps in [ret]: 0, or [EX_EA_CORRUPTED] once a
    record was reported or a write failed. *)
Definition exit_bit (r : Z) : Prop := r = 0 \/ r = EX_EA_CORRUPTED.

(** The results of [fix_append_list]: those, or -1. *)
Definition append_code (r : Z) : Prop := r = -1 \/ exit_bit r.

(** The values [do_ea_stuff_single] can return. *)
Definition exit_code (r : Z) : Prop :=
  r = EX_OK \/ r = EX_EA_CORRUPTED \/ r = EX_DATAERR \/ r = EX_OSERR.

(** The entries that the loop of [do_ea_stuff_recursive] hands to
    [do_ea_stuff_single]. *)
Definition visited (e : FTSENT) : bool :=
  match fts_info e with
  | FTS_D | FTS_F => true
  | _ => false
  end.

(** The results of the calls of [do_ea_stuff_single] made by [fts_loop], in
    order. *)
Fixpoint fts_results (o : oracle) (entries : list FTSENT) (attr : option string)
         (flags : Z) (s : state) : list Z :=
  match entries with
  | [] => []
  | entry :: rest =>
      if visited entry then
        let (r, s1) := do_ea_stuff_single (opening o entry) (fts_accpath entry) attr
                         flags (set_storage (fts_object entry) s) in
        r :: fts_results o rest attr flags s1
      else if match fts_info entry with FTS_ERR => true | _ => false end then
        fts_results o rest attr flags
          (snd (warn (fts_path entry ++ ": " ++ fts_error entry) s))
      else fts_results o rest attr flags s
  end.

(** From [s] to [s'] no call of [extattr_set_fd] was made. *)
Definition uncalled (s s' : state) : Prop :=
  nset s' = nset s /\ set_calls (trace s') = set_calls (trace s).

(** Whether [c] is the last of the options [chs] that belongs to
    [among]. *)
Definition last_is (c : ascii) (among chs : list ascii) : bool :=
  match find (fun x => existsb (Ascii.eqb x) among) (rev chs) with
  | Some x => Ascii.eqb x c
  | None => false
  end.

(** The options that [main] handles. *)
Definition handled (ch : ascii) : bool :=
  existsb (Ascii.eqb ch) ["a"; "c"; "C"; "d"; "f"; "n"; "r"; "v"]%char.

(** What the options [opts] leave in the locals [flags] and [attr] of
    [main], option by option. *)
Definition parsed (opts : list (ascii * option string)) (fa : Z * option string) : Prop :=
  let chs := map fst opts in
  let flags := fst fa in
  0 <= flags < 256 /\
  has flags F_APPEND_NULL_ALL = last_is "a" ["a"; "n"]%char chs /\
  has flags F_CHECK_AFP_EA = last_is "c" ["c"; "f"]%char chs /\
  has flags F_DRY_RUN = existsb (Ascii.eqb "C") chs /\
  has flags F_FIX_AFP_EA = last_is "f" ["c"; "f"]%char chs /\
  has flags F_APPEND_NULL = existsb (Ascii.eqb "a") chs || existsb (Ascii.eqb "n") chs /\
  has flags F_VERBOSE = existsb (Ascii.eqb "v") chs /\
  has flags F_DEBUG = existsb (Ascii.eqb "d") chs /\
  has flags F_RECURSIVE = existsb (Ascii.eqb "r") chs /\
  snd fa = match find (fun e => existsb (Ascii.eqb (fst e)) ["a"; "n"]%char) (rev opts) with
           | Some (ch, dup) => if Ascii.eqb ch "n" then dup else None
           | None => None
           end.

(** The test of [get_afp_list] on a value. *)
Definition afp_corrupted (v : list byte) : bool :=
  match v with
  | b0 :: b1 :: b2 :: _ => Byte.eqb b0 x00 && Byte.eqb b1 "F" && Byte.eqb b2 "P"
  | _ => false
  end.

(** What the repair makes of an attribute of the object. *)
Definition repair (e : string * list byte) : string * list byte :=
  if prefix "DosStream." (fst e) && afp_corrupted (snd e)
  then (fst e, fix_head (snd e))
  else e.

(** What a turn of the repair does to the object. *)
Definition repair_step (es : list (string * list byte)) (st : list (string * list byte))
           (i : nat) : list (string * list byte) :=
  match nth_error es i with
  | Some e => assign (fst e) (fix_head (snd e)) st
  | None => st
  end.

(** An object with two corrupted AFP attributes, an AFP attribute that is
    not corrupted, and an attribute of another kind with the same bytes. *)
Definition repair_sample : list (string * list byte) :=
  [("DosStream.a", [x00; x46; x50]); ("user.note", [x00; x46; x50; x21]);
   ("DosStream.b", [x41; x46; x50; x01]); ("DosStream.c", [x00; x46; x50; x02; x03])].

(** A walk: a directory, a file in it, a file that cannot be opened, an
    entry that could not be read, a file that was not examined, another
    file, and the directory again on the way back. *)
Definition sample_tree : list FTSENT :=
  [mkFTSENT FTS_D "/d" "/d" "" [] 3;
   mkFTSENT FTS_F "/d/f" "/d/f" "" two_attributes 3;
   mkFTSENT FTS_F "/d/e" "/d/e" "" scenario_A (-1);
   mkFTSENT FTS_ERR "/d/g" "/d/g" "Permission denied" [] (-1);
   mkFTSENT FTS_NSOK "/d/h" "/d/h" "" scenario_A 3;
   mkFTSENT FTS_F "/d/i" "/d/i" "" scenario_A 3;
   mkFTSENT FTS_DP "/d" "/d" "" [] 3].

(** The options of [fix_ea -a -c -f -n DosStream.x -v]. *)
Definition sample_options : list (ascii * option string) :=
  [("a"%char, None); ("c"%char, None); ("f"%char, None);
   ("n"%char, Some "DosStream.x"); ("v"%char, None)].

(** Whether [p] is an allocated block that has not been freed. *)
Definition live_at (s : state) (p : ptr) : bool :=
  match nth_error (heap s) p with
  | Some blk => live blk
  | None => false
  end.

(** The blocks passed to [free], in order. *)
Definition freed (t : list event) : list ptr :=
  flat_map (fun e => match e with Free p => [p] | _ => [] end) t.

(** No block was freed twice, and what was freed is not allocated. *)
Definition tidy (s : state) : Prop :=
  NoDup (freed (trace s)) /\
  forall p, In p (freed (trace s)) ->
            (p < List.length (heap s))%nat /\ live_at s p = false.

(** The blocks allocated since [h0] that are still allocated are exactly
    those of [acct], each once. *)
Definition accounted (h0 : list block) (acct : list ptr) (s : state) : Prop :=
  ext_of h0 s /\
  NoDup acct /\
  (forall p, In p acct -> (List.length h0 <= p)%nat /\ live_at s p = true) /\
  (forall p, (List.length h0 <= p)%nat -> live_at s p = true -> In p acct) /\
  tidy s.

(** The same with the buffers of the records of [xlist] and the blocks
    [hold] that local variables point to. *)
Definition owns (h0 : list block) (hold : list ptr) (s : state) : Prop :=
  accounted h0 (hold ++ buffers_of (xlist s)) s.

(** Events other than a [free] of a buffer. *)
Definition not_free (e : event) : bool :=
  match e with Free _ => false | _ => true end.

(** ** Arithmetic and lists *)

Lemma to_int_m1 : to_int (-1) = -1.
Proof. reflexivity. Qed.

Lemma to_int_small (x : Z) : - 2 ^ 31 <= x < 2 ^ 31 -> to_int x = x.
Proof.
  intros H. unfold to_int. rewrite Z.mod_small; lia.
Qed.

Lemma to_size_t_small (x : Z) : 0 <= x < 2 ^ 64 -> to_size_t x = x.
Proof. intros H. unfold to_size_t. now apply Z.mod_small. Qed.

Lemma lor_corrupted_idem (ret : Z) :
  Z.lor (Z.lor ret EX_EA_CORRUPTED) EX_EA_CORRUPTED = Z.lor ret EX_EA_CORRUPTED.
Proof. now rewrite <- Z.lor_assoc, Z.lor_diag. Qed.

Lemma lor_ok (ret : Z) : Z.lor ret EX_OK = ret.
Proof. apply Z.lor_0_r. Qed.

Lemma upd_length {A} (l : list A) :
  forall (i : nat) (x : A), List.length (upd i x l) = List.length l.
Proof.
  induction l as [|h t IH]; intros [|i] x; cbn; try reflexivity.
  now rewrite IH.
Qed.

Lemma upd_map_same {A B} (f : A -> B) (l : list A) :
  forall (i : nat) (x y : A),
    nth_error l i = Some y -> f x = f y -> map f (upd i x l) = map f l.
Proof.
  induction l as [|h t IH]; intros [|i] x y Hn Hf; cbn in *; try discriminate.
  - injection Hn as ->. now rewrite Hf.
  - f_equal. now apply (IH i x y).
Qed.

Lemma nth_error_upd_same {A} (l : list A) :
  forall (i : nat) (x : A), (i < List.length l)%nat -> nth_error (upd i x l) i = Some x.
Proof.
  induction l as [|h t IH]; intros [|i] x H; cbn in *; try lia; try reflexivity.
  apply IH. lia.
Qed.

Lemma nth_error_upd_other {A} (l : list A) :
  forall (i j : nat) (x : A), i <> j -> nth_error (upd i x l) j = nth_error l j.
Proof.
  induction l as [|h t IH]; intros [|i] [|j] x H; cbn; try reflexivity; try congruence.
  apply IH. congruence.
Qed.

Lemma upd_firstn_skipn {A} (l : list A) :
  forall (i : nat) (x : A),
    (i < List.length l)%nat -> upd i x l = firstn i l ++ x :: skipn (S i) l.
Proof.
  induction l as [|h t IH]; intros [|i] x H; cbn in *; try lia; try reflexivity.
  f_equal. apply IH. lia.
Qed.

Lemma skipn_seq_last (f : nat -> byte) (n : nat) :
  skipn n (map f (seq 0 (S n))) = [f n].
Proof.
  rewrite skipn_map, skipn_seq.
  replace (S n - n)%nat with 1%nat by lia. reflexivity.
Qed.

Lemma set_trace_nil (s : state) : set_trace (trace s ++ []) s = s.
Proof. destruct s; cbn. now rewrite app_nil_r. Qed.

Lemma set_trace_app (s : state) (t1 t2 : list event) :
  set_trace (trace (set_trace (trace s ++ t1) s) ++ t2) (set_trace (trace s ++ t1) s)
  = set_trace (trace s ++ (t1 ++ t2)) s.
Proof. destruct s; cbn. now rewrite app_assoc. Qed.

Lemma set_calls_app (t1 t2 : list event) :
  set_calls (t1 ++ t2) = set_calls t1 ++ set_calls t2.
Proof. apply filter_app. Qed.

Lemma corrupted_reports_app (t1 t2 : list event) :
  corrupted_reports (t1 ++ t2) = corrupted_reports t1 ++ corrupted_reports t2.
Proof. apply filter_app. Qed.

(** ** The primitives only add events, none of them a close *)

Lemma grows_refl (s : state) : grows s s.
Proof. exists []. now rewrite app_nil_r. Qed.

Lemma grows_trans (s s1 s2 : state) : grows s s1 -> grows s1 s2 -> grows s s2.
Proof.
  intros (t1 & E1 & C1) (t2 & E2 & C2). exists (t1 ++ t2).
  rewrite E2, E1, app_assoc, filter_app, C1, C2. now split.
Qed.

Lemma grows_In (e : event) (s s' : state) :
  grows s s' -> In e (trace s) -> In e (trace s').
Proof. intros (t & E & _) H. rewrite E. apply in_or_app. now left. Qed.

Lemma grows_same_trace (s s' : state) : trace s' = trace s -> grows s s'.
Proof. intros E. exists []. now rewrite app_nil_r. Qed.

Lemma grows_event (e : event) (s s' : state) :
  is_close e = false -> trace s' = trace s ++ [e] -> grows s s'.
Proof. intros H E. exists [e]. split; [exact E|]. cbn. now rewrite H. Qed.

Lemma emit_grows (e : event) (s : state) :
  is_close e = false -> grows s (snd (emit e s)).
Proof. intros H. now apply (grows_event e). Qed.

Lemma store_grows (p : ptr) (i : Z) (b : byte) (s : state) :
  grows s (snd (store p i b s)).
Proof.
  unfold store. destruct (nth_error (heap s) p) as [blk|]; [|apply grows_refl].
  destruct ((0 <=? i) && (i <? Z.of_nat (List.length (bytes blk)))); cbn [snd].
  - now apply grows_same_trace.
  - now apply (grows_event (Oob p i (List.length (bytes blk)))).
Qed.

Lemma store_bytes_grows (p : ptr) (bs : list byte) :
  forall (i : Z) (s : state), grows s (snd (store_bytes p i bs s)).
Proof.
  induction bs as [|b rest IH]; intros i s.
  - apply grows_refl.
  - cbn [store_bytes]. unfold bind.
    pose proof (store_grows p i b s) as H1.
    destruct (store p i b s) as [u s1]. cbn [snd] in H1.
    apply (grows_trans s s1); [exact H1 | apply IH].
Qed.

Lemma free_grows (p : ptr) (s : state) : grows s (snd (free p s)).
Proof. unfold free. now apply (grows_event (Free p)). Qed.

Lemma malloc_grows (o : oracle) (n : Z) (s : state) : grows s (snd (malloc o n s)).
Proof.
  unfold malloc. destruct (malloc_null o (nmalloc s)); now apply grows_same_trace.
Qed.

Lemma malloc_xattr_grows (o : oracle) (s : state) : grows s (snd (malloc_xattr o s)).
Proof. now apply grows_same_trace. Qed.

Lemma extattr_list_fd_grows (o : oracle) (fd : Z) (data : option ptr) (n : Z) (s : state) :
  grows s (snd (extattr_list_fd o fd data n s)).
Proof.
  unfold extattr_list_fd.
  destruct (list_err o (nlist s)); [now apply grows_same_trace|].
  destruct data as [p|]; cbn [snd]; [|now apply grows_same_trace].
  apply (grows_trans s (set_nlist (S (nlist s)) s));
    [now apply grows_same_trace | apply store_bytes_grows].
Qed.

Lemma extattr_get_fd_grows (o : oracle) (fd : Z) (nm : string) (data : option ptr)
      (n : Z) (s : state) :
  grows s (snd (extattr_get_fd o fd nm data n s)).
Proof.
  unfold extattr_get_fd.
  destruct (get_err o (nget s)); [now apply grows_same_trace|].
  destruct (lookup nm (storage s)) as [v|]; [|now apply grows_same_trace].
  destruct data as [p|]; cbn [snd]; [|now apply grows_same_trace].
  apply (grows_trans s (set_nget (S (nget s)) s));
    [now apply grows_same_trace | apply store_bytes_grows].
Qed.

Lemma extattr_set_fd_grows (o : oracle) (fd : Z) (nm : string) (p : ptr) (n : Z)
      (s : state) :
  grows s (snd (extattr_set_fd o fd nm p n s)).
Proof.
  unfold extattr_set_fd. destruct (set_err o (nset s)); cbn [snd].
  - now apply (grows_event (SetCall nm (load_bytes s p 0 n) (-1))).
  - now apply (grows_event (SetCall nm (load_bytes s p 0 n) n)).
Qed.

Lemma hexdump_ea_grows (path nm : string) (buf : ptr) (len : Z) (s : state) :
  grows s (snd (hexdump_ea path nm buf len s)).
Proof.
  unfold hexdump_ea, bind, gets, mret.
  destruct (len =? 0); [apply grows_refl|].
  destruct (len <? 8); apply emit_grows; reflexivity.
Qed.

(** Runs a computation one primitive at a time, recording for each the
    [grows] step it makes. *)
Ltac grow_step o fd :=
  match goal with
  | |- context [store_bytes ?p ?i ?bs ?st] =>
      pose proof (store_bytes_grows p bs i st);
      destruct (store_bytes p i bs st) as [? ?]
  | |- context [store ?p ?i ?b ?st] =>
      pose proof (store_grows p i b st);
      destruct (store p i b st) as [? ?]
  | |- context [free ?p ?st] =>
      pose proof (free_grows p st);
      destruct (free p st) as [? ?]
  | |- context [hexdump_ea ?a ?b ?c ?d ?st] =>
      pose proof (hexdump_ea_grows a b c d st);
      destruct (hexdump_ea a b c d st) as [? ?]
  | |- context [emit ?e ?st] =>
      pose proof (emit_grows e st eq_refl);
      destruct (emit e st) as [? ?]
  | |- context [extattr_get_fd o fd ?nm ?d ?n ?st] =>
      pose proof (extattr_get_fd_grows o fd nm d n st);
      destruct (extattr_get_fd o fd nm d n st) as [? ?]
  | |- context [extattr_set_fd o fd ?nm ?d ?n ?st] =>
      pose proof (extattr_set_fd_grows o fd nm d n st);
      destruct (extattr_set_fd o fd nm d n st) as [? ?]
  | |- context [extattr_list_fd o fd ?d ?n ?st] =>
      pose proof (extattr_list_fd_grows o fd d n st);
      destruct (extattr_list_fd o fd d n st) as [? ?]
  | |- context [malloc o ?n ?st] =>
      pose proof (malloc_grows o n st);
      destruct (malloc o n st) as [[?|] ?]
  | |- context [malloc_xattr o ?st] =>
      pose proof (malloc_xattr_grows o st);
      destruct (malloc_xattr o st) as [? ?]
  | |- context [if ?c then _ else _] => destruct c eqn:?
  end; cbn [fst snd] in *.

(** Closes a goal [grows s s'] from the recorded steps. *)
Ltac grow_chain :=
  repeat match goal with
         | H : grows ?a ?b |- grows ?a _ =>
             apply (grows_trans a b); [exact H|]; clear H
         | H : grows ?c ?b |- grows ?a _ =>
             apply (grows_trans a c); [now apply grows_same_trace|];
             apply (grows_trans c b); [exact H|]; clear H
         end;
  first [ apply grows_refl | now apply grows_same_trace ].

(** ** Sizes and contents of blocks *)

Lemma store_sizes (p : ptr) (i : Z) (b : byte) (s : state) :
  sizes (snd (store p i b s)) = sizes s.
Proof.
  unfold store, sizes. destruct (nth_error (heap s) p) as [blk|] eqn:Hp; [|reflexivity].
  destruct ((0 <=? i) && (i <? Z.of_nat (List.length (bytes blk)))); [|reflexivity].
  cbn [snd heap set_heap].
  apply (upd_map_same _ _ _ _ blk Hp). cbn. apply upd_length.
Qed.

Lemma store_bytes_sizes (p : ptr) (bs : list byte) :
  forall (i : Z) (s : state), sizes (snd (store_bytes p i bs s)) = sizes s.
Proof.
  induction bs as [|b rest IH]; intros i s; [reflexivity|].
  cbn [store_bytes]. unfold bind.
  pose proof (store_sizes p i b s) as H1.
  destruct (store p i b s) as [u s1]. cbn [snd] in H1.
  now rewrite IH.
Qed.

(** A store at or after the size of the block is recorded as out of
    bounds. *)
Lemma store_past_end (p : ptr) (i : Z) (b : byte) (n : nat) (s : state) :
  nth_error (sizes s) p = Some n ->
  Z.of_nat n <= i ->
  store p i b s
  = (tt, set_trace (trace s ++ [Oob p i n]) (set_room (spill p i n b s) s)).
Proof.
  intros Hn Hi. unfold sizes in Hn. rewrite nth_error_map in Hn.
  unfold store. destruct (nth_error (heap s) p) as [blk|]; [|discriminate].
  injection Hn as <-. cbv zeta.
  replace (i <? Z.of_nat (List.length (bytes blk))) with false
    by (symmetry; apply Z.ltb_ge; exact Hi).
  now rewrite andb_false_r.
Qed.

Lemma malloc_fresh_block (o : oracle) (n : Z) (s : state) :
  malloc_null o (nmalloc s) = false ->
  exists s1,
    malloc o n s = (Some (List.length (heap s)), s1) /\
    nth_error (sizes s1) (List.length (heap s)) = Some (Z.to_nat n) /\
    grows s s1.
Proof.
  intros H. unfold malloc. rewrite H. eexists. split; [reflexivity|]. split.
  - unfold sizes. cbn [heap set_heap set_nmalloc set_room].
    rewrite map_app, nth_error_app2 by (rewrite length_map; lia).
    rewrite length_map, Nat.sub_diag. cbn.
    now rewrite length_map, length_seq.
  - now apply grows_same_trace.
Qed.

Lemma malloc_fresh_bytes (o : oracle) (n : Z) (s : state) :
  malloc_null o (nmalloc s) = false ->
  exists s1,
    malloc o n s = (Some (List.length (heap s)), s1) /\
    block_bytes s1 (List.length (heap s))
    = map (junk o (nmalloc s)) (seq 0 (Z.to_nat n)) /\
    (forall q, (q < List.length (heap s))%nat -> block_bytes s1 q = block_bytes s q) /\
    nth_error (sizes s1) (List.length (heap s)) = Some (Z.to_nat n).
Proof.
  intros H. destruct (malloc_fresh_block o n s H) as (s1 & E & Z1 & _).
  exists s1. split; [exact E|].
  unfold malloc in E. rewrite H in E. injection E as <-.
  split; [|split; [|exact Z1]].
  - unfold block_bytes. cbn [heap set_heap set_nmalloc set_room].
    now rewrite nth_error_app2, Nat.sub_diag by lia.
  - intros q Hq. unfold block_bytes. cbn [heap set_heap set_nmalloc set_room].
    now rewrite nth_error_app1 by exact Hq.
Qed.

(** The bytes of a block after a store inside it. *)
Lemma store_block_bytes (p : ptr) (i : Z) (b : byte) (s : state) :
  0 <= i < Z.of_nat (List.length (block_bytes s p)) ->
  block_bytes (snd (store p i b s)) p = upd (Z.to_nat i) b (block_bytes s p).
Proof.
  intros Hi. unfold store, block_bytes in *.
  destruct (nth_error (heap s) p) as [blk|] eqn:Hp; [|cbn in Hi; lia].
  replace ((0 <=? i) && (i <? Z.of_nat (List.length (bytes blk)))) with true
    by (symmetry; apply andb_true_iff; split; [apply Z.leb_le | apply Z.ltb_lt]; lia).
  cbn [snd heap set_heap].
  rewrite nth_error_upd_same; [reflexivity|].
  apply nth_error_Some. congruence.
Qed.

Lemma store_bytes_block_bytes (p : ptr) (bs : list byte) :
  forall (i : nat) (s : state),
    (i + List.length bs <= List.length (block_bytes s p))%nat ->
    block_bytes (snd (store_bytes p (Z.of_nat i) bs s)) p
    = firstn i (block_bytes s p) ++ bs ++ skipn (i + List.length bs) (block_bytes s p).
Proof.
  induction bs as [|b rest IH]; intros i s Hlen.
  - cbn. rewrite Nat.add_0_r. now rewrite firstn_skipn.
  - cbn [store_bytes]. unfold bind. cbn [List.length] in Hlen.
    pose proof (store_block_bytes p (Z.of_nat i) b s) as H1.
    destruct (store p (Z.of_nat i) b s) as [u s1]. cbn [snd] in H1.
    rewrite Nat2Z.id in H1.
    assert (Hb : block_bytes s1 p = upd i b (block_bytes s p)) by (apply H1; lia).
    replace (Z.of_nat i + 1) with (Z.of_nat (S i)) by lia.
    rewrite IH by (rewrite Hb, upd_length; lia).
    rewrite Hb, upd_firstn_skipn by lia.
    set (l := block_bytes s p) in *.
    assert (Hf : List.length (firstn i l) = i) by (apply firstn_length_le; lia).
    replace (S i) with (List.length (firstn i l) + 1)%nat at 1 by lia.
    rewrite firstn_app_2. cbn [firstn].
    replace (S i + List.length rest)%nat
      with (List.length (firstn i l) + (1 + List.length rest))%nat by lia.
    rewrite skipn_app, skipn_all2 by lia.
    replace (List.length (firstn i l) + (1 + List.length rest) - List.length (firstn i l))%nat
      with (S (List.length rest)) by lia.
    rewrite skipn_cons, skipn_skipn.
    rewrite <- app_assoc. cbn [app].
    now replace (List.length rest + S i)%nat with (i + S (List.length rest))%nat by lia.
Qed.

Lemma free_block_bytes (p q : ptr) (s : state) :
  block_bytes (snd (free p s)) q = block_bytes s q.
Proof.
  unfold free, block_bytes. cbn [snd heap set_trace set_heap].
  destruct (nth_error (heap s) p) as [blk|] eqn:Hp; [|reflexivity].
  destruct (Nat.eq_dec p q) as [<-|Hne].
  - rewrite nth_error_upd_same by (apply nth_error_Some; congruence).
    now rewrite Hp.
  - now rewrite nth_error_upd_other.
Qed.

(** ** The primitives and the counters of calls *)

Ltac advanced_by_computation :=
  unfold advanced, set_calls; cbn;
  rewrite ?filter_app, ?length_app; cbn;
  repeat split; lia.

Lemma advanced_refl (s : state) : advanced 0 0 s s.
Proof. advanced_by_computation. Qed.

Lemma advanced_trans (m1 n1 m2 n2 : nat) (s s1 s2 : state) :
  advanced m1 n1 s s1 -> advanced m2 n2 s1 s2 -> advanced (m1 + m2) (n1 + n2) s s2.
Proof. unfold advanced. intros (A & B & C & D) (A' & B' & C' & D'). repeat split; lia. Qed.

Lemma advanced_printing (s : state) (t : list event) :
  set_calls t = [] -> advanced 0 0 s (set_trace (trace s ++ t) s).
Proof.
  intros St. unfold advanced. cbn. rewrite set_calls_app, St, app_nil_r.
  repeat split; lia.
Qed.

Lemma view_ok_advanced (m n : nat) (s s' : state) (view : list nat) :
  advanced m n s s' -> view_ok s view -> view_ok s' view.
Proof. intros [L _]. unfold view_ok. now rewrite L. Qed.

Lemma store_advanced (p : ptr) (i : Z) (b : byte) (s : state) :
  advanced 0 0 s (snd (store p i b s)).
Proof.
  unfold store. destruct (nth_error (heap s) p) as [blk|]; [|apply advanced_refl].
  destruct ((0 <=? i) && (i <? Z.of_nat (List.length (bytes blk)))); cbn [snd].
  - advanced_by_computation.
  - advanced_by_computation.
Qed.

Lemma store_bytes_advanced (p : ptr) (bs : list byte) :
  forall (i : Z) (s : state), advanced 0 0 s (snd (store_bytes p i bs s)).
Proof.
  induction bs as [|b rest IH]; intros i s.
  - apply advanced_refl.
  - cbn [store_bytes]. unfold bind.
    pose proof (store_advanced p i b s) as H1.
    destruct (store p i b s) as [u s1]. cbn [snd] in H1.
    apply (advanced_trans 0 0 0 0 s s1); [exact H1 | apply IH].
Qed.

Lemma free_advanced (p : ptr) (s : state) : advanced 0 0 s (snd (free p s)).
Proof.
  unfold free. advanced_by_computation.
Qed.

Lemma malloc_advanced (o : oracle) (n : Z) (s : state) :
  malloc_null o (nmalloc s) = false ->
  exists p s', malloc o n s = (Some p, s') /\ advanced 1 0 s s'.
Proof.
  intros H. unfold malloc. rewrite H. do 2 eexists. split; [reflexivity|].
  advanced_by_computation.
Qed.

Lemma extattr_set_fd_advanced (o : oracle) (fd : Z) (nm : string) (p : ptr) (n : Z)
      (s : state) :
  advanced 0 1 s (snd (extattr_set_fd o fd nm p n s)) /\
  fst (extattr_set_fd o fd nm p n s) = if set_err o (nset s) then -1 else n.
Proof.
  unfold extattr_set_fd. destruct (set_err o (nset s)); cbn [fst snd].
  - split; [advanced_by_computation | reflexivity].
  - split; [advanced_by_computation | reflexivity].
Qed.

Ltac kept_by_computation :=
  unfold kept; cbn; repeat split; lia.

Lemma kept_refl (s : state) : kept 0 0 s s.
Proof. kept_by_computation. Qed.

Lemma kept_trans (m1 g1 m2 g2 : nat) (s s1 s2 : state) :
  kept m1 g1 s s1 -> kept m2 g2 s1 s2 -> kept (m1 + m2) (g1 + g2) s s2.
Proof.
  unfold kept. intros (A & B & C) (A' & B' & C').
  repeat split; [congruence | lia | lia].
Qed.

Lemma store_kept (p : ptr) (i : Z) (b : byte) (s : state) :
  kept 0 0 s (snd (store p i b s)).
Proof.
  unfold store. destruct (nth_error (heap s) p) as [blk|]; [|apply kept_refl].
  destruct ((0 <=? i) && (i <? Z.of_nat (List.length (bytes blk))));
    kept_by_computation.
Qed.

Lemma store_bytes_kept (p : ptr) (bs : list byte) :
  forall (i : Z) (s : state), kept 0 0 s (snd (store_bytes p i bs s)).
Proof.
  induction bs as [|b rest IH]; intros i s.
  - apply kept_refl.
  - cbn [store_bytes]. unfold bind.
    pose proof (store_kept p i b s) as H1.
    destruct (store p i b s) as [u s1]. cbn [snd] in H1.
    apply (kept_trans 0 0 0 0 s s1); [exact H1 | apply IH].
Qed.

Lemma free_kept (p : ptr) (s : state) : kept 0 0 s (snd (free p s)).
Proof. unfold free. kept_by_computation. Qed.

Lemma emit_kept (e : event) (s : state) : kept 0 0 s (snd (emit e s)).
Proof. unfold emit, modify. kept_by_computation. Qed.

Lemma malloc_kept (o : oracle) (n : Z) (s : state) :
  kept 1 0 s (snd (malloc o n s)) /\
  (malloc_null o (nmalloc s) = true -> fst (malloc o n s) = None).
Proof.
  unfold malloc. destruct (malloc_null o (nmalloc s)); cbn [fst snd].
  - split; [kept_by_computation | reflexivity].
  - split; [kept_by_computation | discriminate].
Qed.

Lemma malloc_xattr_kept (o : oracle) (s : state) :
  kept 1 0 s (snd (malloc_xattr o s)) /\
  fst (malloc_xattr o s) = negb (malloc_null o (nmalloc s)).
Proof. unfold malloc_xattr. cbn [fst snd]. split; [kept_by_computation | reflexivity]. Qed.

Lemma extattr_get_fd_kept (o : oracle) (fd : Z) (nm : string) (data : option ptr)
      (n : Z) (s : state) :
  kept 0 1 s (snd (extattr_get_fd o fd nm data n s)) /\
  (get_err o (nget s) = true -> fst (extattr_get_fd o fd nm data n s) = -1).
Proof.
  unfold extattr_get_fd.
  destruct (get_err o (nget s)); cbn [fst snd].
  - split; [kept_by_computation | reflexivity].
  - split; [|discriminate].
    destruct (lookup nm (storage s)) as [v|]; [|kept_by_computation].
    destruct data as [p|]; cbn [snd]; [|kept_by_computation].
    apply (kept_trans 0 1 0 0 s (set_nget (S (nget s)) s));
      [kept_by_computation | apply store_bytes_kept].
Qed.

Ltac kept_step o fd :=
  match goal with
  | |- context [store_bytes ?p ?i ?bs ?st] =>
      pose proof (store_bytes_kept p bs i st);
      destruct (store_bytes p i bs st) as [? ?]
  | |- context [store ?p ?i ?b ?st] =>
      pose proof (store_kept p i b st);
      destruct (store p i b st) as [? ?]
  | |- context [free ?p ?st] =>
      pose proof (free_kept p st);
      destruct (free p st) as [? ?]
  | |- context [emit ?e ?st] =>
      pose proof (emit_kept e st);
      destruct (emit e st) as [? ?]
  | |- context [extattr_get_fd o fd ?nm ?d ?n ?st] =>
      pose proof (extattr_get_fd_kept o fd nm d n st) as [? ?];
      destruct (extattr_get_fd o fd nm d n st) as [? ?]
  | |- context [malloc o ?n ?st] =>
      pose proof (malloc_kept o n st) as [? ?];
      destruct (malloc o n st) as [[?|] ?]
  | |- context [malloc_xattr o ?st] =>
      pose proof (malloc_xattr_kept o st) as [? ?];
      destruct (malloc_xattr o st) as [? ?]
  | |- context [if ?c then _ else _] => destruct c eqn:?
  end; cbn [fst snd] in *.

Lemma views_kept_refl (s : state) : views_kept s s.
Proof. now split. Qed.

Lemma views_kept_trans (s s1 s2 : state) :
  views_kept s s1 -> views_kept s1 s2 -> views_kept s s2.
Proof. unfold views_kept. intros [A B] [A' B']. split; congruence. Qed.

Lemma store_views (p : ptr) (i : Z) (b : byte) (s : state) :
  views_kept s (snd (store p i b s)).
Proof.
  unfold store. destruct (nth_error (heap s) p) as [blk|]; [|apply views_kept_refl].
  destruct ((0 <=? i) && (i <? Z.of_nat (List.length (bytes blk)))); now split.
Qed.

Lemma store_bytes_views (p : ptr) (bs : list byte) :
  forall (i : Z) (s : state), views_kept s (snd (store_bytes p i bs s)).
Proof.
  induction bs as [|b rest IH]; intros i s.
  - apply views_kept_refl.
  - cbn [store_bytes]. unfold bind.
    pose proof (store_views p i b s) as H1.
    destruct (store p i b s) as [u s1]. cbn [snd] in H1.
    apply (views_kept_trans s s1); [exact H1 | apply IH].
Qed.

Lemma free_views (p : ptr) (s : state) : views_kept s (snd (free p s)).
Proof. now split. Qed.

Lemma emit_views (e : event) (s : state) : views_kept s (snd (emit e s)).
Proof. now split. Qed.

Lemma malloc_views (o : oracle) (n : Z) (s : state) : views_kept s (snd (malloc o n s)).
Proof. unfold malloc. destruct (malloc_null o (nmalloc s)); now split. Qed.

Lemma malloc_xattr_views (o : oracle) (s : state) : views_kept s (snd (malloc_xattr o s)).
Proof. now split. Qed.

Lemma extattr_list_fd_views (o : oracle) (fd : Z) (data : option ptr) (n : Z) (s : state) :
  views_kept s (snd (extattr_list_fd o fd data n s)).
Proof.
  unfold extattr_list_fd.
  destruct (list_err o (nlist s)); [now split|].
  destruct data as [p|]; cbn [snd]; [|now split].
  apply (views_kept_trans s (set_nlist (S (nlist s)) s));
    [now split | apply store_bytes_views].
Qed.

Lemma extattr_get_fd_views (o : oracle) (fd : Z) (nm : string) (data : option ptr)
      (n : Z) (s : state) :
  views_kept s (snd (extattr_get_fd o fd nm data n s)).
Proof.
  unfold extattr_get_fd.
  destruct (get_err o (nget s)); [now split|].
  destruct (lookup nm (storage s)) as [v|]; [|now split].
  destruct data as [p|]; cbn [snd]; [|now split].
  apply (views_kept_trans s (set_nget (S (nget s)) s));
    [now split | apply store_bytes_views].
Qed.

Ltac views_step o fd :=
  match goal with
  | |- context [store_bytes ?p ?i ?bs ?st] =>
      pose proof (store_bytes_views p bs i st);
      destruct (store_bytes p i bs st) as [? ?]
  | |- context [store ?p ?i ?b ?st] =>
      pose proof (store_views p i b st);
      destruct (store p i b st) as [? ?]
  | |- context [free ?p ?st] =>
      pose proof (free_views p st);
      destruct (free p st) as [? ?]
  | |- context [emit ?e ?st] =>
      pose proof (emit_views e st);
      destruct (emit e st) as [? ?]
  | |- context [extattr_get_fd o fd ?nm ?d ?n ?st] =>
      pose proof (extattr_get_fd_views o fd nm d n st);
      destruct (extattr_get_fd o fd nm d n st) as [? ?]
  | |- context [extattr_list_fd o fd ?d ?n ?st] =>
      pose proof (extattr_list_fd_views o fd d n st);
      destruct (extattr_list_fd o fd d n st) as [? ?]
  | |- context [malloc o ?n ?st] =>
      pose proof (malloc_views o n st);
      destruct (malloc o n st) as [[?|] ?]
  | |- context [malloc_xattr o ?st] =>
      pose proof (malloc_xattr_views o st);
      destruct (malloc_xattr o st) as [? ?]
  | |- context [if ?c then _ else _] => destruct c eqn:?
  end; cbn [fst snd] in *.

Ltac views_chain :=
  repeat match goal with
         | H : views_kept ?a ?b |- views_kept ?a _ =>
             apply (views_kept_trans a b); [exact H|]; clear H
         end;
  first [ apply views_kept_refl | now split ].

(** ** The debug dump *)

Lemma hexdump_ea_trace (path nm : string) (buf : ptr) (len : Z) (s : state) :
  exists t,
    hexdump_ea path nm buf len s = (tt, set_trace (trace s ++ t) s) /\
    set_calls t = [] /\ corrupted_reports t = [].
Proof.
  unfold hexdump_ea, bind, gets, emit, modify, mret.
  destruct (len =? 0).
  - exists []. now rewrite set_trace_nil.
  - destruct (len <? 8); eexists; repeat split; reflexivity.
Qed.

(** The debug dump at the head of each loop turn. *)
Lemma debug_dump_trace (flags : Z) (path nm : string) (buf : ptr) (len : Z) (s : state) :
  exists t,
    (if has flags F_DEBUG then hexdump_ea path nm buf len else mret tt) s
    = (tt, set_trace (trace s ++ t) s) /\
    set_calls t = [] /\ corrupted_reports t = [].
Proof.
  destruct (has flags F_DEBUG).
  - apply hexdump_ea_trace.
  - exists []. unfold mret. now rewrite set_trace_nil.
Qed.

(** Opens a loop turn up to the state after its debug dump. *)
Ltac after_debug_dump flags path s x t1 S1 R1 :=
  unfold bind at 1; unfold gets at 1; unfold bind at 1;
  let E1 := fresh "E" in
  destruct (debug_dump_trace flags path (cstr s (name x)) (value x) (length x) s)
    as [t1 [E1 [S1 R1]]];
  rewrite E1; clear E1.

Lemma printing_untouched (s s' : state) (t : list event) :
  s' = set_trace (trace s ++ t) s -> set_calls t = [] -> untouched s s'.
Proof.
  intros -> St. unfold untouched. cbn. repeat split.
  now rewrite set_calls_app, St, app_nil_r.
Qed.

(** ** Reading the attributes: get_extended_attributes (C10) *)

(** A turn of the loop of [get_extended_attributes] in which the
    allocation of the name, the size query, the allocation of the value, the
    fetch of the value or the allocation of the record fails leaves [xlist]
    as it was. *)
Lemma fetch_entry_skips (o : oracle) (fd : Z) (buf : ptr) (i ch : Z) (s : state) :
  malloc_null o (nmalloc s) = true \/
  get_err o (nget s) = true \/
  malloc_null o (S (nmalloc s)) = true \/
  get_err o (S (nget s)) = true \/
  malloc_null o (S (S (nmalloc s))) = true ->
  xlist (snd (fetch_entry o fd buf i ch s)) = xlist s.
Proof.
  intros Hfail. unfold fetch_entry, warn, bind, gets, modify, mret.
  repeat kept_step o fd.
  all: unfold kept in *.
  all: repeat match goal with H : _ /\ _ |- _ => destruct H end.
  all: try congruence.
  exfalso.
  repeat match goal with
         | H : nmalloc _ = _ |- _ => rewrite H in *; clear H
         | H : nget _ = _ |- _ => rewrite H in *; clear H
         end.
  rewrite ?Nat.add_0_r, ?Nat.add_1_r in *.
  destruct Hfail as [Hf|[Hf|[Hf|[Hf|Hf]]]];
    try match goal with
        | H : ?c = true -> _ |- _ => specialize (H Hf)
        end;
    subst; rewrite ?to_int_m1 in *; try discriminate.
  rewrite Hf in *. discriminate.
Qed.

(** More fuel than the distance from [i] to [ret] changes nothing: the loop
    never stops for want of fuel. *)
Lemma ea_loop_fuel (o : oracle) (fd : Z) (buf : ptr) (ret : Z) (fuel : nat) :
  forall (i : Z) (s : state),
    (Z.to_nat (ret - i) <= fuel)%nat ->
    ea_loop o (S fuel) fd buf ret i s = ea_loop o fuel fd buf ret i s.
Proof.
  induction fuel as [|fuel IH]; intros i s Hfuel.
  - cbn [ea_loop]. destruct (i <? ret) eqn:Hlt; [|reflexivity].
    apply Z.ltb_lt in Hlt. lia.
  - cbn [ea_loop] in *. destruct (i <? ret) eqn:Hlt; [|reflexivity].
    apply Z.ltb_lt in Hlt. unfold bind, gets.
    destruct (fetch_entry o fd buf i (Z.of_N (Byte.to_N (load s buf i))) s) as [u s1].
    apply IH.
    pose proof (N2Z.is_nonneg (Byte.to_N (load s buf i))). lia.
Qed.

(** In particular the fuel [get_extended_attributes] gives its loop is
    enough: any amount on top of it leaves the result as it is. *)
Lemma ea_loop_enough (o : oracle) (fd : Z) (buf : ptr) (ret : Z) (s : state) (k : nat) :
  ea_loop o (Z.to_nat ret + k) fd buf ret 0 s = ea_loop o (Z.to_nat ret) fd buf ret 0 s.
Proof.
  induction k as [|k IH].
  - now rewrite Nat.add_0_r.
  - rewrite Nat.add_succ_r, ea_loop_fuel by lia. exact IH.
Qed.

Lemma fetch_entry_grows (o : oracle) (fd : Z) (buf : ptr) (i ch : Z) (s : state) :
  grows s (snd (fetch_entry o fd buf i ch s)).
Proof.
  unfold fetch_entry, warn, bind, gets, modify, mret.
  repeat grow_step o fd; grow_chain.
Qed.

Lemma ea_loop_grows (o : oracle) (fd : Z) (buf : ptr) (ret : Z) (fuel : nat) :
  forall (i : Z) (s : state), grows s (snd (ea_loop o fuel fd buf ret i s)).
Proof.
  induction fuel as [|fuel IH]; intros i s; cbn [ea_loop].
  - apply grows_refl.
  - destruct (i <? ret); [|apply grows_refl].
    unfold bind, gets.
    pose proof (fetch_entry_grows o fd buf i (Z.of_N (Byte.to_N (load s buf i))) s) as H.
    destruct (fetch_entry o fd buf i (Z.of_N (Byte.to_N (load s buf i))) s) as [u s1].
    apply (grows_trans s s1); [exact H | apply IH].
Qed.

Lemma get_extended_attributes_grows (o : oracle) (fd : Z) (s : state) :
  grows s (snd (get_extended_attributes o fd s)).
Proof.
  unfold get_extended_attributes, warn, bind, mret.
  repeat grow_step o fd; try grow_chain.
  match goal with
  | |- context [ea_loop o ?f fd ?b ?r ?i ?st] =>
      pose proof (ea_loop_grows o fd b r f i st);
      destruct (ea_loop o f fd b r i st) as [? ?]
  end.
  cbn [snd] in *. grow_chain.
Qed.

Lemma fetch_entry_views (o : oracle) (fd : Z) (buf : ptr) (i ch : Z) (s : state) :
  views_kept s (snd (fetch_entry o fd buf i ch s)).
Proof.
  unfold fetch_entry, warn, bind, gets, modify, mret.
  repeat views_step o fd; views_chain.
Qed.

Lemma ea_loop_views (o : oracle) (fd : Z) (buf : ptr) (ret : Z) (fuel : nat) :
  forall (i : Z) (s : state), views_kept s (snd (ea_loop o fuel fd buf ret i s)).
Proof.
  induction fuel as [|fuel IH]; intros i s; cbn [ea_loop].
  - apply views_kept_refl.
  - destruct (i <? ret); [|apply views_kept_refl].
    unfold bind, gets.
    pose proof (fetch_entry_views o fd buf i (Z.of_N (Byte.to_N (load s buf i))) s) as H.
    destruct (fetch_entry o fd buf i (Z.of_N (Byte.to_N (load s buf i))) s) as [u s1].
    apply (views_kept_trans s s1); [exact H | apply IH].
Qed.

Lemma get_extended_attributes_views (o : oracle) (fd : Z) (s : state) :
  views_kept s (snd (get_extended_attributes o fd s)).
Proof.
  unfold get_extended_attributes, warn, bind, mret.
  repeat views_step o fd; try views_chain.
  match goal with
  | |- context [ea_loop o ?f fd ?b ?r ?i ?st] =>
      pose proof (ea_loop_views o fd b r f i st);
      destruct (ea_loop o f fd b r i st) as [? ?]
  end.
  cbn [snd] in *. views_chain.
Qed.

(** Whenever the allocation of a name succeeds, the turn stores the NUL
    terminator at index [ch] of the [ch]-byte block it allocated. *)
Lemma fetch_entry_terminator (o : oracle) (fd : Z) (buf : ptr) (i ch : Z) (s : state) :
  malloc_null o (nmalloc s) = false ->
  0 <= ch ->
  In (Oob (List.length (heap s)) ch (Z.to_nat ch))
     (trace (snd (fetch_entry o fd buf i ch s))).
Proof.
  intros Hm Hch. unfold fetch_entry.
  unfold bind at 1.
  destruct (malloc_fresh_block o ch s Hm) as (s1 & E1 & Z1 & _).
  rewrite E1. clear E1.
  unfold bind at 1. unfold gets at 1. unfold bind at 1.
  pose proof (store_bytes_sizes (List.length (heap s))
                (strncpy_image (load_bytes s1 buf (i + 1) ch) ch) 0 s1) as Z2.
  destruct (store_bytes (List.length (heap s)) 0
              (strncpy_image (load_bytes s1 buf (i + 1) ch) ch) s1) as [u2 s2].
  cbn [snd] in Z2. rewrite <- Z2 in Z1.
  unfold bind at 1.
  rewrite (store_past_end _ ch x00 (Z.to_nat ch) s2 Z1) by lia.
  set (s3 := set_trace _ (set_room _ s2)).
  assert (H3 : In (Oob (List.length (heap s)) ch (Z.to_nat ch)) (trace s3)).
  { subst s3. cbn. apply in_or_app. right. now left. }
  clearbody s3.
  apply (grows_In _ s3); [|exact H3].
  unfold warn, bind, gets, modify, mret.
  repeat grow_step o fd; grow_chain.
Qed.

(** C10.  Reading the object of scenario A: the buffer allocated for the
    name "DosStream.rsrc" (14 bytes long) has 14 bytes, and the NUL
    terminator is stored at index 14, outside it. *)
Theorem name_terminator_out_of_bounds :
  let s := snd (get_extended_attributes quiet 3 (initial scenario_A)) in
  map (fun x => (cstr s (name x), List.length (block_bytes s (name x)))) (xlist s)
  = [("DosStream.rsrc", 14%nat)] /\
  filter is_oob (trace s) = [Oob 1%nat 14 14%nat].
Proof. cbv zeta. split; vm_compute; reflexivity. Qed.

(** ** Classification: get_afp_list (C4) *)

Lemma AFP_EA_CORRUPTED_iff (s : state) (v : ptr) :
  AFP_EA_CORRUPTED s v = true <-> firstn 3 (block_bytes s v) = [x00; x46; x50].
Proof.
  unfold AFP_EA_CORRUPTED, load. change (Z.to_nat 0) with 0%nat.
  change (Z.to_nat 1) with 1%nat. change (Z.to_nat 2) with 2%nat.
  destruct (block_bytes s v) as [|a [|b [|c l]]]; cbn.
  - split; discriminate.
  - rewrite andb_false_r. split; discriminate.
  - rewrite andb_false_r. split; discriminate.
  - rewrite !andb_true_iff. split.
    + intros [[Ha Hb] Hc].
      apply Byte.byte_dec_bl in Ha, Hb, Hc. congruence.
    + intros H. injection H as -> -> ->. auto.
Qed.

Lemma get_afp_loop_spec (xs : list xattr) :
  forall (i : nat) (s : state),
    exists sel,
      get_afp_loop i xs s = (tt, set_afp_list (afp_list s ++ sel) s) /\
      forall j, In j sel <->
                (i <= j)%nat /\
                exists x, nth_error xs (j - i) = Some x /\ corrupted s x.
Proof.
  induction xs as [|x rest IH]; intros i s.
  - exists []. split.
    + cbn. unfold mret. destruct s; cbn. now rewrite app_nil_r.
    + intros j. split; [intros []|].
      intros [_ [x [H _]]]. destruct (j - i)%nat; discriminate.
  - cbn [get_afp_loop]. unfold bind, gets, modify, mret.
    destruct ((3 <=? length x) && AFP_EA_CORRUPTED s (value x)) eqn:Hc.
    + destruct (IH (S i) (set_afp_list (afp_list s ++ [i]) s)) as [sel [E Hsel]].
      rewrite E. exists (i :: sel). split.
      * destruct s; cbn. now rewrite <- app_assoc.
      * intros j. cbn [In]. rewrite Hsel. split.
        -- intros [<- | [Hle [y [Hy Hcy]]]].
           ++ split; [lia|]. exists x. rewrite Nat.sub_diag. split; [reflexivity|].
              apply andb_true_iff in Hc. destruct Hc as [H3 Hm].
              split; [lia | now apply AFP_EA_CORRUPTED_iff].
           ++ split; [lia|]. exists y. split; [|exact Hcy].
              replace (j - i)%nat with (S (j - S i)) by lia. exact Hy.
        -- intros [Hle [y [Hy Hcy]]].
           destruct (Nat.eq_dec i j) as [->|Hne]; [now left|right].
           split; [lia|]. exists y. split; [|exact Hcy].
           replace (j - i)%nat with (S (j - S i)) in Hy by lia. exact Hy.
    + destruct (IH (S i) s) as [sel [E Hsel]].
      rewrite E. exists sel. split; [reflexivity|].
      intros j. rewrite Hsel. split.
      * intros [Hle [y [Hy Hcy]]]. split; [lia|]. exists y. split; [|exact Hcy].
        replace (j - i)%nat with (S (j - S i)) by lia. exact Hy.
      * intros [Hle [y [Hy Hcy]]].
        destruct (Nat.eq_dec i j) as [->|Hne].
        -- rewrite Nat.sub_diag in Hy. cbn in Hy. injection Hy as <-.
           destruct Hcy as [H3 Hm]. apply AFP_EA_CORRUPTED_iff in Hm.
           rewrite Hm, andb_true_r in Hc. apply Z.leb_gt in Hc. lia.
        -- split; [lia|]. exists y. split; [|exact Hcy].
           replace (j - i)%nat with (S (j - S i)) in Hy by lia. exact Hy.
Qed.

(** [get_afp_list] adds to the corruption selection the positions of the
    corrupted records and changes nothing else. *)
Lemma get_afp_list_spec (s : state) :
  exists sel,
    get_afp_list s = (0, set_afp_list (afp_list s ++ sel) s) /\
    (forall j, In j sel <-> exists x, nth_error (xlist s) j = Some x /\ corrupted s x) /\
    xlist (snd (get_afp_list s)) = xlist s /\
    heap (snd (get_afp_list s)) = heap s /\
    storage (snd (get_afp_list s)) = storage s /\
    trace (snd (get_afp_list s)) = trace s.
Proof.
  destruct (get_afp_loop_spec (xlist s) 0 s) as [sel [E Hsel]].
  assert (R : get_afp_list s = (0, set_afp_list (afp_list s ++ sel) s)).
  { unfold get_afp_list, bind, gets, mret. now rewrite E. }
  exists sel. rewrite R. cbn. repeat split; try reflexivity.
  - intros Hj. apply Hsel in Hj. destruct Hj as [_ [x Hx]].
    rewrite Nat.sub_0_r in Hx. now exists x.
  - intros [x Hx]. apply Hsel. split; [lia|]. exists x. now rewrite Nat.sub_0_r.
Qed.

(** C4.  [get_afp_list] returns 0 and changes nothing but the corruption
    selection, to which it adds exactly the positions of the records of
    [xlist] that are at least three bytes long and whose value starts with
    00 'F' 'P'; the records, the heap, the primary list and the stored
    attributes are as before. *)
Theorem get_afp_list_classifies (s : state) :
  exists sel,
    get_afp_list s = (0, set_afp_list (afp_list s ++ sel) s) /\
    (forall j, In j sel <-> exists x, nth_error (xlist s) j = Some x /\ corrupted s x) /\
    xlist (snd (get_afp_list s)) = xlist s /\
    heap (snd (get_afp_list s)) = heap s /\
    storage (snd (get_afp_list s)) = storage s /\
    trace (snd (get_afp_list s)) = trace s.
Proof. exact (get_afp_list_spec s). Qed.

Lemma get_afp_list_grows (s : state) : grows s (snd (get_afp_list s)).
Proof.
  apply grows_same_trace.
  destruct (get_afp_list_spec s) as (_ & _ & _ & _ & _ & _ & T). exact T.
Qed.

(** ** Repair: fix_afp_list (C5) *)

(** Without fix mode, or in a dry run, a turn of [fix_afp_list] only prints. *)
Lemma fix_afp_turn_readonly (o : oracle) (fd : Z) (path : string) (flags : Z)
      (x : xattr) (ret setret : Z) (s : state) :
  has flags F_FIX_AFP_EA = false \/ has flags F_DRY_RUN = true ->
  exists t,
    snd (fix_afp_turn o fd path flags x ret setret s) = set_trace (trace s ++ t) s /\
    set_calls t = [].
Proof.
  intros Hmode. unfold fix_afp_turn.
  after_debug_dump flags path s x t1 S1 R1.
  unfold bind, gets, emit, modify, mret.
  destruct (has flags F_CHECK_AFP_EA), (has flags F_VERBOSE),
    (has flags F_FIX_AFP_EA) eqn:Hfix, (has flags F_DRY_RUN) eqn:Hdry;
    try (destruct Hmode; discriminate);
    cbn [negb orb]; rewrite ?orb_true_r;
    try destruct (0 <? setret);
    cbn [orb snd]; rewrite ?set_trace_app;
    eexists; (split; [reflexivity|]);
    rewrite ?set_calls_app, ?S1; reflexivity.
Qed.

Lemma fix_afp_loop_readonly (o : oracle) (fd : Z) (path : string) (flags : Z) :
  has flags F_FIX_AFP_EA = false \/ has flags F_DRY_RUN = true ->
  forall (view : list nat) (ret setret : Z) (s : state),
    exists t,
      snd (fix_afp_loop o fd path flags view ret setret s)
      = set_trace (trace s ++ t) s /\
      set_calls t = [].
Proof.
  intros Hmode. induction view as [|idx rest IH]; intros ret setret s.
  - exists []. cbn. now rewrite set_trace_nil.
  - cbn [fix_afp_loop]. unfold bind at 1. unfold gets at 1.
    destruct (nth_error (xlist s) idx) as [x|]; [|apply IH].
    unfold bind.
    destruct (fix_afp_turn_readonly o fd path flags x ret setret s Hmode)
      as [t1 [E1 S1]].
    destruct (fix_afp_turn o fd path flags x ret setret s) as [[ret' setret'] s1].
    cbn [snd] in E1. subst s1.
    destruct (IH ret' setret' (set_trace (trace s ++ t1) s)) as [t2 [E2 S2]].
    exists (t1 ++ t2). rewrite E2, set_trace_app. split; [reflexivity|].
    now rewrite set_calls_app, S1, S2.
Qed.

(** In check mode without fix mode a turn sets the corrupted bit and, when
    verbose, prints one line. *)
Lemma fix_afp_turn_check (o : oracle) (fd : Z) (path : string) (flags : Z)
      (x : xattr) (ret setret : Z) (s : state) :
  has flags F_CHECK_AFP_EA = true ->
  has flags F_FIX_AFP_EA = false ->
  exists t,
    fix_afp_turn o fd path flags x ret setret s
    = ((Z.lor ret EX_EA_CORRUPTED, setret), set_trace (trace s ++ t) s) /\
    set_calls t = [] /\
    List.length (corrupted_reports t) = if has flags F_VERBOSE then 1%nat else 0%nat.
Proof.
  intros Hchk Hfix. unfold fix_afp_turn.
  after_debug_dump flags path s x t1 S1 R1.
  rewrite Hchk, Hfix. unfold bind, gets, emit, modify, mret.
  destruct (has flags F_VERBOSE); rewrite ?set_trace_app;
    eexists; (split; [reflexivity|]);
    rewrite ?set_calls_app, ?corrupted_reports_app, ?S1, ?R1; split; reflexivity.
Qed.

Lemma fix_afp_loop_check (o : oracle) (fd : Z) (path : string) (flags : Z) :
  has flags F_CHECK_AFP_EA = true ->
  has flags F_FIX_AFP_EA = false ->
  forall (view : list nat) (ret setret : Z) (s : state),
    view_ok s view ->
    exists t,
      fix_afp_loop o fd path flags view ret setret s
      = (match view with [] => ret | _ => Z.lor ret EX_EA_CORRUPTED end,
         set_trace (trace s ++ t) s) /\
      set_calls t = [] /\
      List.length (corrupted_reports t)
      = if has flags F_VERBOSE then List.length view else 0%nat.
Proof.
  intros Hchk Hfix. induction view as [|idx rest IH]; intros ret setret s Hok.
  - exists []. cbn. unfold mret. rewrite set_trace_nil.
    now destruct (has flags F_VERBOSE).
  - inversion Hok as [|? ? Hidx Hrest]; subst.
    cbn [fix_afp_loop]. unfold bind at 1. unfold gets at 1.
    destruct (nth_error (xlist s) idx) as [x|] eqn:Hx;
      [|apply nth_error_None in Hx; lia].
    unfold bind.
    destruct (fix_afp_turn_check o fd path flags x ret setret s Hchk Hfix)
      as [t1 [E1 [S1 R1]]].
    rewrite E1.
    destruct (IH (Z.lor ret EX_EA_CORRUPTED) setret (set_trace (trace s ++ t1) s))
      as [t2 [E2 [S2 R2]]]; [exact Hrest|].
    exists (t1 ++ t2). rewrite E2, set_trace_app. repeat split.
    + destruct rest; [reflexivity|].
      now rewrite <- Z.lor_assoc, Z.lor_diag.
    + now rewrite set_calls_app, S1, S2.
    + rewrite corrupted_reports_app, length_app, R1, R2.
      now destruct (has flags F_VERBOSE).
Qed.

(** A writing turn of [fix_afp_list]: one call of [extattr_set_fd], and a
    failure of that call adds the bit [EX_EA_CORRUPTED] to [ret]. *)
Lemma fix_afp_turn_writes (o : oracle) (fd : Z) (path : string) (flags : Z)
      (x : xattr) (ret setret : Z) (s : state) :
  has flags F_FIX_AFP_EA = true ->
  has flags F_DRY_RUN = false ->
  exists ret' setret' s',
    fix_afp_turn o fd path flags x ret setret s = ((ret', setret'), s') /\
    advanced 0 1 s s' /\
    (ret' = ret \/ ret' = Z.lor ret EX_EA_CORRUPTED) /\
    (set_err o (nset s) = true -> ret' = Z.lor ret EX_EA_CORRUPTED).
Proof.
  intros Hfix Hdry. unfold fix_afp_turn.
  after_debug_dump flags path s x t1 S1 R1.
  rewrite Hfix, Hdry. cbn [negb].
  pose proof (advanced_printing s t1 S1) as A1.
  set (s1 := set_trace (trace s ++ t1) s) in *.
  assert (N1 : nset s1 = nset s) by reflexivity.
  clearbody s1.
  unfold warn, bind, gets, emit, modify, mret.
  destruct (has flags F_CHECK_AFP_EA), (has flags F_VERBOSE);
    (match goal with
     | |- context [store ?p ?i ?b ?st] =>
         pose proof (store_advanced p i b st) as A2;
         destruct (store p i b st) as [u2 s2]; cbn [snd] in A2
     end;
     match goal with
     | |- context [extattr_set_fd o fd ?nm ?p ?n ?st] =>
         destruct (extattr_set_fd_advanced o fd nm p n st) as [A3 F3];
         destruct (extattr_set_fd o fd nm p n st) as [r3 s3]; cbn [fst snd] in A3, F3
     end;
     assert (N2 : nset s2 = nset s)
       by (unfold advanced in *; cbn in *; lia);
     rewrite N2 in F3;
     destruct (set_err o (nset s)); subst r3;
     [ rewrite to_int_m1; cbn [Z.ltb Z.compare orb]
     | destruct (to_int (length x) <? 0), (0 <? to_int (length x)); cbn [orb] ];
     do 3 eexists; (split; [reflexivity|]);
     rewrite ?lor_ok, ?lor_corrupted_idem;
     (split; [unfold advanced, set_calls in *; cbn in *;
              rewrite ?filter_app, ?length_app in *; cbn in *; repeat split; lia|]);
     (split; [auto | intros; auto; try discriminate])).
Qed.

Lemma fix_afp_loop_writes (o : oracle) (fd : Z) (path : string) (flags : Z) :
  has flags F_FIX_AFP_EA = true ->
  has flags F_DRY_RUN = false ->
  forall (view : list nat) (ret setret : Z) (s : state),
    view_ok s view ->
    exists r s',
      fix_afp_loop o fd path flags view ret setret s = (r, s') /\
      advanced 0 (List.length view) s s' /\
      (r = ret \/ r = Z.lor ret EX_EA_CORRUPTED) /\
      ((exists k, (k < List.length view)%nat /\ set_err o (nset s + k) = true) ->
       r = Z.lor ret EX_EA_CORRUPTED).
Proof.
  intros Hfix Hdry. induction view as [|idx rest IH]; intros ret setret s Hok.
  - exists ret, s. split; [reflexivity|]. split; [apply advanced_refl|].
    split; [now left|]. intros [k [Hk _]]. cbn in Hk. lia.
  - inversion Hok as [|? ? Hidx Hrest]; subst.
    cbn [fix_afp_loop]. unfold bind at 1. unfold gets at 1.
    destruct (nth_error (xlist s) idx) as [x|] eqn:Hx;
      [|apply nth_error_None in Hx; lia].
    unfold bind.
    destruct (fix_afp_turn_writes o fd path flags x ret setret s Hfix Hdry)
      as (ret' & setret' & s1 & E1 & A1 & V1 & F1).
    rewrite E1.
    destruct (IH ret' setret' s1 (view_ok_advanced _ _ _ _ _ A1 Hrest))
      as (r & s' & E2 & A2 & V2 & F2).
    exists r, s'. split; [exact E2|]. split; [|split].
    + apply (advanced_trans 0 1 0 (List.length rest) s s1 s' A1 A2).
    + destruct V1 as [-> | ->], V2 as [-> | ->]; rewrite ?lor_corrupted_idem; auto.
    + intros [k [Hk Hfail]]. destruct k as [|k].
      * rewrite Nat.add_0_r in Hfail. rewrite (F1 Hfail) in V2.
        rewrite lor_corrupted_idem in V2. now destruct V2.
      * assert (Hr : r = Z.lor ret' EX_EA_CORRUPTED).
        { apply F2. exists k. split; [cbn in Hk; lia|].
          destruct A1 as (_ & _ & N1 & _). rewrite N1.
          now replace (nset s + 1 + k)%nat with (nset s + S k)%nat by lia. }
        rewrite Hr. destruct V1 as [-> | ->]; now rewrite ?lor_corrupted_idem.
Qed.

Lemma fix_afp_turn_grows (o : oracle) (fd : Z) (path : string) (flags : Z)
      (x : xattr) (ret setret : Z) (s : state) :
  grows s (snd (fix_afp_turn o fd path flags x ret setret s)).
Proof.
  unfold fix_afp_turn, warn, bind, gets, mret.
  repeat grow_step o fd; grow_chain.
Qed.

Lemma fix_afp_loop_grows (o : oracle) (fd : Z) (path : string) (flags : Z)
      (view : list nat) :
  forall (ret setret : Z) (s : state),
    grows s (snd (fix_afp_loop o fd path flags view ret setret s)).
Proof.
  induction view as [|idx rest IH]; intros ret setret s; cbn [fix_afp_loop].
  - apply grows_refl.
  - unfold bind at 1. unfold gets at 1.
    destruct (nth_error (xlist s) idx) as [x|]; [|apply IH].
    unfold bind.
    pose proof (fix_afp_turn_grows o fd path flags x ret setret s) as H.
    destruct (fix_afp_turn o fd path flags x ret setret s) as [[ret' setret'] s1].
    apply (grows_trans s s1); [exact H | apply IH].
Qed.

(** ** Append: get_append_list and fix_append_list (C1, C3, C5) *)

Lemma get_append_loop_grows (attr : option string) (xs : list xattr) :
  forall (i : nat) (s : state), grows s (snd (get_append_loop attr i xs s)).
Proof.
  induction xs as [|x rest IH]; intros i s; cbn [get_append_loop].
  - apply grows_refl.
  - destruct attr as [a|]; unfold bind, gets, modify.
    + destruct (String.eqb (cstr s (name x)) a); [now apply grows_same_trace | apply IH].
    + eapply grows_trans; [|apply IH]. now apply grows_same_trace.
Qed.

Lemma get_append_list_grows (attr : option string) (s : state) :
  grows s (snd (get_append_list attr s)).
Proof.
  unfold get_append_list, bind, gets, mret.
  pose proof (get_append_loop_grows attr (xlist s) 0 s) as H.
  now destruct (get_append_loop attr 0 (xlist s) s).
Qed.

(** In a dry run a turn of [fix_append_list] only prints and never leaves
    the loop. *)
Lemma fix_append_turn_dry_run (o : oracle) (fd : Z) (path : string) (flags : Z)
      (idx : nat) (x : xattr) (ret setret : Z) (s : state) :
  has flags F_DRY_RUN = true ->
  exists t r,
    fix_append_turn o fd path flags idx x ret setret s
    = (inr r, set_trace (trace s ++ t) s) /\
    set_calls t = [].
Proof.
  intros Hdry. unfold fix_append_turn.
  after_debug_dump flags path s x t1 S1 R1.
  rewrite Hdry. cbn [negb].
  unfold bind, gets, emit, modify, mret.
  destruct (has flags F_APPEND_NULL), (has flags F_VERBOSE);
    rewrite ?orb_true_r, ?set_trace_app;
    eexists; eexists; (split; [reflexivity|]);
    rewrite ?set_calls_app, ?S1; reflexivity.
Qed.

Lemma fix_append_loop_dry_run (o : oracle) (fd : Z) (path : string) (flags : Z) :
  has flags F_DRY_RUN = true ->
  forall (view : list nat) (ret setret : Z) (s : state),
    exists t,
      snd (fix_append_loop o fd path flags view ret setret s)
      = set_trace (trace s ++ t) s /\
      set_calls t = [].
Proof.
  intros Hdry. induction view as [|idx rest IH]; intros ret setret s.
  - exists []. cbn. now rewrite set_trace_nil.
  - cbn [fix_append_loop]. unfold bind at 1. unfold gets at 1.
    destruct (nth_error (xlist s) idx) as [x|]; [|apply IH].
    unfold bind.
    destruct (fix_append_turn_dry_run o fd path flags idx x ret setret s Hdry)
      as [t1 [[ret' setret'] [E1 S1]]].
    rewrite E1.
    destruct (IH ret' setret' (set_trace (trace s ++ t1) s)) as [t2 [E2 S2]].
    exists (t1 ++ t2). rewrite E2, set_trace_app. split; [reflexivity|].
    now rewrite set_calls_app, S1, S2.
Qed.

(** A writing turn of [fix_append_list] whose [malloc] succeeds: one call of
    [extattr_set_fd], the loop goes on, and a failure of the call adds the
    bit [EX_EA_CORRUPTED] to [ret]. *)
Lemma fix_append_turn_writes (o : oracle) (fd : Z) (path : string) (flags : Z)
      (idx : nat) (x : xattr) (ret setret : Z) (s : state) :
  has flags F_APPEND_NULL = true ->
  has flags F_DRY_RUN = false ->
  malloc_null o (nmalloc s) = false ->
  exists ret' setret' s',
    fix_append_turn o fd path flags idx x ret setret s = (inr (ret', setret'), s') /\
    advanced 1 1 s s' /\
    (ret' = ret \/ ret' = Z.lor ret EX_EA_CORRUPTED) /\
    (set_err o (nset s) = true -> ret' = Z.lor ret EX_EA_CORRUPTED).
Proof.
  intros Happ Hdry Hmem. unfold fix_append_turn.
  after_debug_dump flags path s x t1 S1 R1.
  rewrite Happ, Hdry. cbn [negb].
  pose proof (advanced_printing s t1 S1) as A1.
  set (s1 := set_trace (trace s ++ t1) s) in *.
  assert (M1 : malloc_null o (nmalloc s1) = false) by exact Hmem.
  clearbody s1.
  unfold bind at 1. unfold bind at 1.
  destruct (malloc_advanced o (to_size_t (to_int (length x + 1))) s1 M1)
    as (buf & s2 & E2 & A2).
  rewrite E2. clear E2.
  unfold warn, bind, gets, emit, modify, mret.
  match goal with
  | |- context [store_bytes ?p ?i ?bs ?st] =>
      pose proof (store_bytes_advanced p bs i st) as A3;
      destruct (store_bytes p i bs st) as [u3 s3]; cbn [snd] in A3
  end.
  match goal with
  | |- context [store ?p ?i ?b ?st] =>
      pose proof (store_advanced p i b st) as A4;
      destruct (store p i b st) as [u4 s4]; cbn [snd] in A4
  end.
  match goal with
  | |- context [free ?p ?st] =>
      pose proof (free_advanced p st) as A5;
      destruct (free p st) as [u5 s5]; cbn [snd] in A5
  end.
  match goal with
  | |- context [extattr_set_fd o fd ?nm ?p ?n ?st] =>
      destruct (extattr_set_fd_advanced o fd nm p n st) as [A6 F6];
      destruct (extattr_set_fd o fd nm p n st) as [r6 s6]; cbn [fst snd] in A6, F6
  end.
  assert (N5 : nset s5 = nset s)
    by (unfold advanced in *; cbn in *; lia).
  cbn [nset set_xlist] in F6. rewrite N5 in F6.
  destruct (set_err o (nset s)); subst r6;
    [ rewrite to_int_m1; cbn [Z.ltb Z.compare orb]
    | destruct (to_int (to_size_t (to_int (length x + 1))) <? 0),
               (0 <? to_int (to_size_t (to_int (length x + 1)))); cbn [orb] ];
    destruct (has flags F_VERBOSE);
    do 3 eexists; (split; [reflexivity|]);
    rewrite ?lor_ok, ?lor_corrupted_idem;
    (split; [unfold advanced, set_calls in *; cbn in *;
             rewrite ?filter_app, ?length_app, ?upd_length in *; cbn in *;
             repeat split; lia|]);
    (split; [auto | intros; auto; try discriminate]).
Qed.


Lemma fix_append_turn_grows (o : oracle) (fd : Z) (path : string) (flags : Z)
      (idx : nat) (x : xattr) (ret setret : Z) (s : state) :
  grows s (snd (fix_append_turn o fd path flags idx x ret setret s)).
Proof.
  unfold fix_append_turn, warn, bind, gets, modify, mret.
  repeat grow_step o fd; grow_chain.
Qed.

Lemma fix_append_loop_grows (o : oracle) (fd : Z) (path : string) (flags : Z)
      (view : list nat) :
  forall (ret setret : Z) (s : state),
    grows s (snd (fix_append_loop o fd path flags view ret setret s)).
Proof.
  induction view as [|idx rest IH]; intros ret setret s; cbn [fix_append_loop].
  - apply grows_refl.
  - unfold bind at 1. unfold gets at 1.
    destruct (nth_error (xlist s) idx) as [x|]; [|apply IH].
    unfold bind.
    pose proof (fix_append_turn_grows o fd path flags idx x ret setret s) as H.
    destruct (fix_append_turn o fd path flags idx x ret setret s)
      as [[e | [ret' setret']] s1]; cbn [snd] in H.
    + exact H.
    + apply (grows_trans s s1); [exact H | apply IH].
Qed.

Lemma ready_two_attributes (o : oracle) :
  o = quiet \/ o = first_set_fails ->
  view_ok (ready o two_attributes) (afp_list (ready o two_attributes)) /\
  view_ok (ready o two_attributes) (append_list (ready o two_attributes)) /\
  List.length (afp_list (ready o two_attributes)) = 2%nat /\
  List.length (append_list (ready o two_attributes)) = 2%nat.
Proof.
  intros [-> | ->]; unfold view_ok; vm_compute; repeat constructor.
Qed.

(** C5.  With the dry-run flag set, whatever the other flags are, neither
    [fix_afp_list] nor [fix_append_list] calls [extattr_set_fd], and the
    stored attributes, the records and every byte of their buffers are the
    same after the call as before. *)
Theorem dry_run_never_writes (o : oracle) (fd : Z) (path : string) (flags : Z)
        (s : state) :
  has flags F_DRY_RUN = true ->
  untouched s (snd (fix_afp_list o fd path flags s)) /\
  untouched s (snd (fix_append_list o fd path flags s)).
Proof.
  intros Hdry. split.
  - destruct (fix_afp_loop_readonly o fd path flags (or_intror Hdry)
                (afp_list s) 0 0 s) as [t [E St]].
    now apply printing_untouched with t.
  - destruct (fix_append_loop_dry_run o fd path flags Hdry
                (append_list s) 0 0 s) as [t [E St]].
    now apply printing_untouched with t.
Qed.

Lemma dry_run_never_writes_witness :
  untouched (ready quiet two_attributes)
            (snd (fix_afp_list quiet 3 "/f" 0x7f (ready quiet two_attributes))) /\
  untouched (ready quiet two_attributes)
            (snd (fix_append_list quiet 3 "/f" 0x7f (ready quiet two_attributes))).
Proof.
  apply (dry_run_never_writes quiet 3 "/f" 0x7f (ready quiet two_attributes)).
  vm_compute. reflexivity.
Defined.

(** Whenever a writing turn of [fix_append_list] gets its buffer, it stores
    the NUL terminator at index [length + 1] of the block of [length + 1]
    bytes it allocated, [length] being the length of the record before. *)
Lemma fix_append_turn_terminator (o : oracle) (fd : Z) (path : string) (flags : Z)
      (idx : nat) (x : xattr) (ret setret : Z) (s : state) :
  has flags F_APPEND_NULL = true ->
  has flags F_DRY_RUN = false ->
  malloc_null o (nmalloc s) = false ->
  0 <= length x < 2 ^ 31 - 1 ->
  In (Oob (List.length (heap s)) (length x + 1) (Z.to_nat (length x + 1)))
     (trace (snd (fix_append_turn o fd path flags idx x ret setret s))).
Proof.
  intros Happ Hdry Hm Hlen. unfold fix_append_turn.
  after_debug_dump flags path s x t1 S1 R1.
  rewrite Happ, Hdry. cbn [negb].
  rewrite to_int_small by lia. rewrite to_size_t_small by lia.
  set (s0 := set_trace (trace s ++ t1) s).
  assert (Hh : heap s0 = heap s) by reflexivity.
  assert (Hm0 : malloc_null o (nmalloc s0) = false) by exact Hm.
  clearbody s0. rewrite <- Hh.
  unfold bind at 1. unfold bind at 1.
  destruct (malloc_fresh_block o (length x + 1) s0 Hm0) as (s1 & E1 & Z1 & _).
  rewrite E1. clear E1.
  unfold bind at 1. unfold gets at 1. unfold bind at 1.
  pose proof (store_bytes_sizes (List.length (heap s0))
                (load_bytes s1 (value x) 0 (length x)) 0 s1) as Z2.
  destruct (store_bytes (List.length (heap s0)) 0
              (load_bytes s1 (value x) 0 (length x)) s1) as [u2 s2].
  cbn [snd] in Z2. rewrite <- Z2 in Z1.
  unfold bind at 1.
  rewrite (store_past_end _ (length x + 1) x00 (Z.to_nat (length x + 1)) s2 Z1) by lia.
  set (s3 := set_trace _ (set_room _ s2)).
  assert (H3 : In (Oob (List.length (heap s0)) (length x + 1) (Z.to_nat (length x + 1)))
                  (trace s3)).
  { subst s3. cbn. apply in_or_app. right. now left. }
  clearbody s3.
  unfold warn, bind, gets, modify, mret.
  repeat grow_step o fd;
    (eapply grows_In; [|exact H3]); grow_chain.
Qed.

(** C3.  The append pass on "DosStream.info" = "hello" (old length 5): the
    new buffer has 6 bytes, and the terminator is stored at index 6, outside
    it, instead of index 5. *)
Theorem append_terminator_out_of_bounds :
  let s := ready quiet scenario_D in
  let r := fix_append_list quiet 3 "/f" (Z.lor F_APPEND_NULL_ALL F_APPEND_NULL) s in
  map length (xlist s) = [5] /\
  xlist (snd r) = [mkXattr 1%nat 3%nat 6] /\
  List.length (block_bytes (snd r) 3%nat) = 6%nat /\
  filter is_oob (skipn (List.length (trace s)) (trace (snd r))) = [Oob 3%nat 6 6%nat].
Proof. cbv zeta. repeat split; vm_compute; reflexivity. Qed.

(** What a writing turn of [fix_append_list] passes to [extattr_set_fd]:
    the old value followed by the byte that [malloc] left at offset
    [length] of the new buffer.  The NUL went past the end of the buffer
    ([fix_append_turn_terminator]) and is not part of it. *)
Lemma fix_append_turn_stores (o : oracle) (fd : Z) (path : string) (flags : Z)
      (idx : nat) (x : xattr) (ret setret : Z) (s : state) :
  has flags F_APPEND_NULL = true ->
  has flags F_DRY_RUN = false ->
  malloc_null o (nmalloc s) = false ->
  0 <= length x < 2 ^ 31 - 1 ->
  (Z.to_nat (length x) <= List.length (block_bytes s (value x)))%nat ->
  exists nm r,
    In (SetCall nm
          (firstn (Z.to_nat (length x)) (block_bytes s (value x))
           ++ [junk o (nmalloc s) (Z.to_nat (length x))]) r)
       (trace (snd (fix_append_turn o fd path flags idx x ret setret s))).
Proof.
  intros Happ Hdry Hm Hlen Hval. unfold fix_append_turn.
  after_debug_dump flags path s x t1 S1 R1.
  rewrite Happ, Hdry. cbn [negb].
  rewrite to_int_small by lia. rewrite to_size_t_small by lia.
  set (old := firstn (Z.to_nat (length x)) (block_bytes s (value x))).
  assert (Hold : List.length old = Z.to_nat (length x))
    by (subst old; apply firstn_length_le; exact Hval).
  set (s0 := set_trace (trace s ++ t1) s).
  assert (Hb0 : forall q, block_bytes s0 q = block_bytes s q) by reflexivity.
  assert (Hh0 : heap s0 = heap s) by reflexivity.
  assert (Hk0 : nmalloc s0 = nmalloc s) by reflexivity.
  assert (Hm0 : malloc_null o (nmalloc s0) = false) by exact Hm.
  clearbody s0.
  unfold bind at 1. unfold bind at 1.
  destruct (malloc_fresh_bytes o (length x + 1) s0 Hm0) as (s1 & E1 & B1 & O1 & Z1).
  rewrite E1. clear E1. set (buf := List.length (heap s0)) in *.
  assert (Hsrc : load_bytes s1 (value x) 0 (length x) = old).
  { unfold load_bytes. change (Z.to_nat 0) with 0%nat. cbn [skipn]. subst old.
    destruct (Nat.lt_ge_cases (value x) buf) as [Hlt | Hge].
    - now rewrite O1, Hb0.
    - assert (Hnil : block_bytes s (value x) = []).
      { unfold block_bytes.
        replace (nth_error (heap s) (value x)) with (@None block); [reflexivity|].
        symmetry. apply nth_error_None. subst buf. rewrite <- Hh0. exact Hge. }
      rewrite Hnil in Hval. cbn in Hval.
      replace (Z.to_nat (length x)) with 0%nat by lia. reflexivity. }
  unfold bind at 1. unfold gets at 1. rewrite Hsrc. unfold bind at 1.
  pose proof (store_bytes_block_bytes buf old 0 s1) as B2.
  pose proof (store_bytes_sizes buf old 0 s1) as Z2.
  change (Z.of_nat 0) with 0 in B2.
  destruct (store_bytes buf 0 old s1) as [u2 s2]. cbn [snd] in B2, Z2.
  rewrite B1, length_map, length_seq in B2.
  specialize (B2 ltac:(cbn; lia)). cbn [firstn app Nat.add] in B2.
  rewrite Hold in B2.
  replace (Z.to_nat (length x + 1)) with (S (Z.to_nat (length x))) in B2 by lia.
  rewrite skipn_seq_last, Hk0 in B2.
  rewrite <- Z2 in Z1.
  unfold bind at 1.
  rewrite (store_past_end _ (length x + 1) x00 (Z.to_nat (length x + 1)) s2 Z1) by lia.
  set (s3 := set_trace _ (set_room _ s2)).
  assert (B3 : block_bytes s3 buf = block_bytes s2 buf) by reflexivity.
  clearbody s3.
  unfold bind at 1.
  pose proof (free_block_bytes (value x) buf s3) as B4.
  destruct (free (value x) s3) as [u4 s4]. cbn [snd] in B4.
  unfold bind at 1. unfold modify at 1.
  set (s5 := set_xlist _ s4).
  assert (B5 : block_bytes s5 buf = block_bytes s4 buf) by reflexivity.
  clearbody s5.
  unfold bind at 1. unfold gets at 1. unfold bind at 1.
  set (nm := cstr s5 (name x)).
  assert (Hdata : load_bytes s5 buf 0 (length x + 1)
                  = old ++ [junk o (nmalloc s) (Z.to_nat (length x))]).
  { unfold load_bytes. change (Z.to_nat 0) with 0%nat. cbn [skipn].
    rewrite B5, B4, B3, B2. apply firstn_all2.
    rewrite length_app, Hold. cbn. lia. }
  assert (H6 : exists r, In (SetCall nm (old ++ [junk o (nmalloc s) (Z.to_nat (length x))]) r)
                            (trace (snd (extattr_set_fd o fd nm buf (length x + 1) s5)))).
  { unfold extattr_set_fd. rewrite Hdata.
    destruct (set_err o (nset s5)); eexists; cbn; apply in_or_app; right; left;
      reflexivity. }
  destruct H6 as [r H6]. exists nm, r.
  destruct (extattr_set_fd o fd nm buf (length x + 1) s5) as [r6 s6].
  cbn [snd] in H6.
  unfold warn, bind, gets, modify, mret.
  repeat grow_step o fd;
    (eapply grows_In; [|exact H6]); grow_chain.
Qed.

(** C1.  Appending to "DosStream.info" = "hello" in an environment whose
    fresh memory holds 0xa5: the pass succeeds and the stored value has six
    bytes, but the sixth is the byte [malloc] left there, not NUL. *)
Theorem append_stores_indeterminate_byte :
  let r := do_ea_stuff_single quiet "/f" None (Z.lor F_APPEND_NULL_ALL F_APPEND_NULL)
                              (initial scenario_D) in
  fst r = EX_OK /\
  lookup "DosStream.info" (storage (snd r))
  = Some (list_byte_of_string "hello" ++ [xa5]) /\
  lookup "DosStream.info" (storage (snd r))
  <> Some (list_byte_of_string "hello" ++ [x00]).
Proof.
  cbv zeta. repeat split; try (vm_compute; reflexivity).
  intros H. vm_compute in H. discriminate H.
Qed.

(** ** One object: do_ea_stuff_single (C2, C6, C9) *)

Lemma free_loop_grows (xs : list xattr) :
  forall s : state, grows s (snd (free_loop xs s)).
Proof.
  induction xs as [|x rest IH]; intros s; cbn [free_loop].
  - apply grows_refl.
  - unfold bind, modify.
    repeat grow_step quiet 0.
    eapply grows_trans; [|apply IH].
    eapply grows_trans; [apply (grows_same_trace s (set_xlist rest s)); reflexivity|].
    grow_chain.
Qed.

Lemma do_ea_stuff_body_grows (o : oracle) (fd : Z) (path : string)
      (attr : option string) (flags : Z) (s : state) :
  grows s (snd (do_ea_stuff_body o fd path attr flags s)).
Proof.
  unfold do_ea_stuff_body, fix_afp_list, fix_append_list, warn, bind, gets, mret.
  destruct (fd <? 0); [apply emit_grows; reflexivity|].
  pose proof (get_extended_attributes_grows o fd s) as H1.
  destruct (get_extended_attributes o fd s) as [r s1]. cbn [snd] in H1.
  destruct (r <? 0); [exact H1|].
  destruct (has flags F_CHECK_AFP_EA || has flags F_FIX_AFP_EA).
  - pose proof (get_afp_list_grows s1) as H2.
    destruct (get_afp_list s1) as [u2 s2]. cbn [snd] in H2.
    pose proof (fix_afp_loop_grows o fd path flags (afp_list s2) 0 0 s2) as H3.
    destruct (fix_afp_loop o fd path flags (afp_list s2) 0 0 s2) as [r3 s3].
    cbn [snd] in H3.
    destruct (r3 <? 0); [grow_chain|].
    destruct (has flags F_APPEND_NULL_ALL || has flags F_APPEND_NULL); [|grow_chain].
    pose proof (get_append_list_grows attr s3) as H4.
    destruct (get_append_list attr s3) as [u4 s4]. cbn [snd] in H4.
    pose proof (fix_append_loop_grows o fd path flags (append_list s4) 0 0 s4) as H5.
    destruct (fix_append_loop o fd path flags (append_list s4) 0 0 s4) as [r5 s5].
    cbn [snd] in H5.
    destruct (r5 <? 0); grow_chain.
  - destruct (has flags F_APPEND_NULL_ALL || has flags F_APPEND_NULL); [|grow_chain].
    pose proof (get_append_list_grows attr s1) as H4.
    destruct (get_append_list attr s1) as [u4 s4]. cbn [snd] in H4.
    pose proof (fix_append_loop_grows o fd path flags (append_list s4) 0 0 s4) as H5.
    destruct (fix_append_loop o fd path flags (append_list s4) 0 0 s4) as [r5 s5].
    cbn [snd] in H5.
    destruct (r5 <? 0); grow_chain.
Qed.

(** The events [do_ea_stuff_single] adds to the trace hold exactly one
    [Close], of the descriptor [open] returned, when that descriptor is
    positive, and none otherwise: also none when [open] succeeded with
    descriptor 0. *)
Lemma do_ea_stuff_single_closes (o : oracle) (path : string) (attr : option string)
      (flags : Z) (s : state) :
  filter is_close (trace (snd (do_ea_stuff_single o path attr flags s)))
  = filter is_close (trace s)
    ++ (if 0 <? open_result o then [Close (open_result o)] else []).
Proof.
  unfold do_ea_stuff_single, unlink_afp_list, unlink_append_list,
    free_extended_attributes.
  unfold bind at 1. unfold modify at 1.
  set (s0 := set_append_list [] (set_afp_list [] (set_xlist [] s))).
  assert (T0 : trace s0 = trace s) by reflexivity.
  clearbody s0. unfold bind at 1.
  pose proof (do_ea_stuff_body_grows o (open_result o) path attr flags s0) as H1.
  destruct (do_ea_stuff_body o (open_result o) path attr flags s0) as [ret s1].
  cbn [snd] in H1. unfold bind, modify, gets, mret.
  set (s2 := set_append_list [] (set_afp_list [] s1)).
  assert (T2 : trace s2 = trace s1) by reflexivity.
  clearbody s2.
  pose proof (free_loop_grows (xlist s2) s2) as H3.
  destruct (free_loop (xlist s2) s2) as [u3 s3]. cbn [snd] in H3.
  destruct H1 as (t1 & E1 & C1), H3 as (t3 & E3 & C3).
  assert (E : trace s3 = trace s ++ (t1 ++ t3)).
  { rewrite E3, T2, E1, T0. now rewrite app_assoc. }
  destruct (0 <? open_result o); cbn [snd trace emit modify set_trace].
  - unfold emit, modify. cbn. rewrite E, !filter_app, C1, C3. cbn.
    now rewrite app_nil_r.
  - rewrite E, !filter_app, C1, C3. cbn. now rewrite !app_nil_r.
Qed.

(** The cleanup does not touch the value [ret] has at the label. *)
Lemma do_ea_stuff_single_result (o : oracle) (path : string) (attr : option string)
      (flags : Z) (s : state) :
  fst (do_ea_stuff_single o path attr flags s)
  = fst (do_ea_stuff_body o (open_result o) path attr flags
           (set_append_list [] (set_afp_list [] (set_xlist [] s)))).
Proof.
  unfold do_ea_stuff_single, bind, modify, mret.
  destruct (do_ea_stuff_body o (open_result o) path attr flags
              (set_append_list [] (set_afp_list [] (set_xlist [] s)))) as [ret s1].
  destruct (unlink_afp_list s1) as [u2 s2].
  destruct (unlink_append_list s2) as [u3 s3].
  destruct (free_extended_attributes s3) as [u4 s4].
  now destruct (0 <? open_result o); cbn; destruct (emit _ _) || idtac.
Qed.

(** With only the check requested, and the open and the read successful,
    the value at the label is the result of [fix_afp_list]:
    [EX_EA_CORRUPTED] when some record that was read is corrupted, 0
    otherwise. *)
Lemma do_ea_stuff_body_check_only (o : oracle) (fd : Z) (path : string)
      (attr : option string) (flags : Z) (s : state) :
  has flags F_CHECK_AFP_EA = true ->
  has flags F_FIX_AFP_EA = false ->
  has flags F_APPEND_NULL_ALL = false ->
  has flags F_APPEND_NULL = false ->
  0 <= fd ->
  afp_list s = [] ->
  0 <= fst (get_extended_attributes o fd s) ->
  let s1 := snd (get_extended_attributes o fd s) in
  let ret := fst (do_ea_stuff_body o fd path attr flags s) in
  (ret = EX_EA_CORRUPTED <-> exists x, In x (xlist s1) /\ corrupted s1 x) /\
  (ret = 0 <-> ~ exists x, In x (xlist s1) /\ corrupted s1 x).
Proof.
  intros Hchk Hfix Hall Happ Hfd Hempty Hread s1 ret. subst s1 ret.
  unfold do_ea_stuff_body, bind, mret.
  replace (fd <? 0) with false by (symmetry; apply Z.ltb_ge; exact Hfd).
  pose proof (get_extended_attributes_views o fd s) as [Hv _].
  destruct (get_extended_attributes o fd s) as [r s1]. cbn [fst snd] in *.
  replace (r <? 0) with false by (symmetry; apply Z.ltb_ge; exact Hread).
  rewrite Hchk, Hfix, Hall, Happ. cbn [orb].
  destruct (get_afp_list_spec s1) as (sel & E & Hsel & _).
  rewrite E. rewrite Hv, Hempty. cbn [app].
  set (s2 := set_afp_list sel s1).
  assert (Hok : view_ok s2 (afp_list s2)).
  { unfold view_ok. apply Forall_forall. intros j Hj.
    apply Hsel in Hj. destruct Hj as [x [Hx _]].
    apply nth_error_Some. cbn. congruence. }
  destruct (fix_afp_loop_check o fd path flags Hchk Hfix (afp_list s2) 0 0 s2 Hok)
    as [t [E2 _]].
  unfold fix_afp_list, bind, gets. rewrite E2. cbn [afp_list s2 set_afp_list].
  assert (Hex : sel <> [] <-> exists x, In x (xlist s1) /\ corrupted s1 x).
  { split.
    - intros Hne. destruct sel as [|j sel']; [congruence|].
      destruct (proj1 (Hsel j) (or_introl eq_refl)) as [x [Hx Hc]].
      exists x. split; [now apply nth_error_In with j | exact Hc].
    - intros [x [Hin Hc]] ->.
      apply In_nth_error in Hin. destruct Hin as [j Hj].
      apply (proj2 (Hsel j)). now exists x. }
  destruct sel as [|j sel']; cbn [fst].
  - split; split.
    + discriminate.
    + intros H. apply Hex in H. congruence.
    + intros _ H. apply Hex in H. congruence.
    + reflexivity.
  - split; split.
    + intros _. apply Hex. discriminate.
    + reflexivity.
    + discriminate.
    + intros H. exfalso. apply H, Hex. discriminate.
Qed.

(** With both passes requested and neither failing fatally, the value at
    the label is the result of [fix_append_list]; the result of
    [fix_afp_list] is not part of it. *)
Lemma do_ea_stuff_body_both_passes (o : oracle) (fd : Z) (path : string)
      (attr : option string) (flags : Z) (s : state) :
  has flags F_CHECK_AFP_EA || has flags F_FIX_AFP_EA = true ->
  has flags F_APPEND_NULL_ALL || has flags F_APPEND_NULL = true ->
  0 <= fd ->
  0 <= fst (get_extended_attributes o fd s) ->
  let s1 := snd (get_extended_attributes o fd s) in
  let repair := fix_afp_list o fd path flags (snd (get_afp_list s1)) in
  let append := fix_append_list o fd path flags (snd (get_append_list attr (snd repair))) in
  0 <= fst repair ->
  0 <= fst append ->
  fst (do_ea_stuff_body o fd path attr flags s) = fst append.
Proof.
  intros Hrep Happ Hfd Hread s1 repair append H3 H5. subst s1 repair append.
  unfold do_ea_stuff_body, bind, mret.
  replace (fd <? 0) with false by (symmetry; apply Z.ltb_ge; exact Hfd).
  destruct (get_extended_attributes o fd s) as [r s1]. cbn [fst snd] in *.
  replace (r <? 0) with false by (symmetry; apply Z.ltb_ge; exact Hread).
  rewrite Hrep, Happ.
  destruct (get_afp_list s1) as [u2 s2]. cbn [fst snd] in *.
  destruct (fix_afp_list o fd path flags s2) as [r3 s3]. cbn [fst snd] in *.
  replace (r3 <? 0) with false by (symmetry; apply Z.ltb_ge; exact H3).
  destruct (get_append_list attr s3) as [u4 s4]. cbn [fst snd] in *.
  destruct (fix_append_list o fd path flags s4) as [r5 s5]. cbn [fst snd] in *.
  now replace (r5 <? 0) with false by (symmetry; apply Z.ltb_ge; exact H5).
Qed.




(** C2.  A check and an append in one cycle on the object of scenario A:
    [fix_afp_list] returns [EX_EA_CORRUPTED], [fix_append_list] returns
    [EX_OK], their bitwise OR is 1, and [do_ea_stuff_single] returns 0, the
    result of the append alone. *)
Theorem append_result_replaces_check_result :
  let flags := Z.lor F_CHECK_AFP_EA (Z.lor F_APPEND_NULL_ALL F_APPEND_NULL) in
  let s1 := snd (get_extended_attributes quiet 3 (initial scenario_A)) in
  let s2 := snd (get_afp_list s1) in
  let repair := fix_afp_list quiet 3 "/f" flags s2 in
  let s3 := snd (get_append_list None (snd repair)) in
  let append := fix_append_list quiet 3 "/f" flags s3 in
  fst repair = EX_EA_CORRUPTED /\
  fst append = EX_OK /\
  Z.lor (fst repair) (fst append) = 1 /\
  fst (do_ea_stuff_single quiet "/f" None flags (initial scenario_A)) = 0.
Proof. cbv zeta. repeat split; vm_compute; reflexivity. Qed.

(** C9.  The events [do_ea_stuff_single] adds to the trace hold one
    [Close] when the descriptor [open] returned is positive and none
    otherwise.  So when [open] succeeds with descriptor 0 the function does
    its work (here: finds the corruption of scenario A) and returns without
    any [close]; with descriptor 3 it closes it once. *)
Theorem descriptor_zero_is_not_closed :
  (forall (o : oracle) (path : string) (attr : option string) (flags : Z) (s : state),
      filter is_close (trace (snd (do_ea_stuff_single o path attr flags s)))
      = filter is_close (trace s)
        ++ (if 0 <? open_result o then [Close (open_result o)] else [])) /\
  (let r0 := do_ea_stuff_single stdin_closed "/f" None F_CHECK_AFP_EA (initial scenario_A) in
   let r3 := do_ea_stuff_single quiet "/f" None F_CHECK_AFP_EA (initial scenario_A) in
   (open_result stdin_closed <? 0) = false /\
   fst r0 = EX_EA_CORRUPTED /\
   filter is_close (trace (snd r0)) = [] /\
   filter is_close (trace (snd r3)) = [Close 3]).
Proof.
  split; [exact do_ea_stuff_single_closes|].
  cbv zeta. repeat split; vm_compute; reflexivity.
Qed.

(** ** The selections in full: get_afp_list and get_append_list *)

Lemma set_afp_list_app_nil (s : state) : set_afp_list (afp_list s ++ []) s = s.
Proof. destruct s; cbn. now rewrite app_nil_r. Qed.

Lemma set_append_list_app_nil (s : state) : set_append_list (append_list s ++ []) s = s.
Proof. destruct s; cbn. now rewrite app_nil_r. Qed.

Lemma get_afp_loop_filter (xs : list xattr) :
  forall (i : nat) (s : state),
    get_afp_loop i xs s
    = (tt, set_afp_list
             (afp_list s
              ++ map fst (filter (fun e => selects s (snd e))
                                 (combine (seq i (List.length xs)) xs))) s).
Proof.
  induction xs as [|x rest IH]; intros i s.
  - cbn. unfold mret. now rewrite set_afp_list_app_nil.
  - cbn [get_afp_loop List.length seq combine filter snd]. unfold bind, gets, modify, mret.
    change ((3 <=? length x) && AFP_EA_CORRUPTED s (value x)) with (selects s x).
    destruct (selects s x); rewrite IH.
    + cbn [map fst]. f_equal. destruct s; cbn. now rewrite <- app_assoc.
    + reflexivity.
Qed.

Lemma filter_combine_seq_sorted {A} (f : nat * A -> bool) (xs : list A) :
  forall i : nat,
    StronglySorted Nat.lt (map fst (filter f (combine (seq i (List.length xs)) xs))) /\
    Forall (fun j => (i <= j < i + List.length xs)%nat)
           (map fst (filter f (combine (seq i (List.length xs)) xs))).
Proof.
  induction xs as [|x rest IH]; intros i.
  - cbn. split; constructor.
  - cbn [List.length seq combine filter].
    destruct (IH (S i)) as [Hs Hr].
    assert (Hr' : Forall (fun j => (i <= j < i + S (List.length rest))%nat)
                         (map fst (filter f (combine (seq (S i) (List.length rest)) rest)))).
    { eapply Forall_impl; [|exact Hr]. cbn. intros j Hj. lia. }
    destruct (f (i, x)); [|now split].
    cbn [map fst]. split.
    + constructor; [exact Hs|].
      eapply Forall_impl; [|exact Hr]. cbn. intros j Hj. unfold Nat.lt. lia.
    + constructor; [lia | exact Hr'].
Qed.

(** X1.  [get_afp_list] appends the positions it selects in increasing
    order, each at most once and each a position of [xlist], so that the
    repair pass meets every corrupted record once and in list order. *)
Theorem get_afp_list_in_order (s : state) :
  exists sel,
    get_afp_list s = (0, set_afp_list (afp_list s ++ sel) s) /\
    StronglySorted Nat.lt sel /\
    NoDup sel /\
    view_ok s sel.
Proof.
  exists (map fst (filter (fun e => selects s (snd e))
                          (combine (seq 0 (List.length (xlist s))) (xlist s)))).
  destruct (filter_combine_seq_sorted (fun e => selects s (snd e)) (xlist s) 0)
    as [Hs Hr].
  split; [|split; [exact Hs|split]].
  - unfold get_afp_list, bind, gets, mret. now rewrite get_afp_loop_filter.
  - clear Hr. induction Hs as [|j l Hs IH Hj]; constructor; [|exact IH].
    intros Hin. rewrite Forall_forall in Hj. specialize (Hj j Hin).
    unfold Nat.lt in Hj. lia.
  - unfold view_ok. eapply Forall_impl; [|exact Hr]. cbn. intros j Hj. lia.
Qed.

Lemma get_append_loop_all (xs : list xattr) :
  forall (i : nat) (s : state),
    get_append_loop None i xs s
    = (tt, set_append_list (append_list s ++ seq i (List.length xs)) s).
Proof.
  induction xs as [|x rest IH]; intros i s.
  - cbn. unfold mret. now rewrite set_append_list_app_nil.
  - cbn [get_append_loop List.length seq]. unfold bind, modify.
    rewrite IH. f_equal. destruct s; cbn. now rewrite <- app_assoc.
Qed.

(** X2.  Without a name ([attr] is NULL) [get_append_list] returns 0 and
    appends every position of [xlist] to the append selection, once and in
    list order; nothing else changes. *)
Theorem get_append_list_all (s : state) :
  get_append_list None s
  = (0, set_append_list (append_list s ++ seq 0 (List.length (xlist s))) s).
Proof.
  unfold get_append_list, bind, gets, mret. now rewrite get_append_loop_all.
Qed.

Lemma get_append_loop_named (a : string) (xs : list xattr) :
  forall (i : nat) (s : state),
    exists sel,
      get_append_loop (Some a) i xs s
      = (tt, set_append_list (append_list s ++ sel) s) /\
      ((sel = [] /\ forall x, In x xs -> cstr s (name x) <> a) \/
       (exists k x,
           sel = [(i + k)%nat] /\ nth_error xs k = Some x /\ cstr s (name x) = a /\
           forall k' x', (k' < k)%nat -> nth_error xs k' = Some x' ->
                         cstr s (name x') <> a)).
Proof.
  induction xs as [|x rest IH]; intros i s.
  - exists []. split.
    + cbn. unfold mret. now rewrite set_append_list_app_nil.
    + left. split; [reflexivity|]. intros x [].
  - cbn [get_append_loop]. unfold bind, gets, modify.
    destruct (String.eqb (cstr s (name x)) a) eqn:Heq.
    + apply String.eqb_eq in Heq. exists [i]. split; [reflexivity|].
      right. exists 0%nat, x. rewrite Nat.add_0_r.
      repeat split; try assumption. intros k' x' Hk. lia.
    + apply String.eqb_neq in Heq.
      destruct (IH (S i) s) as [sel [E H]]. exists sel. split; [exact E|].
      destruct H as [[-> Hnone] | (k & y & -> & Hy & Hname & Hfirst)].
      * left. split; [reflexivity|]. intros y [<- | Hin]; [exact Heq | now apply Hnone].
      * right. exists (S k), y. split; [f_equal; lia|].
        split; [exact Hy|]. split; [exact Hname|].
        intros [|k'] x' Hk Hx'.
        -- cbn in Hx'. injection Hx' as <-. exact Heq.
        -- cbn in Hx'. apply (Hfirst k' x'); [lia | exact Hx'].
Qed.

(** X3.  With a name, [get_append_list] returns 0 and appends at most one
    position: that of the first record of [xlist] whose name is the given
    one, and none when no record has that name; nothing else changes. *)
Theorem get_append_list_named (a : string) (s : state) :
  exists sel,
    get_append_list (Some a) s = (0, set_append_list (append_list s ++ sel) s) /\
    ((sel = [] /\ forall x, In x (xlist s) -> cstr s (name x) <> a) \/
     (exists k x,
         sel = [k] /\ nth_error (xlist s) k = Some x /\ cstr s (name x) = a /\
         forall k' x', (k' < k)%nat -> nth_error (xlist s) k' = Some x' ->
                       cstr s (name x') <> a)).
Proof.
  destruct (get_append_loop_named a (xlist s) 0 s) as [sel [E H]].
  exists sel. split.
  - unfold get_append_list, bind, gets, mret. now rewrite E.
  - exact H.
Qed.

(** ** What the repair does to the values *)

Lemma same_blocks_refl (s : state) : same_blocks s s.
Proof. now split. Qed.

Lemma same_blocks_trans (s s1 s2 : state) :
  same_blocks s s1 -> same_blocks s1 s2 -> same_blocks s s2.
Proof.
  intros [B1 X1] [B2 X2]. split; [|congruence].
  intros q. now rewrite B2, B1.
Qed.

Lemma same_blocks_same_heap (s s' : state) :
  heap s' = heap s -> xlist s' = xlist s -> same_blocks s s'.
Proof.
  intros H X. split; [|exact X]. intros q. unfold block_bytes. now rewrite H.
Qed.

Lemma extattr_set_fd_same_blocks (o : oracle) (fd : Z) (nm : string) (p : ptr) (n : Z)
      (s : state) :
  same_blocks s (snd (extattr_set_fd o fd nm p n s)).
Proof.
  unfold extattr_set_fd. destruct (set_err o (nset s)); now apply same_blocks_same_heap.
Qed.

Lemma hexdump_ea_same_blocks (path nm : string) (buf : ptr) (len : Z) (s : state) :
  same_blocks s (snd (hexdump_ea path nm buf len s)).
Proof.
  destruct (hexdump_ea_trace path nm buf len s) as [t [E _]]. rewrite E.
  now apply same_blocks_same_heap.
Qed.

Lemma emit_same_blocks (e : event) (s : state) : same_blocks s (snd (emit e s)).
Proof. now apply same_blocks_same_heap. Qed.

(** Storing 'A' at index 0 replaces the first byte of that block, if it has
    one, and nothing else. *)
Lemma store_A_block_bytes (p q : ptr) (s : state) :
  block_bytes (snd (store p 0 x41 s)) q
  = if Nat.eqb q p then fix_head (block_bytes s q) else block_bytes s q.
Proof.
  destruct (Nat.eqb q p) eqn:Hq.
  - apply Nat.eqb_eq in Hq. subst q.
    destruct (block_bytes s p) as [|b0 t] eqn:Hb.
    + unfold store, block_bytes in *.
      destruct (nth_error (heap s) p) as [blk|] eqn:Hp; cbn [snd]; rewrite ?Hp;
        [|reflexivity].
      rewrite Hb. cbn [List.length Z.of_nat Z.ltb Z.compare andb Z.leb snd trace set_trace
                        set_room heap].
      now rewrite Hp.
    + rewrite store_block_bytes by (rewrite Hb; cbn; lia).
      now rewrite Hb.
  - apply Nat.eqb_neq in Hq. unfold store, block_bytes.
    destruct (nth_error (heap s) p) as [blk|]; [|reflexivity].
    destruct ((0 <=? 0) && (0 <? Z.of_nat (List.length (bytes blk)))); [|reflexivity].
    cbn [snd heap set_heap]. rewrite nth_error_upd_other by congruence. reflexivity.
Qed.

Lemma store_xlist (p : ptr) (i : Z) (b : byte) (s : state) :
  xlist (snd (store p i b s)) = xlist s.
Proof.
  unfold store. destruct (nth_error (heap s) p) as [blk|]; [|reflexivity].
  now destruct ((0 <=? i) && (i <? Z.of_nat (List.length (bytes blk)))).
Qed.

(** A writing turn of [fix_afp_list] replaces the first byte of the value
    of its record by 'A' and changes no other byte and no record. *)
Lemma fix_afp_turn_blocks (o : oracle) (fd : Z) (path : string) (flags : Z)
      (x : xattr) (ret setret : Z) (s : state) :
  has flags F_FIX_AFP_EA = true ->
  has flags F_DRY_RUN = false ->
  (forall q, block_bytes (snd (fix_afp_turn o fd path flags x ret setret s)) q
             = if Nat.eqb q (value x) then fix_head (block_bytes s q)
               else block_bytes s q) /\
  xlist (snd (fix_afp_turn o fd path flags x ret setret s)) = xlist s.
Proof.
  intros Hfix Hdry. unfold fix_afp_turn.
  rewrite Hfix, Hdry. cbn [negb].
  unfold warn, bind, gets, mret.
  repeat match goal with
  | |- context [hexdump_ea ?a ?b ?c ?d ?st] =>
      pose proof (hexdump_ea_same_blocks a b c d st);
      destruct (hexdump_ea a b c d st) as [? ?]; cbn [fst snd] in *
  | |- context [emit ?e ?st] =>
      pose proof (emit_same_blocks e st);
      destruct (emit e st) as [? ?]; cbn [fst snd] in *
  | |- context [store ?p ?i ?b ?st] =>
      pose proof (fun q => store_A_block_bytes p q st);
      pose proof (store_xlist p i b st);
      destruct (store p i b st) as [? ?]; cbn [fst snd] in *
  | |- context [extattr_set_fd o fd ?nm ?d ?n ?st] =>
      pose proof (extattr_set_fd_same_blocks o fd nm d n st);
      destruct (extattr_set_fd o fd nm d n st) as [? ?]; cbn [fst snd] in *
  | |- context [if ?c then _ else _] => destruct c eqn:?; cbn [fst snd] in *
  end;
  unfold same_blocks in *;
  repeat match goal with H : _ /\ _ |- _ => destruct H end;
  (split; [intros q|]);
  repeat match goal with
         | H : forall q, block_bytes ?a q = _ |- context [block_bytes ?a _] => rewrite H
         | H : xlist ?a = _ |- context [xlist ?a] => rewrite H
         end; reflexivity.
Qed.

Lemma fix_head_idem (v : list byte) : fix_head (fix_head v) = fix_head v.
Proof. now destruct v. Qed.

Lemma fix_afp_loop_blocks (o : oracle) (fd : Z) (path : string) (flags : Z) :
  has flags F_FIX_AFP_EA = true ->
  has flags F_DRY_RUN = false ->
  forall (view : list nat) (ret setret : Z) (s : state),
    xlist (snd (fix_afp_loop o fd path flags view ret setret s)) = xlist s /\
    forall q,
      block_bytes (snd (fix_afp_loop o fd path flags view ret setret s)) q
      = if repaired (xlist s) view q then fix_head (block_bytes s q)
        else block_bytes s q.
Proof.
  intros Hfix Hdry. induction view as [|idx rest IH]; intros ret setret s.
  - split; reflexivity.
  - cbn [fix_afp_loop repaired existsb]. unfold bind at 1 3. unfold gets at 1 2.
    destruct (nth_error (xlist s) idx) as [x|] eqn:Hx.
    + unfold bind.
      destruct (fix_afp_turn_blocks o fd path flags x ret setret s Hfix Hdry) as [B1 X1].
      destruct (fix_afp_turn o fd path flags x ret setret s) as [[ret' setret'] s1].
      cbn [snd] in B1, X1.
      destruct (IH ret' setret' s1) as [X2 B2]. split; [congruence|].
      intros q. rewrite B2, B1, X1. fold (repaired (xlist s) rest q).
      destruct (Nat.eqb q (value x)), (repaired (xlist s) rest q); cbn [orb];
        rewrite ?fix_head_idem; reflexivity.
    + cbn [orb]. apply IH.
Qed.

Lemma selects_fix_head (s : state) (x : xattr) (v : list byte) :
  block_bytes s (value x) = fix_head v -> selects s x = false.
Proof.
  intros H. unfold selects, AFP_EA_CORRUPTED, load. rewrite H.
  destruct v as [|b [|c t]]; cbn; now rewrite ?andb_false_r.
Qed.

Lemma store_lives (p : ptr) (i : Z) (b : byte) (s : state) :
  map live (heap (snd (store p i b s))) = map live (heap s).
Proof.
  unfold store. destruct (nth_error (heap s) p) as [blk|] eqn:Hp; [|reflexivity].
  destruct ((0 <=? i) && (i <? Z.of_nat (List.length (bytes blk)))); [|reflexivity].
  cbn [snd heap set_heap]. now apply (upd_map_same _ _ _ _ blk Hp).
Qed.

Lemma store_bytes_lives (p : ptr) (bs : list byte) :
  forall (i : Z) (s : state),
    map live (heap (snd (store_bytes p i bs s))) = map live (heap s).
Proof.
  induction bs as [|b rest IH]; intros i s; [reflexivity|].
  cbn [store_bytes]. unfold bind.
  pose proof (store_lives p i b s) as H1.
  destruct (store p i b s) as [u s1]. cbn [snd] in H1.
  now rewrite IH.
Qed.

Lemma room_of_same (s s' : state) (q : ptr) :
  room s' = room s -> room_of s' q = room_of s q.
Proof. intros E. unfold room_of. now rewrite E. Qed.

(** Storing at index 0 leaves the room of every block alone, but for the
    block written when it is empty. *)
Lemma store_head_room (p q : ptr) (b : byte) (s : state) :
  q <> p \/ block_bytes s p <> [] ->
  room_of (snd (store p 0 b s)) q = room_of s q.
Proof.
  intros H. unfold store.
  destruct (nth_error (heap s) p) as [blk|] eqn:Hp; [|reflexivity].
  cbv zeta.
  destruct ((0 <=? 0) && (0 <? Z.of_nat (List.length (bytes blk)))) eqn:Hin;
    [reflexivity|].
  cbn [snd]. unfold room_of at 1. cbn [room set_trace set_room].
  unfold spill.
  destruct ((0 <=? 0) && (Z.to_nat (0 - Z.of_nat (List.length (bytes blk)))
                          <? List.length (room_of s p))%nat); [|reflexivity].
  cbn [find fst]. destruct (Nat.eqb_spec p q) as [<-|Hne]; [|reflexivity].
  exfalso. destruct H as [H|H]; [now apply H|].
  unfold block_bytes in H. rewrite Hp in H.
  destruct (bytes blk); [now apply H | cbn in Hin; discriminate].
Qed.

Lemma extattr_set_fd_room (o : oracle) (fd : Z) (nm : string) (p : ptr) (n : Z)
      (s : state) :
  room (snd (extattr_set_fd o fd nm p n s)) = room s /\
  map live (heap (snd (extattr_set_fd o fd nm p n s))) = map live (heap s).
Proof. unfold extattr_set_fd. now destruct (set_err o (nset s)). Qed.

(** A writing turn of [fix_afp_list] frees and allocates nothing, and
    leaves the room of the blocks alone. *)
Lemma fix_afp_turn_frame (o : oracle) (fd : Z) (path : string) (flags : Z)
      (x : xattr) (ret setret : Z) (s : state) :
  map live (heap (snd (fix_afp_turn o fd path flags x ret setret s))) = map live (heap s) /\
  forall q, q <> value x \/ block_bytes s (value x) <> [] ->
            room_of (snd (fix_afp_turn o fd path flags x ret setret s)) q = room_of s q.
Proof.
  set (P := fun r : Z * Z * state =>
              map live (heap (snd r)) = map live (heap s) /\
              forall q, q <> value x \/ block_bytes s (value x) <> [] ->
                        room_of (snd r) q = room_of s q).
  change (P (fix_afp_turn o fd path flags x ret setret s)).
  unfold fix_afp_turn.
  unfold bind at 1. unfold gets at 1. unfold bind at 1.
  destruct (debug_dump_trace flags path (cstr s (name x)) (value x) (length x) s)
    as (t1 & E1 & _ & _).
  rewrite E1. clear E1.
  set (s1 := set_trace (trace s ++ t1) s).
  assert (L1 : map live (heap s1) = map live (heap s)) by reflexivity.
  assert (R1 : forall q, room_of s1 q = room_of s q) by reflexivity.
  assert (B1 : block_bytes s1 (value x) = block_bytes s (value x)) by reflexivity.
  clearbody s1.
  unfold warn, bind, gets, emit, modify, mret.
  repeat match goal with
  | |- context [store ?p ?i ?b ?st] =>
      pose proof (store_lives p i b st);
      pose proof (fun q => store_head_room p q b st);
      destruct (store p i b st) as [? ?]; cbn [fst snd] in *
  | |- context [extattr_set_fd o fd ?nm ?d ?n ?st] =>
      pose proof (extattr_set_fd_room o fd nm d n st) as [? ?];
      destruct (extattr_set_fd o fd nm d n st) as [? ?]; cbn [fst snd] in *
  | |- context [if ?c then _ else _] => destruct c eqn:?; cbn [fst snd] in *
  end;
  subst P; cbn [snd heap room set_trace] in *;
  (split; [congruence|]);
  intros q Hq;
  assert (Hq1 : q <> value x \/ block_bytes s1 (value x) <> [])
    by (rewrite B1; exact Hq);
  repeat match goal with
         | |- room_of (set_trace _ ?a) _ = _ =>
             change (room_of (set_trace _ a) q) with (room_of a q)
         | H : room ?a = room ?b |- room_of ?a _ = _ =>
             rewrite (room_of_same b a q H)
         | H : forall q, _ -> room_of ?a q = _ |- room_of ?a _ = _ =>
             rewrite (H q Hq1)
         end;
  auto.
Qed.

Lemma fix_head_nil (v : list byte) : fix_head v <> [] <-> v <> [].
Proof. destruct v; cbn; split; intros H; try exact H; discriminate. Qed.

(** The repair pass frees and allocates nothing, and leaves the room of the
    blocks alone. *)
Lemma fix_afp_loop_frame (o : oracle) (fd : Z) (path : string) (flags : Z) :
  has flags F_FIX_AFP_EA = true ->
  has flags F_DRY_RUN = false ->
  forall (view : list nat) (ret setret : Z) (s : state),
    map live (heap (snd (fix_afp_loop o fd path flags view ret setret s)))
    = map live (heap s) /\
    forall q, repaired (xlist s) view q = false \/ block_bytes s q <> [] ->
              room_of (snd (fix_afp_loop o fd path flags view ret setret s)) q
              = room_of s q.
Proof.
  intros Hfix Hdry. induction view as [|idx rest IH]; intros ret setret s.
  - split; reflexivity.
  - set (P := fun r : Z * state =>
                map live (heap (snd r)) = map live (heap s) /\
                forall q, repaired (xlist s) (idx :: rest) q = false \/
                          block_bytes s q <> [] ->
                          room_of (snd r) q = room_of s q).
    change (P (fix_afp_loop o fd path flags (idx :: rest) ret setret s)).
    cbn [fix_afp_loop]. unfold bind at 1. unfold gets at 1.
    subst P. cbn [repaired existsb].
    destruct (nth_error (xlist s) idx) as [x|] eqn:Hx.
    + unfold bind.
      destruct (fix_afp_turn_blocks o fd path flags x ret setret s Hfix Hdry) as [B1 X1].
      destruct (fix_afp_turn_frame o fd path flags x ret setret s) as [L1 R1].
      destruct (fix_afp_turn o fd path flags x ret setret s) as [[ret' setret'] s1].
      cbn [snd] in *.
      destruct (IH ret' setret' s1) as [L2 R2]. split; [congruence|].
      intros q Hq. fold (repaired (xlist s) rest q) in Hq.
      rewrite R2, R1; [reflexivity| |].
      * destruct (Nat.eq_dec q (value x)) as [E|Hne]; [|now left].
        right. rewrite E, Nat.eqb_refl in Hq. cbn [orb] in Hq.
        destruct Hq as [Hq|Hq]; [discriminate | exact Hq].
      * rewrite X1, B1.
        destruct (Nat.eqb q (value x)); cbn [orb] in Hq.
        -- right. apply fix_head_nil. destruct Hq as [Hq|Hq]; [discriminate | exact Hq].
        -- destruct Hq as [Hq|Hq]; [now left | now right].
    + cbn [orb]. apply IH.
Qed.

(** X4.  Outside a dry run, the repair pass replaces the first byte of the
    value of every selected record by 'A' and changes nothing else in
    memory: the block of a selected value becomes what it was with 'A' as
    its first byte, every other block keeps every byte, no block is
    allocated or freed, the room of the blocks is as it was (but for a
    selected value that is an empty block, where the byte goes past the
    end), and the records are the same.  Afterwards no repaired record
    passes the test of [get_afp_list] any more. *)
Theorem fix_afp_list_repairs (o : oracle) (fd : Z) (path : string) (flags : Z)
        (s : state) :
  has flags F_FIX_AFP_EA = true ->
  has flags F_DRY_RUN = false ->
  let s' := snd (fix_afp_list o fd path flags s) in
  xlist s' = xlist s /\
  (forall q, block_bytes s' q
             = if repaired (xlist s) (afp_list s) q then fix_head (block_bytes s q)
               else block_bytes s q) /\
  map live (heap s') = map live (heap s) /\
  (forall q, repaired (xlist s) (afp_list s) q = false \/ block_bytes s q <> [] ->
             room_of s' q = room_of s q) /\
  (forall idx x,
      In idx (afp_list s) -> nth_error (xlist s) idx = Some x ->
      block_bytes s' (value x) = fix_head (block_bytes s (value x)) /\
      selects s' x = false).
Proof.
  intros Hfix Hdry s'. subst s'. unfold fix_afp_list, bind, gets.
  destruct (fix_afp_loop_blocks o fd path flags Hfix Hdry (afp_list s) 0 0 s) as [X B].
  destruct (fix_afp_loop_frame o fd path flags Hfix Hdry (afp_list s) 0 0 s) as [L R].
  split; [exact X|]. split; [exact B|]. split; [exact L|]. split; [exact R|].
  intros idx x Hin Hx.
  assert (Hb : block_bytes (snd (fix_afp_loop o fd path flags (afp_list s) 0 0 s)) (value x)
               = fix_head (block_bytes s (value x))).
  { rewrite B.
    replace (repaired (xlist s) (afp_list s) (value x)) with true; [reflexivity|].
    symmetry. apply existsb_exists. exists idx. split; [exact Hin|].
    rewrite Hx. apply Nat.eqb_refl. }
  split; [exact Hb|]. now apply selects_fix_head with (block_bytes s (value x)).
Qed.

Lemma fix_afp_list_repairs_witness :
  let s := ready quiet two_attributes in
  let s' := snd (fix_afp_list quiet 3 "/f" F_FIX_AFP_EA s) in
  xlist s' = xlist s /\
  (forall q, block_bytes s' q
             = if repaired (xlist s) (afp_list s) q then fix_head (block_bytes s q)
               else block_bytes s q) /\
  map live (heap s') = map live (heap s) /\
  (forall q, repaired (xlist s) (afp_list s) q = false \/ block_bytes s q <> [] ->
             room_of s' q = room_of s q) /\
  (forall idx x,
      In idx (afp_list s) -> nth_error (xlist s) idx = Some x ->
      block_bytes s' (value x) = fix_head (block_bytes s (value x)) /\
      selects s' x = false).
Proof.
  apply (fix_afp_list_repairs quiet 3 "/f" F_FIX_AFP_EA (ready quiet two_attributes));
    vm_compute; reflexivity.
Defined.

(** ** Which records a pass writes (C7) *)



Lemma cstr_same (s s' : state) (q : ptr) :
  heap s' = heap s -> room s' = room s -> cstr s' q = cstr s q.
Proof. intros H R. unfold cstr, block_bytes, room_of. now rewrite H, R. Qed.












Lemma free_heap_length (p : ptr) (s : state) :
  List.length (heap (snd (free p s))) = List.length (heap s).
Proof.
  unfold free. cbn [snd heap set_trace set_heap].
  destruct (nth_error (heap s) p); [apply upd_length | reflexivity].
Qed.






(** ** The result of a repair pass whose writes succeed *)

(** A writing turn of [fix_afp_list] without check mode, on a record whose
    length fits an [int], whose write succeeds: [ret] is as before. *)
Lemma fix_afp_turn_succeeds (o : oracle) (fd : Z) (path : string) (flags : Z)
      (x : xattr) (ret setret : Z) (s : state) :
  has flags F_FIX_AFP_EA = true ->
  has flags F_DRY_RUN = false ->
  has flags F_CHECK_AFP_EA = false ->
  0 <= length x < 2 ^ 31 ->
  set_err o (nset s) = false ->
  fst (fst (fix_afp_turn o fd path flags x ret setret s)) = ret.
Proof.
  intros Hfix Hdry Hchk Hlen Hok. unfold fix_afp_turn.
  after_debug_dump flags path s x t1 S1 R1.
  rewrite Hfix, Hdry, Hchk. cbn [negb].
  set (s1 := set_trace (trace s ++ t1) s).
  assert (N1 : nset s1 = nset s) by reflexivity.
  clearbody s1.
  unfold warn, bind, gets, emit, modify, mret.
  pose proof (store_advanced (value x) 0 x41 s1) as A2.
  destruct (store (value x) 0 x41 s1) as [u2 s2]. cbn [snd] in A2.
  destruct (extattr_set_fd_advanced o fd (cstr s2 (name x)) (value x) (length x) s2)
    as [_ F3].
  destruct A2 as (_ & _ & N2 & _). rewrite N2, N1, Nat.add_0_r, Hok in F3.
  destruct (extattr_set_fd o fd (cstr s2 (name x)) (value x) (length x) s2) as [r3 s3].
  cbn [fst] in F3. subst r3. rewrite to_int_small by lia.
  replace (length x <? 0) with false by (symmetry; apply Z.ltb_ge; lia).
  rewrite orb_false_r.
  destruct (0 <? length x), (has flags F_VERBOSE); cbn [fst]; rewrite ?lor_ok;
    reflexivity.
Qed.

Lemma fix_afp_loop_succeeds (o : oracle) (fd : Z) (path : string) (flags : Z) :
  has flags F_FIX_AFP_EA = true ->
  has flags F_DRY_RUN = false ->
  has flags F_CHECK_AFP_EA = false ->
  forall (view : list nat) (ret setret : Z) (s : state),
    (forall idx x, In idx view -> nth_error (xlist s) idx = Some x ->
                   0 <= length x < 2 ^ 31) ->
    (forall k, (k < List.length view)%nat -> set_err o (nset s + k) = false) ->
    fst (fix_afp_loop o fd path flags view ret setret s) = ret.
Proof.
  intros Hfix Hdry Hchk. induction view as [|idx rest IH]; intros ret setret s Hlen Hok.
  - reflexivity.
  - cbn [fix_afp_loop]. unfold bind at 1. unfold gets at 1.
    destruct (nth_error (xlist s) idx) as [x|] eqn:Hx.
    + unfold bind.
      assert (H0 : set_err o (nset s) = false).
      { rewrite <- (Nat.add_0_r (nset s)). apply Hok. cbn. lia. }
      pose proof (fix_afp_turn_succeeds o fd path flags x ret setret s Hfix Hdry Hchk
                    (Hlen idx x (or_introl eq_refl) Hx) H0) as R1.
      destruct (fix_afp_turn_writes o fd path flags x ret setret s Hfix Hdry)
        as (ret' & setret' & s1 & E1 & A1 & _).
      destruct (fix_afp_turn_blocks o fd path flags x ret setret s Hfix Hdry) as [_ X1].
      rewrite E1 in *. cbn [fst snd] in R1, X1. subst ret'.
      apply IH.
      * intros j y Hj Hy. rewrite X1 in Hy. apply (Hlen j y); [now right | exact Hy].
      * intros k Hk. destruct A1 as (_ & _ & N1 & _). rewrite N1.
        replace (nset s + 1 + k)%nat with (nset s + S k)%nat by lia.
        apply Hok. cbn. lia.
    +       apply IH.
      * intros j y Hj Hy. apply (Hlen j y); [now right | exact Hy].
      * intros k Hk. apply Hok. cbn. lia.
Qed.

Lemma bounded_search (f : nat -> bool) (n : nat) :
  (forall k, (k < n)%nat -> f k = false) \/ (exists k, (k < n)%nat /\ f k = true).
Proof.
  induction n as [|n [Hall | [k [Hk Hf]]]].
  - left. intros k Hk. lia.
  - destruct (f n) eqn:Hn.
    + right. exists n. split; [lia | exact Hn].
    + left. intros k Hk. destruct (Nat.eq_dec k n) as [-> | Hne]; [exact Hn|].
      apply Hall. lia.
  - right. exists k. split; [lia | exact Hf].
Qed.

(** X5.  In fix mode without check mode, outside a dry run, on records
    whose lengths fit an [int], the repair pass returns [EX_OK] exactly when
    every [extattr_set_fd] it makes succeeds and [EX_EA_CORRUPTED] exactly
    when one of them fails. *)
Theorem fix_afp_list_result (o : oracle) (fd : Z) (path : string) (flags : Z)
        (s : state) :
  has flags F_FIX_AFP_EA = true ->
  has flags F_DRY_RUN = false ->
  has flags F_CHECK_AFP_EA = false ->
  view_ok s (afp_list s) ->
  (forall idx x, In idx (afp_list s) -> nth_error (xlist s) idx = Some x ->
                 0 <= length x < 2 ^ 31) ->
  let n := List.length (afp_list s) in
  let ret := fst (fix_afp_list o fd path flags s) in
  (ret = EX_OK <-> forall k, (k < n)%nat -> set_err o (nset s + k) = false) /\
  (ret = EX_EA_CORRUPTED <-> exists k, (k < n)%nat /\ set_err o (nset s + k) = true).
Proof.
  intros Hfix Hdry Hchk Hok Hlen n ret. subst n ret.
  unfold fix_afp_list, bind, gets.
  destruct (bounded_search (fun k => set_err o (nset s + k)) (List.length (afp_list s)))
    as [Hall | Hex].
  - rewrite (fix_afp_loop_succeeds o fd path flags Hfix Hdry Hchk (afp_list s) 0 0 s
               Hlen Hall).
    split; split; try discriminate; try (intros _; assumption || reflexivity).
    intros [k [Hk Hf]]. rewrite (Hall k Hk) in Hf. discriminate.
  - destruct (fix_afp_loop_writes o fd path flags Hfix Hdry (afp_list s) 0 0 s Hok)
      as (r & s' & E & _ & _ & F).
    rewrite E. cbn [fst]. rewrite (F Hex).
    split; split; try discriminate; try (intros _; assumption || reflexivity).
    intros Hall. destruct Hex as [k [Hk Hf]]. rewrite (Hall k Hk) in Hf. discriminate.
Qed.

Lemma fix_afp_list_result_witness :
  let s := ready first_set_fails two_attributes in
  let ret := fst (fix_afp_list first_set_fails 3 "/f" F_FIX_AFP_EA s) in
  (ret = EX_OK <->
   forall k, (k < List.length (afp_list s))%nat ->
             set_err first_set_fails (nset s + k) = false) /\
  (ret = EX_EA_CORRUPTED <->
   exists k, (k < List.length (afp_list s))%nat /\
             set_err first_set_fails (nset s + k) = true).
Proof.
  apply (fix_afp_list_result first_set_fails 3 "/f" F_FIX_AFP_EA
           (ready first_set_fails two_attributes)).
  - vm_compute. reflexivity.
  - vm_compute. reflexivity.
  - vm_compute. reflexivity.
  - apply (ready_two_attributes first_set_fails). now right.
  - intros idx x Hin Hx. vm_compute in Hin.
    destruct Hin as [<- | [<- | []]]; vm_compute in Hx; injection Hx as <-;
      vm_compute; (split; [discriminate | reflexivity]).
Defined.

(** ** An append pass that runs out of memory *)

(** A writing turn of [fix_append_list] whose [malloc] returns NULL leaves
    the loop with -1, having made no call of [extattr_set_fd]. *)
Lemma fix_append_turn_no_memory (o : oracle) (fd : Z) (path : string) (flags : Z)
      (idx : nat) (x : xattr) (ret setret : Z) (s : state) :
  has flags F_APPEND_NULL = true ->
  has flags F_DRY_RUN = false ->
  malloc_null o (nmalloc s) = true ->
  exists s',
    fix_append_turn o fd path flags idx x ret setret s = (inl (-1), s') /\
    advanced 1 0 s s' /\ same_blocks s s' /\ storage s' = storage s.
Proof.
  intros Happ Hdry Hm. unfold fix_append_turn.
  after_debug_dump flags path s x t1 S1 R1.
  rewrite Happ, Hdry. cbn [negb].
  unfold warn, bind, emit, modify, mret, malloc. cbn [nmalloc set_trace].
  rewrite Hm. eexists. split; [reflexivity|]. split; [|split].
  - unfold advanced, set_calls in *. cbn.
    rewrite !filter_app, S1. cbn. rewrite !app_nil_r. repeat split; lia.
  - now apply same_blocks_same_heap.
  - reflexivity.
Qed.

Lemma fix_append_loop_no_memory (o : oracle) (fd : Z) (path : string) (flags : Z) :
  has flags F_APPEND_NULL = true ->
  has flags F_DRY_RUN = false ->
  forall (k : nat) (view : list nat) (ret setret : Z) (s : state),
    view_ok s view ->
    (k < List.length view)%nat ->
    (forall j, (j < k)%nat -> malloc_null o (nmalloc s + j) = false) ->
    malloc_null o (nmalloc s + k) = true ->
    exists s',
      fix_append_loop o fd path flags view ret setret s = (-1, s') /\
      advanced (S k) k s s'.
Proof.
  intros Happ Hdry. induction k as [|k IH]; intros view ret setret s Hok Hk Hbefore Hfail.
  - destruct view as [|idx rest]; [cbn in Hk; lia|].
    inversion Hok as [|? ? Hidx Hrest]; subst.
    cbn [fix_append_loop]. unfold bind at 1. unfold gets at 1.
    destruct (nth_error (xlist s) idx) as [x|] eqn:Hx;
      [|apply nth_error_None in Hx; lia].
    unfold bind. rewrite Nat.add_0_r in Hfail.
    destruct (fix_append_turn_no_memory o fd path flags idx x ret setret s Happ Hdry Hfail)
      as (s' & E & A & _).
    rewrite E. exists s'. split; [reflexivity | exact A].
  - destruct view as [|idx rest]; [cbn in Hk; lia|].
    inversion Hok as [|? ? Hidx Hrest]; subst.
    cbn [fix_append_loop]. unfold bind at 1. unfold gets at 1.
    destruct (nth_error (xlist s) idx) as [x|] eqn:Hx;
      [|apply nth_error_None in Hx; lia].
    unfold bind.
    assert (Hm0 : malloc_null o (nmalloc s) = false).
    { rewrite <- (Nat.add_0_r (nmalloc s)). apply Hbefore. lia. }
    destruct (fix_append_turn_writes o fd path flags idx x ret setret s Happ Hdry Hm0)
      as (ret' & setret' & s1 & E1 & A1 & _).
    rewrite E1.
    destruct (IH rest ret' setret' s1) as (s' & E2 & A2).
    + exact (view_ok_advanced _ _ _ _ _ A1 Hrest).
    + cbn in Hk. lia.
    + intros j Hj. destruct A1 as (_ & M1 & _). rewrite M1.
      replace (nmalloc s + 1 + j)%nat with (nmalloc s + S j)%nat by lia.
      apply Hbefore. lia.
    + destruct A1 as (_ & M1 & _). rewrite M1.
      now replace (nmalloc s + 1 + k)%nat with (nmalloc s + S k)%nat by lia.
    + exists s'. split; [exact E2|].
      apply (advanced_trans 1 1 (S k) k s s1 s' A1 A2).
Qed.

(** X6.  Outside a dry run, when the [malloc] of the append pass returns
    NULL at the record number [k] of the selection (counting from 0),
    [fix_append_list] returns -1 at once: the [k] records before have had
    their [extattr_set_fd] call, this record and those after it get none,
    and whatever failure bit the pass had accumulated is not returned. *)
Theorem fix_append_list_no_memory (o : oracle) (fd : Z) (path : string) (flags : Z)
        (k : nat) (s : state) :
  has flags F_APPEND_NULL = true ->
  has flags F_DRY_RUN = false ->
  view_ok s (append_list s) ->
  (k < List.length (append_list s))%nat ->
  (forall j, (j < k)%nat -> malloc_null o (nmalloc s + j) = false) ->
  malloc_null o (nmalloc s + k) = true ->
  fst (fix_append_list o fd path flags s) = -1 /\
  nset (snd (fix_append_list o fd path flags s)) = (nset s + k)%nat /\
  List.length (set_calls (trace (snd (fix_append_list o fd path flags s))))
  = (List.length (set_calls (trace s)) + k)%nat.
Proof.
  intros Happ Hdry Hok Hk Hbefore Hfail.
  destruct (fix_append_loop_no_memory o fd path flags Happ Hdry k (append_list s) 0 0 s
              Hok Hk Hbefore Hfail) as (s' & E & (_ & _ & N & C)).
  unfold fix_append_list, bind, gets. rewrite E. cbn [fst snd]. now repeat split.
Qed.

Lemma fix_append_list_no_memory_witness :
  let s := ready (malloc_fails_at 8) two_attributes in
  let r := fix_append_list (malloc_fails_at 8) 3 "/f" 0x11 s in
  fst r = -1 /\
  nset (snd r) = (nset s + 1)%nat /\
  List.length (set_calls (trace (snd r))) = (List.length (set_calls (trace s)) + 1)%nat.
Proof.
  apply (fix_append_list_no_memory (malloc_fails_at 8) 3 "/f" 0x11 1
           (ready (malloc_fails_at 8) two_attributes)).
  - vm_compute. reflexivity.
  - vm_compute. reflexivity.
  - unfold view_ok. vm_compute. repeat constructor.
  - vm_compute. repeat constructor.
  - intros j Hj. destruct j as [|j]; [vm_compute; reflexivity | lia].
  - vm_compute. reflexivity.
Defined.

(** ** The error exits of do_ea_stuff_single *)

(** X7.  When [open] fails, [do_ea_stuff_single] returns [EX_OSERR] after
    the warning: no attribute is listed, read or written, nothing is
    allocated, and no descriptor is closed. *)
Theorem do_ea_stuff_single_open_fails (o : oracle) (path : string)
        (attr : option string) (flags : Z) (s : state) :
  open_result o < 0 ->
  do_ea_stuff_single o path attr flags s
  = (EX_OSERR,
     set_trace (trace s ++ [Warn "open"])
               (set_append_list [] (set_afp_list [] (set_xlist [] s)))).
Proof.
  intros Hfd. unfold do_ea_stuff_single, do_ea_stuff_body.
  apply Z.ltb_lt in Hfd. unfold bind at 1. unfold modify at 1.
  unfold bind at 1. rewrite Hfd.
  replace (0 <? open_result o) with false
    by (symmetry; apply Z.ltb_ge; apply Z.ltb_lt in Hfd; lia).
  reflexivity.
Qed.

Lemma do_ea_stuff_single_open_fails_witness :
  do_ea_stuff_single open_fails "/f" None 0x3b (initial scenario_A)
  = (EX_OSERR,
     set_trace (trace (initial scenario_A) ++ [Warn "open"])
               (set_append_list [] (set_afp_list [] (set_xlist [] (initial scenario_A))))).
Proof.
  apply (do_ea_stuff_single_open_fails open_fails "/f" None 0x3b (initial scenario_A)).
  reflexivity.
Defined.

(** The three ways out of [get_extended_attributes]: [EX_OK] when the size
    query fails, -1 when the buffer cannot be allocated or the list cannot
    be fetched, 0 after the loop. *)
Lemma get_extended_attributes_result (o : oracle) (fd : Z) (s : state) :
  Z.of_nat (List.length (listing (storage s))) < 2 ^ 31 ->
  fst (get_extended_attributes o fd s)
  = if list_err o (nlist s) then EX_OK
    else if malloc_null o (nmalloc s) then -1
         else if list_err o (S (nlist s)) then -1 else 0.
Proof.
  intros Hlen. unfold get_extended_attributes, extattr_list_fd, malloc, warn, free, emit,
    modify, bind, mret.
  destruct (list_err o (nlist s)); [reflexivity|].
  rewrite to_int_small by lia.
  replace (Z.of_nat (List.length (listing (storage s))) <? 0) with false
    by (symmetry; apply Z.ltb_ge; lia).
  cbn [nmalloc set_nlist].
  destruct (malloc_null o (nmalloc s)); [reflexivity|].
  cbn [nlist set_nmalloc set_heap set_nlist set_room].
  destruct (list_err o (S (nlist s))); [reflexivity|].
  cbn [storage set_nmalloc set_heap set_nlist set_room].
  rewrite to_int_small.
  - match goal with
    | |- context [if ?c then _ else _] => replace c with false
    end.
    + now destruct (ea_loop _ _ _ _ _ _ _).
    + symmetry. apply Z.ltb_ge. lia.
  - split; [lia|]. rewrite length_firstn. lia.
Qed.

(** ** What never writes *)

Lemma unwritten_refl (s : state) : unwritten s s.
Proof. now repeat split. Qed.

Lemma unwritten_trans (s s1 s2 : state) :
  unwritten s s1 -> unwritten s1 s2 -> unwritten s s2.
Proof. unfold unwritten. intros (A & B & C) (A' & B' & C'). repeat split; congruence. Qed.

Lemma unwritten_event (e : event) (s s' : state) :
  is_set_call e = false ->
  storage s' = storage s -> nset s' = nset s -> trace s' = trace s ++ [e] ->
  unwritten s s'.
Proof.
  intros He Hs Hn Ht. repeat split; try assumption.
  unfold set_calls. rewrite Ht, filter_app. cbn. rewrite He. apply app_nil_r.
Qed.

Lemma unwritten_same (s s' : state) :
  storage s' = storage s -> nset s' = nset s -> trace s' = trace s -> unwritten s s'.
Proof. intros Hs Hn Ht. repeat split; congruence. Qed.

Lemma emit_unwritten (e : event) (s : state) :
  is_set_call e = false -> unwritten s (snd (emit e s)).
Proof. intros H. now apply (unwritten_event e). Qed.

Lemma store_unwritten (p : ptr) (i : Z) (b : byte) (s : state) :
  unwritten s (snd (store p i b s)).
Proof.
  unfold store. destruct (nth_error (heap s) p) as [blk|]; [|apply unwritten_refl].
  destruct ((0 <=? i) && (i <? Z.of_nat (List.length (bytes blk)))); cbn [snd].
  - now apply unwritten_same.
  - now apply (unwritten_event (Oob p i (List.length (bytes blk)))).
Qed.

Lemma store_bytes_unwritten (p : ptr) (bs : list byte) :
  forall (i : Z) (s : state), unwritten s (snd (store_bytes p i bs s)).
Proof.
  induction bs as [|b rest IH]; intros i s.
  - apply unwritten_refl.
  - cbn [store_bytes]. unfold bind.
    pose proof (store_unwritten p i b s) as H1.
    destruct (store p i b s) as [u s1]. cbn [snd] in H1.
    apply (unwritten_trans s s1); [exact H1 | apply IH].
Qed.

Lemma free_unwritten (p : ptr) (s : state) : unwritten s (snd (free p s)).
Proof. unfold free. now apply (unwritten_event (Free p)). Qed.

Lemma malloc_unwritten (o : oracle) (n : Z) (s : state) :
  unwritten s (snd (malloc o n s)).
Proof. unfold malloc. destruct (malloc_null o (nmalloc s)); now apply unwritten_same. Qed.

Lemma malloc_xattr_unwritten (o : oracle) (s : state) :
  unwritten s (snd (malloc_xattr o s)).
Proof. now apply unwritten_same. Qed.

Lemma extattr_list_fd_unwritten (o : oracle) (fd : Z) (data : option ptr) (n : Z)
      (s : state) :
  unwritten s (snd (extattr_list_fd o fd data n s)).
Proof.
  unfold extattr_list_fd.
  destruct (list_err o (nlist s)); [now apply unwritten_same|].
  destruct data as [p|]; cbn [snd]; [|now apply unwritten_same].
  apply (unwritten_trans s (set_nlist (S (nlist s)) s));
    [now apply unwritten_same | apply store_bytes_unwritten].
Qed.

Lemma extattr_get_fd_unwritten (o : oracle) (fd : Z) (nm : string) (data : option ptr)
      (n : Z) (s : state) :
  unwritten s (snd (extattr_get_fd o fd nm data n s)).
Proof.
  unfold extattr_get_fd.
  destruct (get_err o (nget s)); [now apply unwritten_same|].
  destruct (lookup nm (storage s)) as [v|]; [|now apply unwritten_same].
  destruct data as [p|]; cbn [snd]; [|now apply unwritten_same].
  apply (unwritten_trans s (set_nget (S (nget s)) s));
    [now apply unwritten_same | apply store_bytes_unwritten].
Qed.

Ltac unwritten_step o fd :=
  match goal with
  | |- context [store_bytes ?p ?i ?bs ?st] =>
      pose proof (store_bytes_unwritten p bs i st);
      destruct (store_bytes p i bs st) as [? ?]
  | |- context [store ?p ?i ?b ?st] =>
      pose proof (store_unwritten p i b st);
      destruct (store p i b st) as [? ?]
  | |- context [free ?p ?st] =>
      pose proof (free_unwritten p st);
      destruct (free p st) as [? ?]
  | |- context [emit ?e ?st] =>
      pose proof (emit_unwritten e st eq_refl);
      destruct (emit e st) as [? ?]
  | |- context [extattr_get_fd o fd ?nm ?d ?n ?st] =>
      pose proof (extattr_get_fd_unwritten o fd nm d n st);
      destruct (extattr_get_fd o fd nm d n st) as [? ?]
  | |- context [extattr_list_fd o fd ?d ?n ?st] =>
      pose proof (extattr_list_fd_unwritten o fd d n st);
      destruct (extattr_list_fd o fd d n st) as [? ?]
  | |- context [malloc o ?n ?st] =>
      pose proof (malloc_unwritten o n st);
      destruct (malloc o n st) as [[?|] ?]
  | |- context [malloc_xattr o ?st] =>
      pose proof (malloc_xattr_unwritten o st);
      destruct (malloc_xattr o st) as [? ?]
  | |- context [if ?c then _ else _] => destruct c eqn:?
  end; cbn [fst snd] in *.

Ltac unwritten_chain :=
  repeat match goal with
         | H : unwritten ?a ?b |- unwritten ?a _ =>
             apply (unwritten_trans a b); [exact H|]; clear H
         end;
  first [ apply unwritten_refl | now apply unwritten_same ].

Lemma fetch_entry_unwritten (o : oracle) (fd : Z) (buf : ptr) (i ch : Z) (s : state) :
  unwritten s (snd (fetch_entry o fd buf i ch s)).
Proof.
  unfold fetch_entry, warn, bind, gets, modify, mret.
  repeat unwritten_step o fd; unwritten_chain.
Qed.

Lemma ea_loop_unwritten (o : oracle) (fd : Z) (buf : ptr) (ret : Z) (fuel : nat) :
  forall (i : Z) (s : state), unwritten s (snd (ea_loop o fuel fd buf ret i s)).
Proof.
  induction fuel as [|fuel IH]; intros i s; cbn [ea_loop].
  - apply unwritten_refl.
  - destruct (i <? ret); [|apply unwritten_refl].
    unfold bind, gets.
    pose proof (fetch_entry_unwritten o fd buf i (Z.of_N (Byte.to_N (load s buf i))) s) as H.
    destruct (fetch_entry o fd buf i (Z.of_N (Byte.to_N (load s buf i))) s) as [u s1].
    apply (unwritten_trans s s1); [exact H | apply IH].
Qed.

Lemma get_extended_attributes_unwritten (o : oracle) (fd : Z) (s : state) :
  unwritten s (snd (get_extended_attributes o fd s)).
Proof.
  unfold get_extended_attributes, warn, bind, mret.
  repeat unwritten_step o fd; try unwritten_chain.
  match goal with
  | |- context [ea_loop o ?f fd ?b ?r ?i ?st] =>
      pose proof (ea_loop_unwritten o fd b r f i st);
      destruct (ea_loop o f fd b r i st) as [? ?]
  end.
  cbn [snd] in *. unwritten_chain.
Qed.

Lemma free_loop_unwritten (xs : list xattr) :
  forall s : state, unwritten s (snd (free_loop xs s)).
Proof.
  induction xs as [|x rest IH]; intros s; cbn [free_loop].
  - apply unwritten_refl.
  - unfold bind, modify.
    repeat unwritten_step quiet 0.
    eapply unwritten_trans; [|apply IH].
    eapply unwritten_trans;
      [apply (unwritten_same s (set_xlist rest s)); reflexivity|].
    unwritten_chain.
Qed.

(** The label [cleanup] and what follows write nothing. *)
Lemma cleanup_unwritten (fd : Z) (s : state) :
  unwritten s
    (snd ((unlink_afp_list ;; unlink_append_list ;; free_extended_attributes ;;
           (if 0 <? fd then emit (Close fd) else mret tt)) s)).
Proof.
  unfold unlink_afp_list, unlink_append_list, free_extended_attributes,
    bind, modify, gets, mret.
  set (s2 := set_append_list [] (set_afp_list [] s)).
  assert (U2 : unwritten s s2) by now apply unwritten_same.
  clearbody s2.
  pose proof (free_loop_unwritten (xlist s2) s2) as U3.
  destruct (free_loop (xlist s2) s2) as [u3 s3]. cbn [snd] in U3.
  destruct (0 <? fd).
  - pose proof (emit_unwritten (Close fd) s3 eq_refl) as U4.
    destruct (emit (Close fd) s3) as [u4 s4]. cbn [snd] in *.
    unwritten_chain.
  - cbn [snd]. unwritten_chain.
Qed.

(** X8.  [get_extended_attributes] never writes to the object: whatever
    fails, it makes no call of [extattr_set_fd] and leaves the stored
    attributes as they were. *)
Theorem get_extended_attributes_never_writes (o : oracle) (fd : Z) (s : state) :
  storage (snd (get_extended_attributes o fd s)) = storage s /\
  nset (snd (get_extended_attributes o fd s)) = nset s /\
  set_calls (trace (snd (get_extended_attributes o fd s))) = set_calls (trace s).
Proof. exact (get_extended_attributes_unwritten o fd s). Qed.

(** [do_ea_stuff_single] as the part before the label followed by the
    cleanup. *)
Lemma do_ea_stuff_single_split (o : oracle) (path : string) (attr : option string)
      (flags : Z) (s : state) :
  let body := do_ea_stuff_body o (open_result o) path attr flags
                (set_append_list [] (set_afp_list [] (set_xlist [] s))) in
  do_ea_stuff_single o path attr flags s
  = (fst body,
     snd ((unlink_afp_list ;; unlink_append_list ;; free_extended_attributes ;;
           (if 0 <? open_result o then emit (Close (open_result o)) else mret tt))
            (snd body))).
Proof.
  cbv zeta. unfold do_ea_stuff_single, bind, modify, mret.
  destruct (do_ea_stuff_body o (open_result o) path attr flags
              (set_append_list [] (set_afp_list [] (set_xlist [] s)))) as [ret s1].
  cbn [fst snd].
  destruct (unlink_afp_list s1) as [u2 s2].
  destruct (unlink_append_list s2) as [u3 s3].
  destruct (free_extended_attributes s3) as [u4 s4].
  now destruct ((if 0 <? open_result o
                 then emit (Close (open_result o)) else fun s0 => (tt, s0)) s4).
Qed.

(** X9.  When [open] succeeds and the name list can be sized but the
    buffer for it cannot be allocated, or the list cannot be fetched into
    it, [do_ea_stuff_single] returns [EX_DATAERR] whatever the flags are,
    without any call of [extattr_set_fd] and with the stored attributes as
    they were. *)
Theorem do_ea_stuff_single_read_fails (o : oracle) (path : string)
        (attr : option string) (flags : Z) (s : state) :
  0 <= open_result o ->
  Z.of_nat (List.length (listing (storage s))) < 2 ^ 31 ->
  list_err o (nlist s) = false ->
  malloc_null o (nmalloc s) = true \/ list_err o (S (nlist s)) = true ->
  fst (do_ea_stuff_single o path attr flags s) = EX_DATAERR /\
  unwritten s (snd (do_ea_stuff_single o path attr flags s)).
Proof.
  intros Hfd Hlen Hsize Hfail.
  rewrite do_ea_stuff_single_split. cbn [fst snd].
  set (s0 := set_append_list [] (set_afp_list [] (set_xlist [] s))).
  assert (U0 : unwritten s s0) by now apply unwritten_same.
  assert (R : fst (get_extended_attributes o (open_result o) s0) = -1).
  { rewrite get_extended_attributes_result by exact Hlen.
    change (nlist s0) with (nlist s). change (nmalloc s0) with (nmalloc s).
    rewrite Hsize. destruct Hfail as [-> | ->]; [reflexivity|].
    now destruct (malloc_null o (nmalloc s)). }
  pose proof (get_extended_attributes_unwritten o (open_result o) s0) as U1.
  clearbody s0.
  unfold do_ea_stuff_body, bind, mret.
  replace (open_result o <? 0) with false by (symmetry; apply Z.ltb_ge; lia).
  destruct (get_extended_attributes o (open_result o) s0) as [r s1].
  cbn [fst snd] in *. subst r. cbn [Z.ltb Z.compare fst snd].
  split; [reflexivity|].
  eapply unwritten_trans; [exact U0|].
  eapply unwritten_trans; [exact U1|].
  apply cleanup_unwritten.
Qed.

Lemma do_ea_stuff_single_read_fails_witness :
  fst (do_ea_stuff_single second_list_fails "/f" None 0x19 (initial scenario_A))
  = EX_DATAERR /\
  unwritten (initial scenario_A)
            (snd (do_ea_stuff_single second_list_fails "/f" None 0x19
                                     (initial scenario_A))).
Proof.
  apply (do_ea_stuff_single_read_fails second_list_fails "/f" None 0x19
           (initial scenario_A)).
  - vm_compute. discriminate.
  - vm_compute. reflexivity.
  - reflexivity.
  - right. reflexivity.
Defined.

(** Without the append flag, or in a dry run, a turn of [fix_append_list]
    only prints and never leaves the loop. *)
Lemma fix_append_turn_readonly (o : oracle) (fd : Z) (path : string) (flags : Z)
      (idx : nat) (x : xattr) (ret setret : Z) (s : state) :
  has flags F_APPEND_NULL = false \/ has flags F_DRY_RUN = true ->
  exists t r,
    fix_append_turn o fd path flags idx x ret setret s
    = (inr r, set_trace (trace s ++ t) s) /\
    set_calls t = [].
Proof.
  intros [Happ | Hdry]; [|now apply fix_append_turn_dry_run].
  unfold fix_append_turn.
  after_debug_dump flags path s x t1 S1 R1.
  rewrite Happ. unfold mret. now exists t1, (ret, setret).
Qed.

Lemma fix_append_loop_readonly (o : oracle) (fd : Z) (path : string) (flags : Z) :
  has flags F_APPEND_NULL = false \/ has flags F_DRY_RUN = true ->
  forall (view : list nat) (ret setret : Z) (s : state),
    exists t,
      snd (fix_append_loop o fd path flags view ret setret s)
      = set_trace (trace s ++ t) s /\
      set_calls t = [].
Proof.
  intros Hmode. induction view as [|idx rest IH]; intros ret setret s.
  - exists []. cbn. now rewrite set_trace_nil.
  - cbn [fix_append_loop]. unfold bind at 1. unfold gets at 1.
    destruct (nth_error (xlist s) idx) as [x|]; [|apply IH].
    unfold bind.
    destruct (fix_append_turn_readonly o fd path flags idx x ret setret s Hmode)
      as [t1 [[ret' setret'] [E1 S1]]].
    rewrite E1.
    destruct (IH ret' setret' (set_trace (trace s ++ t1) s)) as [t2 [E2 S2]].
    exists (t1 ++ t2). rewrite E2, set_trace_app. split; [reflexivity|].
    now rewrite set_calls_app, S1, S2.
Qed.

Lemma unwritten_printing (s : state) (t : list event) :
  set_calls t = [] -> unwritten s (set_trace (trace s ++ t) s).
Proof.
  intros St. repeat split. cbn. now rewrite set_calls_app, St, app_nil_r.
Qed.

Lemma get_afp_list_unwritten (s : state) : unwritten s (snd (get_afp_list s)).
Proof.
  destruct (get_afp_list_spec s) as (sel & E & _). rewrite E.
  now apply unwritten_same.
Qed.

Lemma get_append_loop_unwritten (attr : option string) (xs : list xattr) :
  forall (i : nat) (s : state), unwritten s (snd (get_append_loop attr i xs s)).
Proof.
  destruct attr as [a|]; intros i s.
  - destruct (get_append_loop_named a xs i s) as (sel & E & _). rewrite E.
    now apply unwritten_same.
  - rewrite get_append_loop_all. now apply unwritten_same.
Qed.

Lemma get_append_list_unwritten (attr : option string) (s : state) :
  unwritten s (snd (get_append_list attr s)).
Proof.
  unfold get_append_list, bind, gets, mret.
  pose proof (get_append_loop_unwritten attr (xlist s) 0 s) as H.
  now destruct (get_append_loop attr 0 (xlist s) s).
Qed.

Lemma do_ea_stuff_body_unwritten (o : oracle) (fd : Z) (path : string)
      (attr : option string) (flags : Z) (s : state) :
  has flags F_DRY_RUN = true \/
  (has flags F_FIX_AFP_EA = false /\ has flags F_APPEND_NULL = false) ->
  unwritten s (snd (do_ea_stuff_body o fd path attr flags s)).
Proof.
  intros Hmode.
  assert (Hafp : has flags F_FIX_AFP_EA = false \/ has flags F_DRY_RUN = true)
    by (destruct Hmode as [H | [H _]]; auto).
  assert (Happ : has flags F_APPEND_NULL = false \/ has flags F_DRY_RUN = true)
    by (destruct Hmode as [H | [_ H]]; auto).
  assert (Hrep : forall s2, unwritten s2 (snd (fix_afp_list o fd path flags s2))).
  { intros s2. unfold fix_afp_list, bind, gets.
    destruct (fix_afp_loop_readonly o fd path flags Hafp (afp_list s2) 0 0 s2)
      as [t [E St]].
    rewrite E. now apply unwritten_printing. }
  assert (Hadd : forall s4, unwritten s4 (snd (fix_append_list o fd path flags s4))).
  { intros s4. unfold fix_append_list, bind, gets.
    destruct (fix_append_loop_readonly o fd path flags Happ (append_list s4) 0 0 s4)
      as [t [E St]].
    rewrite E. now apply unwritten_printing. }
  unfold do_ea_stuff_body, warn, bind, mret.
  destruct (fd <? 0); [now apply emit_unwritten|].
  pose proof (get_extended_attributes_unwritten o fd s) as H1.
  destruct (get_extended_attributes o fd s) as [r s1]. cbn [snd] in H1.
  destruct (r <? 0); [exact H1|].
  assert (Htail : forall s3, unwritten s s3 ->
            forall ret,
              unwritten s
                (snd ((if has flags F_APPEND_NULL_ALL || has flags F_APPEND_NULL
                       then
                         fun s0 =>
                           let (_, s') := get_append_list attr s0 in
                           let (a, s'0) := fix_append_list o fd path flags s' in
                           (if a <? 0
                            then fun s5 => (EX_DATAERR, s5)
                            else fun s5 => (a, s5)) s'0
                       else fun s0 => (ret, s0)) s3))).
  { intros s3 H3 ret.
    destruct (has flags F_APPEND_NULL_ALL || has flags F_APPEND_NULL); [|exact H3].
    pose proof (get_append_list_unwritten attr s3) as H4.
    destruct (get_append_list attr s3) as [u4 s4]. cbn [snd] in H4.
    pose proof (Hadd s4) as H5.
    destruct (fix_append_list o fd path flags s4) as [r5 s5]. cbn [snd] in H5.
    destruct (r5 <? 0); cbn [snd]; unwritten_chain. }
  destruct (has flags F_CHECK_AFP_EA || has flags F_FIX_AFP_EA).
  - pose proof (get_afp_list_unwritten s1) as H2.
    destruct (get_afp_list s1) as [u2 s2]. cbn [snd] in H2.
    pose proof (Hrep s2) as H3.
    destruct (fix_afp_list o fd path flags s2) as [r3 s3]. cbn [snd] in H3.
    destruct (r3 <? 0); cbn [snd]; [unwritten_chain|].
    apply Htail. unwritten_chain.
  - apply Htail. exact H1.
Qed.

(** X10.  In a dry run, and also when neither the fix nor the append flag
    is set, [do_ea_stuff_single] writes nothing to the object, whatever the
    object holds and whatever fails: it makes no call of [extattr_set_fd]
    and the stored attributes are as they were. *)
Theorem do_ea_stuff_single_never_writes (o : oracle) (path : string)
        (attr : option string) (flags : Z) (s : state) :
  has flags F_DRY_RUN = true \/
  (has flags F_FIX_AFP_EA = false /\ has flags F_APPEND_NULL = false) ->
  unwritten s (snd (do_ea_stuff_single o path attr flags s)).
Proof.
  intros Hmode. rewrite do_ea_stuff_single_split. cbn [snd].
  set (s0 := set_append_list [] (set_afp_list [] (set_xlist [] s))).
  assert (U0 : unwritten s s0) by now apply unwritten_same.
  clearbody s0.
  pose proof (do_ea_stuff_body_unwritten o (open_result o) path attr flags s0 Hmode) as U1.
  eapply unwritten_trans; [exact U0|].
  eapply unwritten_trans; [exact U1|].
  apply cleanup_unwritten.
Qed.

Lemma do_ea_stuff_single_never_writes_witness :
  unwritten (initial two_attributes)
            (snd (do_ea_stuff_single first_set_fails "/f" None 0x7f
                                     (initial two_attributes))).
Proof.
  apply (do_ea_stuff_single_never_writes first_set_fails "/f" None 0x7f
           (initial two_attributes)).
  left. vm_compute. reflexivity.
Defined.

(** ** free_extended_attributes *)

Lemma free_heap (p q : ptr) (s : state) :
  nth_error (heap (snd (free p s))) q
  = if Nat.eqb q p then option_map kill (nth_error (heap s) q)
    else nth_error (heap s) q.
Proof.
  unfold free. cbn [snd heap set_trace set_heap].
  destruct (Nat.eqb q p) eqn:Hq.
  - apply Nat.eqb_eq in Hq. subst q.
    destruct (nth_error (heap s) p) as [blk|] eqn:Hp.
    + rewrite nth_error_upd_same by (apply nth_error_Some; congruence). reflexivity.
    + now rewrite Hp.
  - apply Nat.eqb_neq in Hq.
    destruct (nth_error (heap s) p) as [blk|]; [|reflexivity].
    now rewrite nth_error_upd_other by congruence.
Qed.

Lemma option_map_kill_idem (ob : option block) :
  option_map kill (option_map kill ob) = option_map kill ob.
Proof. now destruct ob. Qed.

Lemma free_loop_spec (xs : list xattr) :
  forall s : state,
    let s' := snd (free_loop xs s) in
    xlist s' = match xs with [] => xlist s | _ => [] end /\
    trace s' = trace s ++ releases xs /\
    storage s' = storage s /\
    forall q,
      nth_error (heap s') q
      = if existsb (Nat.eqb q) (buffers_of xs)
        then option_map kill (nth_error (heap s) q)
        else nth_error (heap s) q.
Proof.
  induction xs as [|x rest IH]; intros s; cbn zeta.
  - cbn. rewrite app_nil_r. repeat split.
  - cbn [free_loop]. unfold emit, bind, modify.
    pose proof (fun q => free_heap (name x) q (set_xlist rest s)) as H1.
    assert (T1 : trace (snd (free (name x) (set_xlist rest s))) = trace s ++ [Free (name x)])
      by reflexivity.
    assert (X1 : xlist (snd (free (name x) (set_xlist rest s))) = rest) by reflexivity.
    assert (S1 : storage (snd (free (name x) (set_xlist rest s))) = storage s)
      by reflexivity.
    destruct (free (name x) (set_xlist rest s)) as [u1 s1]. cbn [snd] in *.
    pose proof (fun q => free_heap (value x) q s1) as H2.
    assert (T2 : trace (snd (free (value x) s1)) = trace s1 ++ [Free (value x)])
      by reflexivity.
    assert (X2 : xlist (snd (free (value x) s1)) = xlist s1) by reflexivity.
    assert (S2 : storage (snd (free (value x) s1)) = storage s1) by reflexivity.
    destruct (free (value x) s1) as [u2 s2]. cbn [snd] in *.
    destruct (IH (set_trace (trace s2 ++ [FreeRec x]) s2)) as (X3 & T3 & S3 & H3).
    cbv beta iota zeta in *. split; [|split; [|split]].
    + rewrite X3. cbn [xlist set_trace]. rewrite X2, X1. now destruct rest.
    + rewrite T3. cbn [trace set_trace]. rewrite T2, T1.
      unfold releases. cbn [flat_map]. rewrite <- !app_assoc. reflexivity.
    + rewrite S3. cbn [storage set_trace]. congruence.
    + intros q. rewrite H3. cbn [heap set_trace]. rewrite H2, H1.
      cbn [heap set_xlist buffers_of flat_map app existsb].
      fold (buffers_of rest).
      destruct (Nat.eqb q (name x)), (Nat.eqb q (value x)),
        (existsb (Nat.eqb q) (buffers_of rest)); cbn [orb];
        rewrite ?option_map_kill_idem; reflexivity.
Qed.

(** X11.  [free_extended_attributes] empties [xlist] and releases every
    record of it, in list order: one [free] of the name, one of the value
    and one of the record, and no other.  The blocks it frees keep their
    bytes, every other block is as it was, and the stored attributes are
    not touched. *)
Theorem free_extended_attributes_releases (s : state) :
  let s' := snd (free_extended_attributes s) in
  xlist s' = [] /\
  trace s' = trace s ++ releases (xlist s) /\
  storage s' = storage s /\
  forall q,
    nth_error (heap s') q
    = if existsb (Nat.eqb q) (buffers_of (xlist s))
      then option_map kill (nth_error (heap s) q)
      else nth_error (heap s) q.
Proof.
  cbv zeta. unfold free_extended_attributes, bind, gets.
  destruct (free_loop_spec (xlist s) s) as (X & T & S & H).
  cbv zeta in *. repeat split; try assumption.
  rewrite X. now destruct (xlist s).
Qed.

(** ** Stores and frees past a prefix of the heap *)

Lemma upd_app2 {A} (l1 l2 : list A) (i : nat) (x : A) :
  (List.length l1 <= i)%nat -> upd i x (l1 ++ l2) = l1 ++ upd (i - List.length l1) x l2.
Proof.
  revert i. induction l1 as [|h t IH]; intros i Hi; cbn in *.
  - now rewrite Nat.sub_0_r.
  - destruct i as [|i]; [lia|]. cbn. f_equal. apply IH. lia.
Qed.

Lemma ext_of_refl (s : state) : ext_of (heap s) s.
Proof. exists []. now rewrite app_nil_r. Qed.

Lemma ext_of_same (h0 : list block) (s s' : state) :
  heap s' = heap s -> ext_of h0 s -> ext_of h0 s'.
Proof. intros H [ext E]. exists ext. congruence. Qed.

Lemma ext_of_nth_error (h0 : list block) (s : state) (q : ptr) :
  ext_of h0 s -> (q < List.length h0)%nat -> nth_error (heap s) q = nth_error h0 q.
Proof. intros [ext E] Hq. rewrite E. now apply nth_error_app1. Qed.

Lemma store_ext (h0 : list block) (p : ptr) (i : Z) (b : byte) (s : state) :
  (List.length h0 <= p)%nat -> ext_of h0 s -> ext_of h0 (snd (store p i b s)).
Proof.
  intros Hp [ext E]. unfold store.
  destruct (nth_error (heap s) p) as [blk|]; [|now exists ext].
  destruct ((0 <=? i) && (i <? Z.of_nat (List.length (bytes blk)))); [|now exists ext].
  cbn [snd heap set_heap]. rewrite E, upd_app2 by exact Hp. now eexists.
Qed.

Lemma store_bytes_ext (h0 : list block) (p : ptr) (bs : list byte) :
  forall (i : Z) (s : state),
    (List.length h0 <= p)%nat -> ext_of h0 s -> ext_of h0 (snd (store_bytes p i bs s)).
Proof.
  induction bs as [|b rest IH]; intros i s Hp He; [exact He|].
  cbn [store_bytes]. unfold bind.
  pose proof (store_ext h0 p i b s Hp He) as H1.
  destruct (store p i b s) as [u s1]. cbn [snd] in H1.
  now apply IH.
Qed.

Lemma free_ext (h0 : list block) (p : ptr) (s : state) :
  (List.length h0 <= p)%nat -> ext_of h0 s -> ext_of h0 (snd (free p s)).
Proof.
  intros Hp [ext E]. unfold free. cbn [snd heap set_trace set_heap].
  destruct (nth_error (heap s) p) as [blk|]; [|now exists ext].
  rewrite E, upd_app2 by exact Hp. now eexists.
Qed.

Lemma emit_ext (h0 : list block) (e : event) (s : state) :
  ext_of h0 s -> ext_of h0 (snd (emit e s)).
Proof. now apply ext_of_same. Qed.

Lemma malloc_ext (h0 : list block) (o : oracle) (n : Z) (s : state) :
  ext_of h0 s ->
  ext_of h0 (snd (malloc o n s)) /\
  forall p, fst (malloc o n s) = Some p -> (List.length h0 <= p)%nat.
Proof.
  intros [ext E]. unfold malloc. destruct (malloc_null o (nmalloc s)); cbn [fst snd].
  - split; [now exists ext | discriminate].
  - split.
    + cbn [heap set_nmalloc set_heap set_room]. rewrite E, <- app_assoc. now eexists.
    + intros p [= <-]. rewrite E, length_app. lia.
Qed.

Lemma malloc_xattr_ext (h0 : list block) (o : oracle) (s : state) :
  ext_of h0 s -> ext_of h0 (snd (malloc_xattr o s)).
Proof. now apply ext_of_same. Qed.

Lemma extattr_get_fd_ext (h0 : list block) (o : oracle) (fd : Z) (nm : string)
      (data : option ptr) (n : Z) (s : state) :
  (forall p, data = Some p -> (List.length h0 <= p)%nat) ->
  ext_of h0 s -> ext_of h0 (snd (extattr_get_fd o fd nm data n s)).
Proof.
  intros Hp He. unfold extattr_get_fd.
  destruct (get_err o (nget s)); [now apply (ext_of_same h0 s)|].
  destruct (lookup nm (storage s)) as [v|]; [|now apply (ext_of_same h0 s)].
  destruct data as [p|]; cbn [snd]; [|now apply (ext_of_same h0 s)].
  apply store_bytes_ext; [now apply Hp|]. now apply (ext_of_same h0 s).
Qed.

Ltac ext_step h0 o fd :=
  match goal with
  | He : ext_of h0 ?st |- context [store_bytes ?p ?i ?bs ?st] =>
      let Hb := fresh "Hb" in
      assert (Hb : (List.length h0 <= p)%nat) by assumption;
      pose proof (store_bytes_ext h0 p bs i st Hb He); clear Hb;
      destruct (store_bytes p i bs st) as [? ?]
  | He : ext_of h0 ?st |- context [store ?p ?i ?b ?st] =>
      let Hb := fresh "Hb" in
      assert (Hb : (List.length h0 <= p)%nat) by assumption;
      pose proof (store_ext h0 p i b st Hb He); clear Hb;
      destruct (store p i b st) as [? ?]
  | He : ext_of h0 ?st |- context [free ?p ?st] =>
      let Hb := fresh "Hb" in
      assert (Hb : (List.length h0 <= p)%nat) by assumption;
      pose proof (free_ext h0 p st Hb He); clear Hb;
      destruct (free p st) as [? ?]
  | He : ext_of h0 ?st |- context [emit ?e ?st] =>
      pose proof (emit_ext h0 e st He);
      destruct (emit e st) as [? ?]
  | He : ext_of h0 ?st |- context [extattr_get_fd o fd ?nm None ?n ?st] =>
      pose proof (extattr_get_fd_ext h0 o fd nm None n st
                    (fun p (H : None = Some p) => False_ind _ (eq_ind None
                       (fun e => match e with None => True | Some _ => False end)
                       I (Some p) H)) He);
      destruct (extattr_get_fd o fd nm None n st) as [? ?]
  | He : ext_of h0 ?st, Hb : (List.length h0 <= ?q)%nat
    |- context [extattr_get_fd o fd ?nm (Some ?q) ?n ?st] =>
      pose proof (extattr_get_fd_ext h0 o fd nm (Some q) n st
                    (fun p (H : Some q = Some p) =>
                       eq_ind q (fun r => (List.length h0 <= r)%nat) Hb p
                              (f_equal (fun e => match e with Some r => r | None => q end) H))
                    He);
      destruct (extattr_get_fd o fd nm (Some q) n st) as [? ?]
  | He : ext_of h0 ?st |- context [malloc o ?n ?st] =>
      let H := fresh "H" in
      pose proof (malloc_ext h0 o n st He) as [? H];
      destruct (malloc o n st) as [[?|] ?];
      [specialize (H _ eq_refl) | clear H]
  | He : ext_of h0 ?st |- context [malloc_xattr o ?st] =>
      pose proof (malloc_xattr_ext h0 o st He);
      destruct (malloc_xattr o st) as [? ?]
  | |- context [if ?c then _ else _] => destruct c eqn:?
  end; cbn [fst snd] in *.

(** ** Reading in full: what get_extended_attributes builds (C8) *)

Lemma length_list_byte_of_string (nm : string) :
  List.length (list_byte_of_string nm) = String.length nm.
Proof.
  unfold list_byte_of_string. rewrite length_map.
  induction nm as [|a t IH]; cbn; [reflexivity | now rewrite IH].
Qed.

Lemma until_nul_plain (bs : list byte) :
  forallb (fun b => negb (Byte.eqb b x00)) bs = true -> until_nul bs = bs.
Proof.
  induction bs as [|b t IH]; cbn; [reflexivity|].
  intros H. apply andb_true_iff in H as [Hb Ht].
  destruct (Byte.eqb b x00); [discriminate|]. now rewrite IH.
Qed.

Lemma strncpy_image_plain (bs : list byte) :
  forallb (fun b => negb (Byte.eqb b x00)) bs = true ->
  strncpy_image bs (Z.of_nat (List.length bs)) = bs.
Proof.
  intros H. unfold strncpy_image. rewrite Nat2Z.id, firstn_all, until_nul_plain by exact H.
  rewrite Nat.sub_diag. apply app_nil_r.
Qed.

Lemma byte_of_nat_small (n : nat) :
  (n <= 255)%nat -> Z.of_N (Byte.to_N (byte_of_nat n)) = Z.of_nat n.
Proof.
  intros H. unfold byte_of_nat. rewrite Nat.mod_small by lia.
  destruct (Byte.of_nat n) as [b|] eqn:E.
  - apply Byte.to_of_nat in E. rewrite Byte.to_N_via_nat, E. lia.
  - apply Byte.of_nat_None_iff in E. lia.
Qed.

Lemma upd_same {A} (l : list A) :
  forall (i : nat) (x : A), nth_error l i = Some x -> upd i x l = l.
Proof.
  induction l as [|h t IH]; intros [|i] x H; cbn in *; try discriminate.
  - now injection H as ->.
  - f_equal. now apply IH.
Qed.

Lemma upd_upd {A} (l : list A) :
  forall (i : nat) (x y : A), upd i y (upd i x l) = upd i y l.
Proof.
  induction l as [|h t IH]; intros [|i] x y; cbn; try reflexivity.
  now rewrite IH.
Qed.

Lemma set_heap_same (s : state) : set_heap (heap s) s = s.
Proof. now destruct s. Qed.

(** Stores that stay inside a block change that block only, and nothing is
    recorded. *)
Lemma store_bytes_inside (p : ptr) (bs : list byte) :
  forall (i : nat) (s : state) (blk : block),
    nth_error (heap s) p = Some blk ->
    (i + List.length bs <= List.length (bytes blk))%nat ->
    store_bytes p (Z.of_nat i) bs s
    = (tt, set_heap (upd p (mkBlock (firstn i (bytes blk) ++ bs ++
                                      skipn (i + List.length bs) (bytes blk))
                                    (live blk)) (heap s)) s).
Proof.
  intros i s blk Hp Hlen.
  assert (G : forall bs i s blk,
             nth_error (heap s) p = Some blk ->
             (i + List.length bs <= List.length (bytes blk))%nat ->
             store_bytes p (Z.of_nat i) bs s
             = (tt, set_heap (upd p (mkBlock
                                       (block_bytes (snd (store_bytes p (Z.of_nat i) bs s)) p)
                                       (live blk)) (heap s)) s)).
  { clear. induction bs as [|b rest IH]; intros i s blk Hp Hlen.
    - cbn. unfold mret, block_bytes. rewrite Hp.
      destruct blk as [bb lv]. cbn [bytes live].
      now rewrite upd_same, set_heap_same.
    - cbn [store_bytes List.length] in *. unfold bind.
      unfold store. rewrite Hp.
      replace ((0 <=? Z.of_nat i) && (Z.of_nat i <? Z.of_nat (List.length (bytes blk))))
        with true
        by (symmetry; apply andb_true_iff; split; [apply Z.leb_le | apply Z.ltb_lt]; lia).
      rewrite Nat2Z.id.
      set (blk1 := mkBlock (upd i b (bytes blk)) (live blk)).
      set (s1 := set_heap (upd p blk1 (heap s)) s).
      replace (Z.of_nat i + 1) with (Z.of_nat (S i)) by lia.
      assert (Hp1 : nth_error (heap s1) p = Some blk1).
      { subst s1. cbn [heap set_heap]. apply nth_error_upd_same.
        apply nth_error_Some. congruence. }
      rewrite (IH (S i) s1 blk1 Hp1) at 1
        by (subst blk1; cbn [bytes]; rewrite upd_length; lia).
      subst s1 blk1. cbn [heap set_heap live]. rewrite upd_upd.
      now destruct s. }
  rewrite (G bs i s blk Hp Hlen) at 1.
  rewrite store_bytes_block_bytes by (unfold block_bytes; rewrite Hp; exact Hlen).
  unfold block_bytes. now rewrite Hp.
Qed.

Lemma store_bytes_fill (p : ptr) (bs old : list byte) (l : bool) (s : state) :
  nth_error (heap s) p = Some (mkBlock old l) ->
  List.length bs = List.length old ->
  store_bytes p 0 bs s = (tt, set_heap (upd p (mkBlock bs l) (heap s)) s).
Proof.
  intros Hp Hlen.
  change 0 with (Z.of_nat 0).
  rewrite (store_bytes_inside p bs 0 s _ Hp) by (cbn; lia).
  cbn [bytes live firstn app Nat.add]. rewrite Hlen, skipn_all, app_nil_r. reflexivity.
Qed.

Lemma nth_error_snoc {A} (l : list A) (x : A) (r : list A) :
  nth_error (l ++ x :: r) (List.length l) = Some x.
Proof. now rewrite nth_error_app2, Nat.sub_diag by lia. Qed.

Lemma upd_snoc {A} (l : list A) (x y : A) (r : list A) :
  upd (List.length l) y (l ++ x :: r) = l ++ y :: r.
Proof. rewrite upd_app2 by lia. now rewrite Nat.sub_diag. Qed.

Lemma until_nul_terminated (bs rest : list byte) :
  forallb (fun b => negb (Byte.eqb b x00)) bs = true ->
  until_nul (bs ++ x00 :: rest) = bs.
Proof.
  induction bs as [|b t IH]; cbn; [reflexivity|].
  intros H. apply andb_true_iff in H as [Hb Ht].
  destruct (Byte.eqb b x00); [discriminate|]. now rewrite IH.
Qed.

(** A name block that holds the bytes of a name, with the terminator behind
    it, reads as that name. *)
Lemma cstr_plain (s : state) (p : ptr) (nm : string) (l : bool) :
  nth_error (heap s) p = Some (mkBlock (list_byte_of_string nm) l) ->
  hd_error (room_of s p) = Some x00 ->
  forallb (fun b => negb (Byte.eqb b x00)) (list_byte_of_string nm) = true ->
  cstr s p = nm.
Proof.
  intros Hp Hr Hn. unfold cstr, block_bytes. rewrite Hp. cbn [bytes].
  destruct (room_of s p) as [|b r]; [discriminate|]. injection Hr as ->.
  now rewrite until_nul_terminated, string_of_list_byte_of_string.
Qed.

Lemma room_of_cons (p q : ptr) (bs : list byte) (rm : list (ptr * list byte))
      (s : state) :
  room s = (p, bs) :: rm ->
  room_of s q = if Nat.eqb p q then bs
                else match find (fun e => Nat.eqb (fst e) q) rm with
                     | Some e => snd e
                     | None => []
                     end.
Proof.
  intros E. unfold room_of. rewrite E. cbn [find fst snd].
  now destruct (Nat.eqb p q).
Qed.

(** The terminator stored at index [n] of an [n]-byte block just allocated
    lands in its room. *)
Lemma spill_terminator (p : ptr) (n : nat) (b : byte) (pad : list byte)
      (rm : list (ptr * list byte)) (s : state) :
  room s = (p, pad) :: rm ->
  (1 <= List.length pad)%nat ->
  spill p (Z.of_nat n) n b s = (p, b :: tl pad) :: (p, pad) :: rm.
Proof.
  intros E Hlen. unfold spill. rewrite (room_of_cons p p pad rm s E), Nat.eqb_refl.
  rewrite Z.sub_diag. change (Z.to_nat 0) with 0%nat.
  replace (0 <=? Z.of_nat n) with true by (symmetry; apply Z.leb_le; lia).
  replace (0 <? List.length pad)%nat with true by (symmetry; apply Nat.ltb_lt; lia).
  cbn [andb]. rewrite E. destruct pad; [cbn in Hlen; lia|]. reflexivity.
Qed.

Lemma find_added (q : ptr) (added rm : list (ptr * list byte)) (n : nat) :
  Forall (fun e => (n <= fst e)%nat) added ->
  (q < n)%nat ->
  find (fun e => Nat.eqb (fst e) q) (added ++ rm) = find (fun e => Nat.eqb (fst e) q) rm.
Proof.
  intros Hf Hq. induction Hf as [|e added He Hf IH]; [reflexivity|].
  cbn [app find]. replace (Nat.eqb (fst e) q) with false; [exact IH|].
  symmetry. apply Nat.eqb_neq. lia.
Qed.

Lemma extends_refl (s : state) : extends s s.
Proof. exists [], []. now rewrite app_nil_r. Qed.

Lemma extends_trans (s s1 s2 : state) : extends s s1 -> extends s1 s2 -> extends s s2.
Proof.
  intros (e1 & a1 & H1 & R1 & F1) (e2 & a2 & H2 & R2 & F2).
  exists (e1 ++ e2), (a2 ++ a1). split; [now rewrite H2, H1, app_assoc|].
  split; [now rewrite R2, R1, app_assoc|].
  apply Forall_app. split; [|exact F1].
  revert F2. apply Forall_impl. intros e He. rewrite H1, length_app in He. lia.
Qed.

Lemma extends_nth_error (s s' : state) (q : ptr) (blk : block) :
  extends s s' -> nth_error (heap s) q = Some blk -> nth_error (heap s') q = Some blk.
Proof.
  intros (ext & added & H & _) Hq. rewrite H.
  rewrite nth_error_app1 by (apply nth_error_Some; congruence). exact Hq.
Qed.

Lemma extends_room_of (s s' : state) (q : ptr) :
  extends s s' -> (q < List.length (heap s))%nat -> room_of s' q = room_of s q.
Proof.
  intros (ext & added & _ & R & F) Hq. unfold room_of.
  now rewrite R, (find_added q added (room s) _ F Hq).
Qed.

Lemma holds_extends (s s' : state) (x : xattr) (e : string * list byte) :
  extends s s' -> holds s x e -> holds s' x e.
Proof.
  intros He (Hn & Hr & Hv & Hl). repeat split.
  - now apply (extends_nth_error s s').
  - rewrite (extends_room_of s s' _ He); [exact Hr|].
    apply nth_error_Some. congruence.
  - now apply (extends_nth_error s s').
  - exact Hl.
Qed.

Lemma above_weaken (h ext : list block) (xs : list xattr) :
  Forall (above (h ++ ext)) xs -> Forall (above h) xs.
Proof.
  apply Forall_impl. intros x [Hn Hv]. rewrite length_app in *. split; lia.
Qed.

Lemma extends_above (s s' : state) (xs : list xattr) :
  extends s s' -> Forall (above (heap s')) xs -> Forall (above (heap s)) xs.
Proof.
  intros (ext & added & H & _). rewrite H. apply above_weaken.
Qed.

Ltac state_norm :=
  cbv [heap xlist afp_list append_list storage trace nmalloc nlist nget nset room
       set_heap set_xlist set_afp_list set_append_list set_storage set_trace
       set_nmalloc set_nlist set_nget set_nset set_room fst snd].

Lemma fetch_entry_turn (o : oracle) (fd : Z) (buf : ptr) (i : Z) (nm : string)
      (v : list byte) (bblk : block) (s : state) :
  roomy o -> plain nm = true ->
  lookup nm (storage s) = Some v ->
  Z.of_nat (List.length v) < 2 ^ 31 ->
  nth_error (heap s) buf = Some bblk ->
  firstn (String.length nm) (skipn (Z.to_nat (i + 1)) (bytes bblk))
  = list_byte_of_string nm ->
  let x := mkXattr (List.length (heap s)) (S (List.length (heap s)))
                   (Z.of_nat (List.length v)) in
  let acq := acquire o (nmalloc s) (nget s) nm in
  exists s',
    fetch_entry o fd buf i (Z.of_nat (String.length nm)) s = (tt, s') /\
    extends s s' /\
    storage s' = storage s /\
    nmalloc s' = (nmalloc s + snd (fst acq))%nat /\
    nget s' = (nget s + snd acq)%nat /\
    xlist s' = xlist s ++ (if fst (fst acq) then [x] else []) /\
    (fst (fst acq) = true -> holds s' x (nm, v)).
Proof.
  intros Hroom Hpl Hv Hsmall Hbuf Hsrc.
  apply andb_true_iff in Hpl as [Hpl Hnul]. apply Nat.leb_le in Hpl.
  cbv zeta.
  set (P := fun r : unit * state =>
              extends s (snd r) /\
              storage (snd r) = storage s /\
              nmalloc (snd r)
              = (nmalloc s + snd (fst (acquire o (nmalloc s) (nget s) nm)))%nat /\
              nget (snd r) = (nget s + snd (acquire o (nmalloc s) (nget s) nm))%nat /\
              xlist (snd r)
              = xlist s ++ (if fst (fst (acquire o (nmalloc s) (nget s) nm))
                            then [mkXattr (List.length (heap s)) (S (List.length (heap s)))
                                          (Z.of_nat (List.length v))]
                            else []) /\
              (fst (fst (acquire o (nmalloc s) (nget s) nm)) = true ->
               holds (snd r) (mkXattr (List.length (heap s)) (S (List.length (heap s)))
                                      (Z.of_nat (List.length v))) (nm, v))).
  enough (G : P (fetch_entry o fd buf i (Z.of_nat (String.length nm)) s)).
  { destruct (fetch_entry o fd buf i (Z.of_nat (String.length nm)) s) as [[] s'].
    exists s'. split; [reflexivity | exact G]. }
  destruct s as [h xs af ap st tr km kl kg ks rm].
  cbn [heap xlist afp_list append_list storage trace nmalloc nlist nget nset room] in *.
  set (pad := map (junk o km) (seq (String.length nm) (slack o km))).
  set (padv := map (junk o (S km)) (seq (List.length v) (slack o (S km)))).
  set (R3 := (List.length h, x00 :: tl pad) :: (List.length h, pad) :: rm).
  assert (Hpad : (1 <= List.length pad)%nat).
  { subst pad. rewrite length_map, length_seq. apply Hroom. }
  assert (Hadd3 : Forall (fun e : ptr * list byte => (List.length h <= fst e)%nat)
                         [(List.length h, x00 :: tl pad); (List.length h, pad)]).
  { repeat constructor. }
  assert (Hadd5 : Forall (fun e : ptr * list byte => (List.length h <= fst e)%nat)
                         [(S (List.length h), padv); (List.length h, x00 :: tl pad);
                          (List.length h, pad)]).
  { repeat constructor. }
  assert (Hcstr : forall hh xs' af' ap' st' tr' km' kl' kg' ks' more l,
             Forall (fun e : ptr * list byte => (List.length h < fst e)%nat) more ->
             cstr (mkState (h ++ mkBlock (list_byte_of_string nm) l :: hh) xs' af' ap' st'
                           tr' km' kl' kg' ks' (more ++ R3)) (List.length h) = nm).
  { intros. apply (cstr_plain _ _ nm l); [apply nth_error_snoc| |exact Hnul].
    unfold room_of. cbn [room].
    assert (F : find (fun e : ptr * list byte => Nat.eqb (fst e) (List.length h))
                     (more ++ R3)
                = find (fun e : ptr * list byte => Nat.eqb (fst e) (List.length h)) R3).
    { induction H as [|e more He H IH]; [reflexivity|].
      cbn [app find]. replace (Nat.eqb (fst e) (List.length h)) with false; [exact IH|].
      symmetry. apply Nat.eqb_neq. lia. }
    unfold ptr in *. rewrite F. subst R3. cbn [find fst snd]. now rewrite Nat.eqb_refl. }
  assert (Hn2 : forall (a b : block) (hh : list block),
             nth_error (h ++ a :: b :: hh) (S (List.length h)) = Some b).
  { intros. change (h ++ a :: b :: hh) with (h ++ [a] ++ b :: hh).
    rewrite app_assoc.
    replace (S (List.length h)) with (List.length (h ++ [a]))
      by (rewrite length_app; cbn; lia).
    apply nth_error_snoc. }
  assert (Hu2 : forall (a b c : block),
             upd (S (List.length h)) c (h ++ [a; b]) = h ++ [a; c]).
  { intros. change (h ++ [a; b]) with (h ++ [a] ++ [b]).
    rewrite app_assoc.
    replace (S (List.length h)) with (List.length (h ++ [a]))
      by (rewrite length_app; cbn; lia).
    rewrite upd_snoc. now rewrite <- app_assoc. }
  assert (Hu1 : forall (a b c : block),
             upd (List.length h) c (h ++ [a; b]) = h ++ [c; b]).
  { intros. apply upd_snoc. }
  assert (Hn1 : forall (a b : block), nth_error (h ++ [a; b]) (List.length h) = Some a).
  { intros. apply nth_error_snoc. }
  unfold fetch_entry. unfold bind at 1. unfold malloc at 1. state_norm.
  destruct (malloc_null o km) eqn:Hm1.
  { unfold warn, emit, modify. subst P. unfold acquire. rewrite Hm1. state_norm.
    split; [exists [], []; cbn [heap room app]; now rewrite app_nil_r|].
    rewrite app_nil_r. repeat split; try discriminate; try reflexivity; lia. }
  rewrite Nat2Z.id. fold pad.
  unfold bind at 1. unfold gets at 1. unfold load_bytes, block_bytes. state_norm.
  rewrite nth_error_app1 by (apply nth_error_Some; congruence).
  rewrite Hbuf, Nat2Z.id, Hsrc.
  rewrite <- (length_list_byte_of_string nm) at 1.
  rewrite strncpy_image_plain by exact Hnul.
  unfold bind at 1.
  rewrite (store_bytes_fill _ _ (map (junk o km) (seq 0 (String.length nm))) true)
    by (cbn [heap]; first [apply nth_error_snoc
                    | now rewrite length_map, length_seq, length_list_byte_of_string]).
  state_norm. rewrite upd_snoc.
  unfold bind at 1.
  rewrite (store_past_end _ _ _ (String.length nm)).
  2:{ unfold sizes; state_norm; rewrite map_app; cbn [map bytes].
       rewrite <- (length_map (fun b => List.length (bytes b)) h) at 1.
       now rewrite nth_error_snoc, length_list_byte_of_string. }
  2: lia.
  rewrite (spill_terminator _ _ _ pad rm) by first [reflexivity | exact Hpad].
  state_norm. fold R3.
  unfold bind at 1. unfold gets at 1.
  rewrite (Hcstr [] _ _ _ _ _ _ _ _ _ [] true) by constructor.
  destruct (prefix "DosStream." nm) eqn:Hpre; cbn [negb].
  2:{ unfold free. state_norm. rewrite nth_error_snoc, upd_snoc.
      subst P. unfold acquire. rewrite Hm1, Hpre. cbn [negb]. state_norm.
      split; [exists [mkBlock (list_byte_of_string nm) false],
                     [(List.length h, x00 :: tl pad); (List.length h, pad)];
              repeat split; first [reflexivity | exact Hadd3]|].
      rewrite app_nil_r. repeat split; try discriminate; try reflexivity; lia. }
  unfold bind at 1. unfold extattr_get_fd at 1. state_norm.
  destruct (get_err o kg) eqn:Hg1.
  { rewrite to_int_m1. cbn [Z.ltb Z.compare].
    unfold free. state_norm. rewrite nth_error_snoc, upd_snoc.
    subst P. unfold acquire. rewrite Hm1, Hpre, Hg1. cbn [negb]. state_norm.
    split; [exists [mkBlock (list_byte_of_string nm) false],
                   [(List.length h, x00 :: tl pad); (List.length h, pad)];
            repeat split; first [reflexivity | exact Hadd3]|].
    rewrite app_nil_r. repeat split; try discriminate; try reflexivity; lia. }
  rewrite Hv.
  rewrite to_int_small by lia.
  replace (Z.of_nat (List.length v) <? 0) with false by (symmetry; apply Z.ltb_ge; lia).
  unfold bind at 1. unfold malloc at 1. state_norm.
  destruct (malloc_null o (S km)) eqn:Hm2.
  { unfold warn, emit, modify, bind, free. state_norm. rewrite nth_error_snoc, upd_snoc.
    subst P. unfold acquire. rewrite Hm1, Hpre, Hg1, Hm2. cbn [negb]. state_norm.
    split; [exists [mkBlock (list_byte_of_string nm) false],
                   [(List.length h, x00 :: tl pad); (List.length h, pad)];
            repeat split; first [reflexivity | exact Hadd3]|].
    rewrite app_nil_r. repeat split; try discriminate; try reflexivity; lia. }
  rewrite Nat2Z.id. fold padv.
  rewrite <- app_assoc. cbn [app]. rewrite length_app. cbn [List.length].
  rewrite Nat.add_1_r.
  unfold bind at 1. unfold gets at 1.
  rewrite (Hcstr [_] _ _ _ _ _ _ _ _ _ [(S (List.length h), padv)] true)
    by (repeat constructor).
  unfold bind at 1. unfold extattr_get_fd at 1. state_norm.
  destruct (get_err o (S kg)) eqn:Hg2.
  { rewrite to_int_m1. cbn [Z.ltb Z.compare].
    unfold bind, free. state_norm. rewrite Hn2, Hu2, Hn1, Hu1.
    subst P. unfold acquire. rewrite Hm1, Hpre, Hg1, Hm2, Hg2. cbn [negb]. state_norm.
    split; [eexists [_; _], [(S (List.length h), padv); (List.length h, x00 :: tl pad);
                             (List.length h, pad)];
            repeat split; first [reflexivity | exact Hadd5]|].
    rewrite app_nil_r. repeat split; try discriminate; try reflexivity; lia. }
  rewrite Hv, Nat2Z.id, firstn_all.
  rewrite to_int_small by lia.
  replace (Z.of_nat (List.length v) <? 0) with false by (symmetry; apply Z.ltb_ge; lia).
  rewrite (store_bytes_fill _ _ (map (junk o (S km)) (seq 0 (List.length v))) true)
    by first [now rewrite length_map, length_seq | state_norm; apply Hn2].
  state_norm. rewrite Hu2.
  unfold bind at 1. unfold malloc_xattr at 1. state_norm.
  destruct (malloc_null o (S (S km))) eqn:Hm3; cbn [negb].
  { unfold warn, emit, modify, bind, free. state_norm. rewrite Hn2, Hu2, Hn1, Hu1.
    subst P. unfold acquire. rewrite Hm1, Hpre, Hg1, Hm2, Hg2, Hm3. cbn [negb]. state_norm.
    split; [eexists [_; _], [(S (List.length h), padv); (List.length h, x00 :: tl pad);
                             (List.length h, pad)];
            repeat split; first [reflexivity | exact Hadd5]|].
    rewrite app_nil_r. repeat split; try discriminate; try reflexivity; lia. }
  unfold modify. state_norm.
  subst P. unfold acquire. rewrite Hm1, Hpre, Hg1, Hm2, Hg2, Hm3. cbn [negb]. state_norm.
  split; [eexists [_; _], [(S (List.length h), padv); (List.length h, x00 :: tl pad);
                             (List.length h, pad)];
            repeat split; first [reflexivity | exact Hadd5]|].
  split; [reflexivity|]. split; [lia|]. split; [lia|]. split; [reflexivity|].
  intros _. unfold holds. cbn [name value length fst snd heap].
  split; [apply Hn1|]. split; [|split; [apply Hn2 | reflexivity]].
  unfold room_of. cbn [room find fst snd]. subst R3. cbn [find fst snd].
  replace (Nat.eqb (S (List.length h)) (List.length h)) with false
    by (symmetry; apply Nat.eqb_neq; lia).
  now rewrite Nat.eqb_refl.
Qed.

Lemma lookup_In (nm : string) (st : list (string * list byte)) (v : list byte) :
  lookup nm st = Some v -> In (nm, v) st.
Proof.
  induction st as [|[k w] t IH]; cbn; [discriminate|].
  destruct (String.eqb k nm) eqn:E.
  - apply String.eqb_eq in E. intros [= ->]. left. now subst.
  - intros H. right. now apply IH.
Qed.

Lemma In_lookup (e : string * list byte) (st : list (string * list byte)) :
  In e st -> exists v, lookup (fst e) st = Some v.
Proof.
  induction st as [|[k w] t IH]; cbn; [tauto|].
  intros [<-|H]; cbn.
  - rewrite String.eqb_refl. now eexists.
  - destruct (String.eqb k (fst e)); [now eexists | now apply IH].
Qed.

Lemma buffers_above (h : list block) (xs : list xattr) (p : ptr) :
  Forall (above h) xs -> In p (buffers_of xs) -> (List.length h <= p)%nat.
Proof.
  intros Hf Hin. unfold buffers_of in Hin. apply in_flat_map in Hin as (x & Hx & Hp).
  rewrite Forall_forall in Hf. destruct (Hf x Hx) as [Hn Hv].
  destruct Hp as [<- | [<- | []]]; assumption.
Qed.

(** A record made of two blocks comes before records made of later blocks,
    and shares no buffer with them. *)
Lemma reads_separate (n : nat) (h1 : list block) (len : Z) (new : list xattr) :
  (n + 2 <= List.length h1)%nat ->
  Forall (above h1) new ->
  NoDup (buffers_of new) ->
  NoDup (buffers_of (mkXattr n (S n) len :: new)).
Proof.
  intros Hlen Ha Hn.
  assert (Hb : forall p, In p (buffers_of new) -> (n + 2 <= p)%nat).
  { intros p Hp. apply (buffers_above _ _ _ Ha) in Hp. lia. }
  cbn [buffers_of flat_map name value app].
  constructor.
  - intros [H | H]; [lia|]. apply Hb in H. lia.
  - constructor; [|exact Hn]. intros H. apply Hb in H. lia.
Qed.

Lemma ea_loop_reads (o : oracle) (fd : Z) (buf : ptr) (lb : bool)
      (st : list (string * list byte)) :
  roomy o ->
  Forall (fun e => Z.of_nat (List.length (snd e)) < 2 ^ 31) st ->
  forall (rest : list (string * list byte)) (pre : list byte) (fuel : nat) (s : state),
    storage s = st ->
    nth_error (heap s) buf = Some (mkBlock (pre ++ listing rest) lb) ->
    Forall (fun e => plain (fst e) = true) rest ->
    incl rest st ->
    (List.length (listing rest) <= fuel)%nat ->
    exists new s',
      ea_loop o fuel fd buf (Z.of_nat (List.length (pre ++ listing rest)))
              (Z.of_nat (List.length pre)) s = (tt, s') /\
      xlist s' = xlist s ++ new /\
      storage s' = st /\
      extends s s' /\
      Forall2 (holds s') new (best_effort o st (nmalloc s) (nget s) rest) /\
      Forall (above (heap s)) new /\
      NoDup (buffers_of new).
Proof.
  intros Hc Hsmall. induction rest as [|[nm w] rest IH]; intros pre fuel s Hst Hbuf Hpl Hin Hfuel.
  - exists [], s. cbn [listing flat_map] in *. rewrite app_nil_r in *.
    split.
    { destruct fuel; cbn [ea_loop]; [reflexivity|]. now rewrite Z.ltb_irrefl. }
    rewrite app_nil_r.
    split; [reflexivity|]. split; [exact Hst|]. split; [apply extends_refl|].
    split; [constructor|]. split; constructor.
  - apply Forall_cons_iff in Hpl as [Hp1 Hpl]. cbn [fst] in Hp1.
    assert (Hin1 : In (nm, w) st) by (apply Hin; now left).
    assert (Hin' : incl rest st) by (intros e He; apply Hin; now right).
    destruct (In_lookup _ _ Hin1) as [v Hv]. cbn [fst] in Hv.
    assert (Hv31 : Z.of_nat (List.length v) < 2 ^ 31).
    { apply lookup_In in Hv. rewrite Forall_forall in Hsmall. exact (Hsmall _ Hv). }
    pose proof Hp1 as Hp1'. apply andb_true_iff in Hp1' as [Hlen Hnul].
    apply Nat.leb_le in Hlen.
    change (listing ((nm, w) :: rest))
      with ((byte_of_nat (String.length nm) :: list_byte_of_string nm) ++ listing rest) in *.
    set (b := byte_of_nat (String.length nm)) in *.
    rewrite length_app in Hfuel. cbn [List.length] in Hfuel.
    destruct fuel as [|fuel]; [lia|].
    assert (Hch : Z.of_N (Byte.to_N (load s buf (Z.of_nat (List.length pre))))
                  = Z.of_nat (String.length nm)).
    { unfold load, block_bytes. rewrite Hbuf, Nat2Z.id. cbn [bytes].
      rewrite app_nth2, Nat.sub_diag by lia. cbn [app nth].
      now apply byte_of_nat_small. }
    pose proof (fetch_entry_turn o fd buf (Z.of_nat (List.length pre)) nm v _ s Hc Hp1
                  (eq_trans (f_equal (lookup nm) Hst) Hv) Hv31 Hbuf) as Hturn.
    match type of Hturn with ?A -> _ => assert (Hsrc : A) end.
    { cbn [bytes].
      replace (Z.to_nat (Z.of_nat (List.length pre) + 1)) with (1 + List.length pre)%nat by lia.
      rewrite <- skipn_skipn. rewrite skipn_app, skipn_all, Nat.sub_diag.
      cbn [app skipn].
      rewrite <- (length_list_byte_of_string nm).
      rewrite firstn_app, firstn_all, Nat.sub_diag. cbn [firstn]. apply app_nil_r. }
    specialize (Hturn Hsrc). clear Hsrc. cbv zeta in Hturn.
    destruct Hturn as (s1 & E1 & He1 & Hst1 & Hkm1 & Hkg1 & Hx1 & Hh1).
    assert (Hbuf1 : nth_error (heap s1) buf
                    = Some (mkBlock ((pre ++ b :: list_byte_of_string nm) ++ listing rest) lb)).
    { rewrite (extends_nth_error s s1 buf _ He1 Hbuf). now rewrite <- app_assoc. }
    destruct (IH (pre ++ b :: list_byte_of_string nm) fuel s1 (eq_trans Hst1 Hst) Hbuf1
                 Hpl Hin')
      as (new & s' & E2 & Hx & Hs & He & Hh & Ha & Hn); [lia|].
    rewrite <- (app_assoc pre (b :: list_byte_of_string nm) (listing rest)) in E2.
    cbn [app] in E2.
    cbn [best_effort fst]. rewrite Hv.
    rewrite Hkm1, Hkg1 in Hh.
    destruct (acquire o (nmalloc s) (nget s) nm) as [[ok m] g].
    cbn [fst snd] in *.
    exists ((if ok then [mkXattr (List.length (heap s)) (S (List.length (heap s)))
                                 (Z.of_nat (List.length v))] else []) ++ new), s'.
    split.
    { cbn [ea_loop].
      match goal with
      | |- context [?x <? ?y] =>
          replace (x <? y) with true
            by (symmetry; apply Z.ltb_lt; rewrite !length_app; cbn [List.length]; lia)
      end.
      unfold bind, gets. rewrite Hch, E1. rewrite <- E2. f_equal.
      rewrite length_app. cbn [List.length]. rewrite length_list_byte_of_string. lia. }
    split; [now rewrite Hx, Hx1, app_assoc|].
    split; [exact Hs|].
    split; [now apply (extends_trans s s1 s')|].
    assert (Ha' : Forall (above (heap s)) new) by now apply (extends_above s s1).
    destruct ok.
    + specialize (Hh1 eq_refl). cbn [app].
      split; [constructor; [now apply (holds_extends s1 s') | exact Hh]|].
      split; [constructor; [split; cbn; lia | exact Ha']|].
      apply (reads_separate _ (heap s1)); [|exact Ha | exact Hn].
      destruct Hh1 as (_ & _ & Hvb & _). cbn [value] in Hvb.
      assert (S (List.length (heap s)) < List.length (heap s1))%nat
        by (apply nth_error_Some; congruence).
      lia.
    + cbn [app]. split; [exact Hh|]. split; [exact Ha' | exact Hn].
Qed.

(** When no call fails, the best effort keeps every attribute whose name
    starts with "DosStream.". *)
Lemma best_effort_calm (o : oracle) (st : list (string * list byte)) :
  calm o ->
  forall (rest : list (string * list byte)) (km kg : nat),
    best_effort o st km kg rest = kept_entries st rest.
Proof.
  intros Hc. induction rest as [|e rest IH]; intros km kg; [reflexivity|].
  cbn [best_effort kept_entries flat_map]. fold (kept_entries st rest).
  unfold acquire.
  rewrite (proj1 (Hc km)), (proj1 (Hc (S km))), (proj1 (Hc (S (S km)))).
  rewrite (proj2 (proj2 (Hc kg))), (proj2 (proj2 (Hc (S kg)))).
  destruct (prefix "DosStream." (fst e)); cbn [negb]; now rewrite IH.
Qed.

(** The state of [get_extended_attributes] when its loop starts, for a list
    of names that fits an [int] and calls that succeed: the buffer is the
    block after those of [s], live, and holds the list. *)
Lemma get_extended_attributes_listed (o : oracle) (fd : Z) (s : state) :
  Z.of_nat (List.length (listing (storage s))) < 2 ^ 31 ->
  list_err o (nlist s) = false ->
  malloc_null o (nmalloc s) = false ->
  list_err o (S (nlist s)) = false ->
  get_extended_attributes o fd s
  = (0, snd (ea_loop o (List.length (listing (storage s))) fd (List.length (heap s))
                     (Z.of_nat (List.length (listing (storage s)))) 0
                     (mkState (heap s ++ [mkBlock (listing (storage s)) true])
                              (xlist s) (afp_list s) (append_list s) (storage s)
                              (trace s) (S (nmalloc s)) (S (S (nlist s)))
                              (nget s) (nset s)
                              ((List.length (heap s),
                                map (junk o (nmalloc s))
                                    (seq (List.length (listing (storage s)))
                                         (slack o (nmalloc s)))) :: room s)))).
Proof.
  intros Hlen Hsize Hm Hlist.
  destruct s as [h xs af ap st tr km kl kg ks rm].
  cbn [heap xlist afp_list append_list storage trace nmalloc nlist nget nset room] in *.
  unfold get_extended_attributes. unfold bind at 1. unfold extattr_list_fd at 1.
  state_norm. rewrite Hsize. rewrite to_int_small by lia.
  replace (Z.of_nat (List.length (listing st)) <? 0) with false
    by (symmetry; apply Z.ltb_ge; lia).
  unfold bind at 1. unfold malloc at 1. state_norm. rewrite Hm, Nat2Z.id.
  unfold bind at 1. unfold extattr_list_fd at 1. state_norm. rewrite Hlist.
  rewrite Nat2Z.id, firstn_all.
  rewrite (store_bytes_fill _ _ (map (junk o km) (seq 0 (List.length (listing st)))) true)
    by first [now rewrite length_map, length_seq | state_norm; apply nth_error_snoc].
  state_norm. rewrite upd_snoc.
  rewrite to_int_small by lia.
  replace (Z.of_nat (List.length (listing st)) <? 0) with false
    by (symmetry; apply Z.ltb_ge; lia).
  unfold bind, mret. rewrite Nat2Z.id.
  now destruct (ea_loop _ _ _ _ _ _ _).
Qed.

(** What [get_extended_attributes] builds, whatever fails after the list of
    names was fetched. *)
Lemma get_extended_attributes_effort (o : oracle) (fd : Z) (s : state) :
  roomy o ->
  list_err o (nlist s) = false ->
  malloc_null o (nmalloc s) = false ->
  list_err o (S (nlist s)) = false ->
  Forall (fun e => plain (fst e) = true) (storage s) ->
  Forall (fun e => Z.of_nat (List.length (snd e)) < 2 ^ 31) (storage s) ->
  Z.of_nat (List.length (listing (storage s))) < 2 ^ 31 ->
  exists new s',
    get_extended_attributes o fd s = (0, s') /\
    xlist s' = xlist s ++ new /\
    storage s' = storage s /\
    extends s s' /\
    Forall2 (holds s') new
            (best_effort o (storage s) (S (nmalloc s)) (nget s) (storage s)) /\
    NoDup (buffers_of new) /\
    Forall (above (heap s)) new.
Proof.
  intros Hr Hl1 Hm Hl2 Hpl Hsmall Hlen.
  rewrite (get_extended_attributes_listed o fd s Hlen Hl1 Hm Hl2).
  set (s3 := mkState _ _ _ _ _ _ _ _ _ _ _).
  destruct (ea_loop_reads o fd (List.length (heap s)) true (storage s) Hr Hsmall
              (storage s) [] (List.length (listing (storage s))) s3 eq_refl)
    as (new & s' & E & Hx & Hs & He & Hh & Ha & Hn); try assumption.
  - subst s3. cbn [heap app]. apply nth_error_snoc.
  - apply incl_refl.
  - lia.
  - cbn [app List.length] in E. change (Z.of_nat 0) with 0 in E.
    rewrite E. cbn [snd].
    exists new, s'. split; [reflexivity|]. split; [exact Hx|]. split; [exact Hs|].
    assert (He3 : extends s s3).
    { subst s3. eexists [_], [_]. cbn [heap room]. repeat split.
      repeat constructor. }
    split; [now apply (extends_trans s s3 s')|].
    split; [exact Hh|]. split; [exact Hn|].
    now apply (extends_above s s3).
Qed.

(** What [get_extended_attributes] builds when no call fails. *)
Lemma get_extended_attributes_spec (o : oracle) (fd : Z) (s : state) :
  calm o ->
  roomy o ->
  Forall (fun e => plain (fst e) = true) (storage s) ->
  Forall (fun e => Z.of_nat (List.length (snd e)) < 2 ^ 31) (storage s) ->
  Z.of_nat (List.length (listing (storage s))) < 2 ^ 31 ->
  exists new,
    fst (get_extended_attributes o fd s) = 0 /\
    xlist (snd (get_extended_attributes o fd s)) = xlist s ++ new /\
    storage (snd (get_extended_attributes o fd s)) = storage s /\
    Forall2 (holds (snd (get_extended_attributes o fd s))) new (afp_entries (storage s)) /\
    NoDup (buffers_of new) /\
    Forall (above (heap s)) new.
Proof.
  intros Hc Hr Hpl Hsmall Hlen.
  destruct (get_extended_attributes_effort o fd s Hr (proj1 (proj2 (Hc _))) (proj1 (Hc _))
              (proj1 (proj2 (Hc _))) Hpl Hsmall Hlen)
    as (new & s' & E & Hx & Hs & _ & Hh & Hn & Ha).
  rewrite E. cbn [fst snd]. rewrite (best_effort_calm o _ Hc) in Hh.
  exists new. split; [reflexivity|]. repeat (split; [assumption|]). exact Ha.
Qed.

Lemma holds_record_view (s : state) (x : xattr) (e : string * list byte) :
  plain (fst e) = true -> holds s x e -> record_view s x = e.
Proof.
  intros Hp (Hn & Hr & Hv & Hl). apply andb_true_iff in Hp as [_ Hp].
  unfold record_view. rewrite (cstr_plain s (name x) (fst e) true Hn Hr Hp).
  unfold block_bytes. rewrite Hv, Hl, Nat2Z.id, firstn_all. now destruct e.
Qed.

Lemma kept_entries_plain (st rest : list (string * list byte)) :
  Forall (fun e => plain (fst e) = true) rest ->
  Forall (fun e => plain (fst e) = true) (kept_entries st rest).
Proof.
  induction rest as [|e rest IH]; intros H; cbn; [constructor|].
  apply Forall_cons_iff in H as [H1 H2]. apply Forall_app. split; [|now apply IH].
  destruct (prefix "DosStream." (fst e)); [|constructor].
  destruct (lookup (fst e) st); constructor; [exact H1 | constructor].
Qed.

Lemma best_effort_plain (o : oracle) (st : list (string * list byte)) :
  forall (rest : list (string * list byte)) (km kg : nat),
    Forall (fun e => plain (fst e) = true) rest ->
    Forall (fun e => plain (fst e) = true) (best_effort o st km kg rest).
Proof.
  induction rest as [|e rest IH]; intros km kg H; cbn [best_effort]; [constructor|].
  apply Forall_cons_iff in H as [H1 H2].
  destruct (acquire o km kg (fst e)) as [[ok m] g].
  apply Forall_app. split; [|now apply IH].
  destruct ok; [|constructor].
  destruct (lookup (fst e) st); constructor; [exact H1 | constructor].
Qed.

Lemma holds_all_views (s : state) (new : list xattr) (es : list (string * list byte)) :
  Forall (fun e => plain (fst e) = true) es ->
  Forall2 (holds s) new es -> map (record_view s) new = es.
Proof.
  intros Hp H. induction H as [|x e new es Hxe H IH]; [reflexivity|].
  apply Forall_cons_iff in Hp as [Hp1 Hp]. cbn [map].
  now rewrite (holds_record_view s x e Hp1 Hxe), IH.
Qed.

(** C8.  When the size query of the name list fails,
    [get_extended_attributes] returns [EX_OK] and leaves [xlist] (empty at
    that point) alone.  In a turn of its loop, when the allocation of the
    name, the size query of the value, the allocation of the value or the
    fetch of the value fails (or the allocation of the record), no record is
    added to [xlist], and the loop goes on with the name after this one.
    And over the whole list of names, whatever fails among these calls:
    when the list was fetched, every allocation has a usable byte past its
    size, the names are at most 255 bytes without a NUL and the sizes fit an
    [int], the function returns 0 and the records it adds are those of
    [best_effort], in order: one for each name that starts with "DosStream."
    and whose calls all succeed, with the name and the value of the
    attribute, whether names before it were skipped or not. *)
Theorem get_extended_attributes_best_effort (o : oracle) (fd : Z) (s : state) :
  (list_err o (nlist s) = true ->
   get_extended_attributes o fd s = (EX_OK, set_nlist (S (nlist s)) s)) /\
  (forall (buf : ptr) (ret i : Z) (fuel : nat),
      i < ret ->
      malloc_null o (nmalloc s) = true \/
      get_err o (nget s) = true \/
      malloc_null o (S (nmalloc s)) = true \/
      get_err o (S (nget s)) = true \/
      malloc_null o (S (S (nmalloc s))) = true ->
      let ch := Z.of_N (Byte.to_N (load s buf i)) in
      let s' := snd (fetch_entry o fd buf i ch s) in
      xlist s' = xlist s /\
      ea_loop o (S fuel) fd buf ret i s = ea_loop o fuel fd buf ret (i + (ch + 1)) s') /\
  (roomy o ->
   list_err o (nlist s) = false ->
   malloc_null o (nmalloc s) = false ->
   list_err o (S (nlist s)) = false ->
   Forall (fun e => plain (fst e) = true) (storage s) ->
   Forall (fun e => Z.of_nat (List.length (snd e)) < 2 ^ 31) (storage s) ->
   Z.of_nat (List.length (listing (storage s))) < 2 ^ 31 ->
   exists new,
     fst (get_extended_attributes o fd s) = 0 /\
     xlist (snd (get_extended_attributes o fd s)) = xlist s ++ new /\
     Forall2 (holds (snd (get_extended_attributes o fd s))) new
             (best_effort o (storage s) (S (nmalloc s)) (nget s) (storage s)) /\
     map (record_view (snd (get_extended_attributes o fd s))) new
     = best_effort o (storage s) (S (nmalloc s)) (nget s) (storage s)).
Proof.
  split; [|split].
  - intros Herr. unfold get_extended_attributes, bind, extattr_list_fd.
    rewrite Herr. rewrite to_int_m1. reflexivity.
  - intros buf ret i fuel Hlt Hfail ch s'. split.
    + now apply fetch_entry_skips.
    + cbn [ea_loop]. apply Z.ltb_lt in Hlt. rewrite Hlt.
      unfold bind, gets. fold ch. subst s'.
      now destruct (fetch_entry o fd buf i ch s).
  - intros Hroom Hl1 Hm Hl2 Hpl Hsmall Hlen.
    destruct (get_extended_attributes_effort o fd s Hroom Hl1 Hm Hl2 Hpl Hsmall Hlen)
      as (new & s' & E & Hx & _ & _ & Hh & _).
    rewrite E. cbn [fst snd]. exists new.
    split; [reflexivity|]. split; [exact Hx|]. split; [exact Hh|].
    apply holds_all_views; [|exact Hh]. now apply best_effort_plain.
Qed.

Lemma get_extended_attributes_best_effort_witness :
  get_extended_attributes list_fails 3 (initial two_attributes)
  = (EX_OK, set_nlist 1 (initial two_attributes)) /\
  (let s := names_listed first_get_fails 3 two_attributes in
   let s' := snd (fetch_entry first_get_fails 3 0%nat 0 11 s) in
   xlist s' = xlist s /\
   ea_loop first_get_fails 24 3 0%nat 24 0 s
   = ea_loop first_get_fails 23 3 0%nat 24 12 s') /\
  (exists new,
      fst (get_extended_attributes first_get_fails 3 (initial mixed_attributes)) = 0 /\
      xlist (snd (get_extended_attributes first_get_fails 3 (initial mixed_attributes)))
      = xlist (initial mixed_attributes) ++ new /\
      Forall2 (holds (snd (get_extended_attributes first_get_fails 3
                                                   (initial mixed_attributes))))
              new [("DosStream.b", [x41; x46; x50; x01])] /\
      map (record_view (snd (get_extended_attributes first_get_fails 3
                                                     (initial mixed_attributes))))
          new
      = [("DosStream.b", [x41; x46; x50; x01])]).
Proof.
  split; [|split].
  - apply (proj1 (get_extended_attributes_best_effort
                    list_fails 3 (initial two_attributes))).
    reflexivity.
  - apply (proj1 (proj2 (get_extended_attributes_best_effort first_get_fails 3
                           (names_listed first_get_fails 3 two_attributes)))
                 0%nat 24 0 23%nat).
    + reflexivity.
    + right. left. reflexivity.
  - apply (proj2 (proj2 (get_extended_attributes_best_effort first_get_fails 3
                           (initial mixed_attributes)))).
    + intros k. cbn. lia.
    + reflexivity.
    + reflexivity.
    + reflexivity.
    + repeat (apply Forall_cons; [vm_compute; reflexivity|]). apply Forall_nil.
    + repeat (apply Forall_cons; [vm_compute; reflexivity|]). apply Forall_nil.
    + vm_compute. reflexivity.
Defined.

(** X12.  When no call fails, every allocation has a usable byte past its
    size (where the terminator of a name then lands), every name is at most
    255 bytes without a NUL, and the sizes fit an [int],
    [get_extended_attributes] returns 0 and adds to [xlist] exactly one
    record for each listed attribute whose name starts with "DosStream.", in
    the order of the list: the record's name block holds the bytes of the
    name, followed by the terminator in the room of the block, its value
    block the value stored under that name, both blocks are allocated,
    [length] is the size of the value, and a reader of the record sees that
    name and that value.  No two of these buffers are the same block.  The
    other attributes leave no record, and the object is not changed. *)
Theorem get_extended_attributes_reads (o : oracle) (fd : Z) (s : state) :
  calm o ->
  roomy o ->
  Forall (fun e => plain (fst e) = true) (storage s) ->
  Forall (fun e => Z.of_nat (List.length (snd e)) < 2 ^ 31) (storage s) ->
  Z.of_nat (List.length (listing (storage s))) < 2 ^ 31 ->
  exists new,
    fst (get_extended_attributes o fd s) = 0 /\
    xlist (snd (get_extended_attributes o fd s)) = xlist s ++ new /\
    storage (snd (get_extended_attributes o fd s)) = storage s /\
    Forall2 (holds (snd (get_extended_attributes o fd s))) new (afp_entries (storage s)) /\
    map (record_view (snd (get_extended_attributes o fd s))) new = afp_entries (storage s) /\
    NoDup (buffers_of new).
Proof.
  intros Hc Hroom Hpl Hsmall Hlen.
  destruct (get_extended_attributes_spec o fd s Hc Hroom Hpl Hsmall Hlen)
    as (new & Hr & Hx & Hs & Hh & Hn & _).
  exists new. repeat (split; [assumption|]). split; [|exact Hn].
  apply holds_all_views; [|exact Hh]. now apply kept_entries_plain.
Qed.

Lemma get_extended_attributes_reads_witness :
  exists new,
    fst (get_extended_attributes quiet 3 (initial mixed_attributes)) = 0 /\
    xlist (snd (get_extended_attributes quiet 3 (initial mixed_attributes)))
    = xlist (initial mixed_attributes) ++ new /\
    storage (snd (get_extended_attributes quiet 3 (initial mixed_attributes)))
    = storage (initial mixed_attributes) /\
    Forall2 (holds (snd (get_extended_attributes quiet 3 (initial mixed_attributes))))
            new (afp_entries (storage (initial mixed_attributes))) /\
    map (record_view (snd (get_extended_attributes quiet 3 (initial mixed_attributes))))
        new
    = afp_entries (storage (initial mixed_attributes)) /\
    NoDup (buffers_of new).
Proof.
  apply (get_extended_attributes_reads quiet 3 (initial mixed_attributes)).
  - intros k. repeat split.
  - intros k. cbn. lia.
  - repeat (apply Forall_cons; [vm_compute; reflexivity|]). apply Forall_nil.
  - repeat (apply Forall_cons; [vm_compute; reflexivity|]). apply Forall_nil.
  - vm_compute. reflexivity.
Defined.

(** ** The buffer of the list of names is never released *)

Lemma guarded_step (h0 : list block) (s s' : state) :
  ext_of h0 s' -> xlist s' = xlist s -> guarded h0 s -> guarded h0 s'.
Proof. intros He Hx [_ Hf]. split; [exact He | now rewrite Hx]. Qed.

Lemma guarded_same (h0 : list block) (s s' : state) :
  heap s' = heap s -> xlist s' = xlist s -> guarded h0 s -> guarded h0 s'.
Proof.
  intros Hh Hx Hg. apply (guarded_step h0 s s'); [|exact Hx|exact Hg].
  apply (ext_of_same h0 s s' Hh), Hg.
Qed.

Lemma store_guarded (h0 : list block) (p : ptr) (i : Z) (b : byte) (s : state) :
  (List.length h0 <= p)%nat -> guarded h0 s -> guarded h0 (snd (store p i b s)).
Proof.
  intros Hp Hg. apply (guarded_step h0 s); [|apply store_kept|exact Hg].
  apply store_ext; [exact Hp | apply Hg].
Qed.

Lemma store_bytes_guarded (h0 : list block) (p : ptr) (bs : list byte) (i : Z)
      (s : state) :
  (List.length h0 <= p)%nat -> guarded h0 s -> guarded h0 (snd (store_bytes p i bs s)).
Proof.
  intros Hp Hg. apply (guarded_step h0 s); [|apply store_bytes_kept|exact Hg].
  apply store_bytes_ext; [exact Hp | apply Hg].
Qed.

Lemma free_guarded (h0 : list block) (p : ptr) (s : state) :
  (List.length h0 <= p)%nat -> guarded h0 s -> guarded h0 (snd (free p s)).
Proof.
  intros Hp Hg. apply (guarded_step h0 s); [|apply free_kept|exact Hg].
  apply free_ext; [exact Hp | apply Hg].
Qed.

Lemma emit_guarded (h0 : list block) (e : event) (s : state) :
  guarded h0 s -> guarded h0 (snd (emit e s)).
Proof. now apply guarded_same. Qed.

Lemma malloc_guarded (h0 : list block) (o : oracle) (n : Z) (s : state) :
  guarded h0 s ->
  guarded h0 (snd (malloc o n s)) /\
  forall p, fst (malloc o n s) = Some p -> (List.length h0 <= p)%nat.
Proof.
  intros Hg. destruct (malloc_ext h0 o n s (proj1 Hg)) as [He Hp].
  split; [|exact Hp].
  apply (guarded_step h0 s); [exact He|apply malloc_kept|exact Hg].
Qed.

Lemma malloc_xattr_guarded (h0 : list block) (o : oracle) (s : state) :
  guarded h0 s -> guarded h0 (snd (malloc_xattr o s)).
Proof. now apply guarded_same. Qed.

Lemma extattr_get_fd_guarded (h0 : list block) (o : oracle) (fd : Z) (nm : string)
      (data : option ptr) (n : Z) (s : state) :
  (forall p, data = Some p -> (List.length h0 <= p)%nat) ->
  guarded h0 s -> guarded h0 (snd (extattr_get_fd o fd nm data n s)).
Proof.
  intros Hp Hg. apply (guarded_step h0 s); [|apply extattr_get_fd_kept|exact Hg].
  apply extattr_get_fd_ext; [exact Hp | apply Hg].
Qed.

Lemma extattr_set_fd_guarded (h0 : list block) (o : oracle) (fd : Z) (nm : string)
      (p : ptr) (n : Z) (s : state) :
  guarded h0 s -> guarded h0 (snd (extattr_set_fd o fd nm p n s)).
Proof.
  apply guarded_same; unfold extattr_set_fd; now destruct (set_err o (nset s)).
Qed.

Lemma hexdump_ea_guarded (h0 : list block) (path nm : string) (buf : ptr) (len : Z)
      (s : state) :
  guarded h0 s -> guarded h0 (snd (hexdump_ea path nm buf len s)).
Proof.
  apply guarded_same; unfold hexdump_ea, bind, gets, emit, modify, mret;
    destruct (len =? 0); try reflexivity; now destruct (len <? 8).
Qed.

Lemma some_bound (h0 : list block) (q : ptr) :
  (List.length h0 <= q)%nat -> forall p, Some q = Some p -> (List.length h0 <= p)%nat.
Proof. intros H p [= <-]. exact H. Qed.

Lemma none_bound (h0 : list block) :
  forall p : ptr, @None ptr = Some p -> (List.length h0 <= p)%nat.
Proof. discriminate. Qed.

Ltac guard_step h0 o fd :=
  match goal with
  | Hg : guarded h0 ?st |- context [store_bytes ?p ?i ?bs ?st] =>
      let Hb := fresh "Hb" in
      assert (Hb : (List.length h0 <= p)%nat) by assumption;
      pose proof (store_bytes_guarded h0 p bs i st Hb Hg); clear Hb;
      destruct (store_bytes p i bs st) as [? ?]
  | Hg : guarded h0 ?st |- context [store ?p ?i ?b ?st] =>
      let Hb := fresh "Hb" in
      assert (Hb : (List.length h0 <= p)%nat) by assumption;
      pose proof (store_guarded h0 p i b st Hb Hg); clear Hb;
      destruct (store p i b st) as [? ?]
  | Hg : guarded h0 ?st |- context [free ?p ?st] =>
      let Hb := fresh "Hb" in
      assert (Hb : (List.length h0 <= p)%nat) by assumption;
      pose proof (free_guarded h0 p st Hb Hg); clear Hb;
      destruct (free p st) as [? ?]
  | Hg : guarded h0 ?st |- context [emit ?e ?st] =>
      pose proof (emit_guarded h0 e st Hg);
      destruct (emit e st) as [? ?]
  | Hg : guarded h0 ?st |- context [hexdump_ea ?pa ?nm ?b ?l ?st] =>
      pose proof (hexdump_ea_guarded h0 pa nm b l st Hg);
      destruct (hexdump_ea pa nm b l st) as [? ?]
  | Hg : guarded h0 ?st |- context [extattr_set_fd o fd ?nm ?p ?n ?st] =>
      pose proof (extattr_set_fd_guarded h0 o fd nm p n st Hg);
      destruct (extattr_set_fd o fd nm p n st) as [? ?]
  | Hg : guarded h0 ?st |- context [extattr_get_fd o fd ?nm None ?n ?st] =>
      pose proof (extattr_get_fd_guarded h0 o fd nm None n st (none_bound h0) Hg);
      destruct (extattr_get_fd o fd nm None n st) as [? ?]
  | Hg : guarded h0 ?st, Hb : (List.length h0 <= ?q)%nat
    |- context [extattr_get_fd o fd ?nm (Some ?q) ?n ?st] =>
      pose proof (extattr_get_fd_guarded h0 o fd nm (Some q) n st (some_bound h0 q Hb) Hg);
      destruct (extattr_get_fd o fd nm (Some q) n st) as [? ?]
  | Hg : guarded h0 ?st |- context [malloc o ?n ?st] =>
      let H := fresh "H" in
      pose proof (malloc_guarded h0 o n st Hg) as [? H];
      destruct (malloc o n st) as [[?|] ?];
      [specialize (H _ eq_refl) | clear H]
  | Hg : guarded h0 ?st |- context [malloc_xattr o ?st] =>
      pose proof (malloc_xattr_guarded h0 o st Hg);
      destruct (malloc_xattr o st) as [? ?]
  | |- context [if ?c then _ else _] => destruct c eqn:?
  end; cbn [fst snd] in *.

Lemma guarded_snoc (h0 : list block) (x : xattr) (s : state) :
  above h0 x -> guarded h0 s -> guarded h0 (set_xlist (xlist s ++ [x]) s).
Proof.
  intros Hx [He Hf]. split; [exact He|]. cbn [xlist set_xlist].
  apply Forall_app. split; [exact Hf | now constructor].
Qed.

Lemma Forall_upd {A} (P : A -> Prop) (l : list A) :
  forall (i : nat) (x : A), P x -> Forall P l -> Forall P (upd i x l).
Proof.
  induction l as [|h t IH]; intros [|i] x Hx Hl; cbn; try exact Hl.
  - apply Forall_cons_iff in Hl as [_ Ht]. now constructor.
  - apply Forall_cons_iff in Hl as [Hh Ht]. constructor; [exact Hh | now apply IH].
Qed.

Lemma guarded_upd (h0 : list block) (i : nat) (x : xattr) (s : state) :
  above h0 x -> guarded h0 s -> guarded h0 (set_xlist (upd i x (xlist s)) s).
Proof.
  intros Hx [He Hf]. split; [exact He|]. cbn [xlist set_xlist].
  now apply Forall_upd.
Qed.

Lemma fetch_entry_guarded (h0 : list block) (o : oracle) (fd : Z) (buf : ptr) (i ch : Z)
      (s : state) :
  guarded h0 s -> guarded h0 (snd (fetch_entry o fd buf i ch s)).
Proof.
  intros Hg. unfold fetch_entry, warn, bind, gets, modify, mret.
  repeat guard_step h0 o fd; try assumption.
  apply guarded_snoc; [now split | assumption].
Qed.

Lemma ea_loop_guarded (h0 : list block) (o : oracle) (fd : Z) (buf : ptr) (ret : Z)
      (fuel : nat) :
  forall (i : Z) (s : state),
    guarded h0 s -> guarded h0 (snd (ea_loop o fuel fd buf ret i s)).
Proof.
  induction fuel as [|fuel IH]; intros i s Hg; cbn [ea_loop]; [exact Hg|].
  destruct (i <? ret); [|exact Hg].
  unfold bind, gets.
  pose proof (fetch_entry_guarded h0 o fd buf i (Z.of_N (Byte.to_N (load s buf i))) s Hg)
    as H.
  destruct (fetch_entry o fd buf i (Z.of_N (Byte.to_N (load s buf i))) s) as [u s1].
  now apply IH.
Qed.

Lemma fix_afp_turn_guarded (h0 : list block) (o : oracle) (fd : Z) (path : string)
      (flags : Z) (x : xattr) (ret setret : Z) (s : state) :
  above h0 x -> guarded h0 s ->
  guarded h0 (snd (fix_afp_turn o fd path flags x ret setret s)).
Proof.
  intros [Hn Hv] Hg. unfold fix_afp_turn, warn, bind, gets, modify, mret.
  repeat guard_step h0 o fd; assumption.
Qed.

Lemma guarded_nth (h0 : list block) (s : state) (idx : nat) (x : xattr) :
  guarded h0 s -> nth_error (xlist s) idx = Some x -> above h0 x.
Proof.
  intros [_ Hf] Hx. rewrite Forall_forall in Hf. apply Hf.
  eapply nth_error_In. exact Hx.
Qed.

Lemma fix_afp_loop_guarded (h0 : list block) (o : oracle) (fd : Z) (path : string)
      (flags : Z) :
  forall (view : list nat) (ret setret : Z) (s : state),
    guarded h0 s -> guarded h0 (snd (fix_afp_loop o fd path flags view ret setret s)).
Proof.
  induction view as [|idx rest IH]; intros ret setret s Hg; cbn [fix_afp_loop];
    [exact Hg|].
  unfold bind at 1. unfold gets at 1.
  destruct (nth_error (xlist s) idx) as [x|] eqn:Hx; [|now apply IH].
  unfold bind.
  pose proof (fix_afp_turn_guarded h0 o fd path flags x ret setret s
                (guarded_nth h0 s idx x Hg Hx) Hg) as H.
  destruct (fix_afp_turn o fd path flags x ret setret s) as [[r1 r2] s1].
  now apply IH.
Qed.

Lemma fix_append_turn_guarded (h0 : list block) (o : oracle) (fd : Z) (path : string)
      (flags : Z) (idx : nat) (x : xattr) (ret setret : Z) (s : state) :
  above h0 x -> guarded h0 s ->
  guarded h0 (snd (fix_append_turn o fd path flags idx x ret setret s)).
Proof.
  intros [Hn Hv] Hg. unfold fix_append_turn, warn, bind, gets, modify, mret.
  repeat first
    [ guard_step h0 o fd
    | match goal with
      | Hs : guarded h0 ?st |- context [set_xlist (upd idx ?y (xlist ?st)) ?st] =>
          let Hu := fresh "Hu" in
          assert (Hu : guarded h0 (set_xlist (upd idx y (xlist st)) st))
            by (apply guarded_upd; [now split | exact Hs]);
          generalize dependent (set_xlist (upd idx y (xlist st)) st); intros
      end ];
    try assumption.
Qed.

Lemma fix_append_loop_guarded (h0 : list block) (o : oracle) (fd : Z) (path : string)
      (flags : Z) :
  forall (view : list nat) (ret setret : Z) (s : state),
    guarded h0 s -> guarded h0 (snd (fix_append_loop o fd path flags view ret setret s)).
Proof.
  induction view as [|idx rest IH]; intros ret setret s Hg; cbn [fix_append_loop];
    [exact Hg|].
  unfold bind at 1. unfold gets at 1.
  destruct (nth_error (xlist s) idx) as [x|] eqn:Hx; [|now apply IH].
  unfold bind, mret.
  pose proof (fix_append_turn_guarded h0 o fd path flags idx x ret setret s
                (guarded_nth h0 s idx x Hg Hx) Hg) as H.
  destruct (fix_append_turn o fd path flags idx x ret setret s) as [[e|[r1 r2]] s1];
    [exact H | now apply IH].
Qed.

Lemma get_afp_list_guarded (h0 : list block) (s : state) :
  guarded h0 s -> guarded h0 (snd (get_afp_list s)).
Proof.
  destruct (get_afp_list_spec s) as (sel & E & _). rewrite E.
  now apply guarded_same.
Qed.

Lemma get_append_list_guarded (h0 : list block) (attr : option string) (s : state) :
  guarded h0 s -> guarded h0 (snd (get_append_list attr s)).
Proof.
  unfold get_append_list, bind, gets, mret.
  assert (H : exists sel, get_append_loop attr 0 (xlist s) s
                          = (tt, set_append_list (append_list s ++ sel) s)).
  { destruct attr as [a|].
    - destruct (get_append_loop_named a (xlist s) 0 s) as (sel & E & _). now exists sel.
    - rewrite get_append_loop_all. now eexists. }
  destruct H as [sel ->]. now apply guarded_same.
Qed.

Lemma free_loop_ext (h0 : list block) (xs : list xattr) :
  forall s : state,
    Forall (above h0) xs -> ext_of h0 s -> ext_of h0 (snd (free_loop xs s)).
Proof.
  induction xs as [|x rest IH]; intros s Hf He; cbn [free_loop]; [exact He|].
  apply Forall_cons_iff in Hf as [[Hn Hv] Hf].
  unfold bind, modify.
  assert (H0 : ext_of h0 (set_xlist rest s)) by now apply (ext_of_same h0 s).
  generalize dependent (set_xlist rest s). intros s0 H0.
  repeat ext_step h0 quiet 0.
  now apply IH.
Qed.

(** Past the reading of the attributes, [do_ea_stuff_single] leaves the
    blocks that no record points to as they are. *)
Lemma do_ea_stuff_tail_guarded (h0 : list block) (o : oracle) (fd : Z) (path : string)
      (attr : option string) (flags : Z) (s : state) :
  guarded h0 s ->
  guarded h0
    (snd ((afp <- (if has flags F_CHECK_AFP_EA || has flags F_FIX_AFP_EA then
                     get_afp_list ;;
                     setret <- fix_afp_list o fd path flags ;;
                     if setret <? 0 then mret (inl EX_DATAERR) else mret (inr setret)
                   else mret (inr 0)) ;;
           match afp with
           | inl ret => mret ret
           | inr ret =>
               if has flags F_APPEND_NULL_ALL || has flags F_APPEND_NULL then
                 get_append_list attr ;;
                 setret <- fix_append_list o fd path flags ;;
                 if setret <? 0 then mret EX_DATAERR else mret setret
               else mret ret
           end) s)).
Proof.
  intros Hg.
  assert (Hrep : forall s2, guarded h0 s2 ->
                            guarded h0 (snd (fix_afp_list o fd path flags s2))).
  { intros s2 H2. unfold fix_afp_list, bind, gets. now apply fix_afp_loop_guarded. }
  assert (Hadd : forall s4, guarded h0 s4 ->
                            guarded h0 (snd (fix_append_list o fd path flags s4))).
  { intros s4 H4. unfold fix_append_list, bind, gets. now apply fix_append_loop_guarded. }
  assert (Htail : forall s3 ret, guarded h0 s3 ->
            guarded h0
              (snd ((if has flags F_APPEND_NULL_ALL || has flags F_APPEND_NULL then
                       get_append_list attr ;;
                       setret <- fix_append_list o fd path flags ;;
                       if setret <? 0 then mret EX_DATAERR else mret setret
                     else mret ret) s3))).
  { intros s3 ret H3.
    destruct (has flags F_APPEND_NULL_ALL || has flags F_APPEND_NULL); [|exact H3].
    unfold bind, mret.
    pose proof (get_append_list_guarded h0 attr s3 H3) as H4.
    destruct (get_append_list attr s3) as [u4 s4]. cbn [snd] in H4.
    pose proof (Hadd s4 H4) as H5.
    destruct (fix_append_list o fd path flags s4) as [r5 s5]. cbn [snd] in H5.
    now destruct (r5 <? 0). }
  unfold bind at 1.
  destruct (has flags F_CHECK_AFP_EA || has flags F_FIX_AFP_EA).
  - unfold bind at 1.
    pose proof (get_afp_list_guarded h0 s Hg) as H2.
    destruct (get_afp_list s) as [u2 s2]. cbn [snd] in H2.
    unfold bind at 1.
    pose proof (Hrep s2 H2) as H3.
    destruct (fix_afp_list o fd path flags s2) as [r3 s3]. cbn [snd] in H3.
    destruct (r3 <? 0); unfold mret at 1; [exact H3|]. now apply Htail.
  - unfold mret at 1. now apply Htail.
Qed.


(** X13.  The buffer that [get_extended_attributes] allocates for the list
    of names is never released: when [open] succeeds and the list is sized,
    allocated and fetched, the block is still allocated, with the list in
    it, when [do_ea_stuff_single] returns, whatever the flags are and
    whatever fails afterwards. *)
Theorem do_ea_stuff_single_leaks (o : oracle) (path : string) (attr : option string)
        (flags : Z) (s : state) :
  0 <= open_result o ->
  Z.of_nat (List.length (listing (storage s))) < 2 ^ 31 ->
  list_err o (nlist s) = false ->
  malloc_null o (nmalloc s) = false ->
  list_err o (S (nlist s)) = false ->
  nth_error (heap (snd (do_ea_stuff_single o path attr flags s))) (List.length (heap s))
  = Some (mkBlock (listing (storage s)) true).
Proof.
  intros Hfd Hlen Hsize Hm Hlist.
  set (h0 := heap s ++ [mkBlock (listing (storage s)) true]).
  enough (He : ext_of h0 (snd (do_ea_stuff_single o path attr flags s))).
  { rewrite (ext_of_nth_error h0 _ _ He) by (subst h0; rewrite length_app; cbn; lia).
    subst h0. now rewrite nth_error_app2, Nat.sub_diag by lia. }
  rewrite do_ea_stuff_single_split. cbv zeta. cbn [snd].
  set (s0 := set_append_list [] (set_afp_list [] (set_xlist [] s))).
  assert (Hbody : guarded h0 (snd (do_ea_stuff_body o (open_result o) path attr flags s0))).
  { unfold do_ea_stuff_body.
    replace (open_result o <? 0) with false by (symmetry; apply Z.ltb_ge; lia).
    unfold bind at 1.
    rewrite (get_extended_attributes_listed o (open_result o) s0 Hlen Hsize Hm Hlist).
    change (0 <? 0) with false. cbv iota.
    apply do_ea_stuff_tail_guarded.
    apply ea_loop_guarded. split; [|constructor].
    exists []. subst h0 s0. cbn [heap set_append_list set_afp_list set_xlist storage].
    now rewrite app_nil_r. }
  destruct (do_ea_stuff_body o (open_result o) path attr flags s0) as [r s1].
  cbn [snd] in *. destruct Hbody as [He Hf].
  unfold unlink_afp_list, unlink_append_list, free_extended_attributes,
    bind, modify, gets, mret.
  set (s2 := set_append_list [] (set_afp_list [] s1)).
  assert (H2 : ext_of h0 s2) by now apply (ext_of_same h0 s1).
  change (xlist s2) with (xlist s1).
  pose proof (free_loop_ext h0 (xlist s1) s2 Hf H2) as H3.
  destruct (free_loop (xlist s1) s2) as [u3 s3]. cbn [snd] in H3.
  destruct (0 <? open_result o); [|exact H3].
  now apply emit_ext.
Qed.

Lemma do_ea_stuff_single_leaks_witness :
  nth_error (heap (snd (do_ea_stuff_single quiet "/f" None 0x1b
                                           (initial mixed_attributes))))
            (List.length (heap (initial mixed_attributes)))
  = Some (mkBlock (listing (storage (initial mixed_attributes))) true).
Proof.
  apply (do_ea_stuff_single_leaks quiet "/f" None 0x1b (initial mixed_attributes)).
  - vm_compute. discriminate.
  - vm_compute. reflexivity.
  - reflexivity.
  - reflexivity.
  - reflexivity.
Defined.

(** ** The values of the results *)

(** Splits the next call or test of a computation, keeping nothing about
    the state it leaves. *)
Ltac blind_step o fd :=
  match goal with
  | |- context [store_bytes ?p ?i ?bs ?st] => destruct (store_bytes p i bs st) as [? ?]
  | |- context [store ?p ?i ?b ?st] => destruct (store p i b st) as [? ?]
  | |- context [free ?p ?st] => destruct (free p st) as [? ?]
  | |- context [hexdump_ea ?a ?b ?c ?d ?st] => destruct (hexdump_ea a b c d st) as [? ?]
  | |- context [emit ?e ?st] => destruct (emit e st) as [? ?]
  | |- context [extattr_set_fd o fd ?nm ?d ?n ?st] =>
      destruct (extattr_set_fd o fd nm d n st) as [? ?]
  | |- context [malloc o ?n ?st] => destruct (malloc o n st) as [[?|] ?]
  | |- context [if ?c then _ else _] => destruct c eqn:?
  end; cbn [fst snd] in *.


Lemma exit_bit_lor (r : Z) : exit_bit r -> exit_bit (Z.lor r EX_EA_CORRUPTED).
Proof. intros [-> | ->]; now right. Qed.

Lemma fix_afp_turn_bit (o : oracle) (fd : Z) (path : string) (flags : Z)
      (x : xattr) (ret setret : Z) (s : state) :
  exit_bit ret -> exit_bit (fst (fst (fix_afp_turn o fd path flags x ret setret s))).
Proof.
  intros Hr. pose proof (exit_bit_lor ret Hr) as Hr1.
  pose proof (exit_bit_lor _ Hr1) as Hr2.
  unfold fix_afp_turn, warn, bind, gets, mret.
  repeat blind_step o fd; rewrite ?lor_ok; assumption.
Qed.

Lemma fix_afp_loop_bit (o : oracle) (fd : Z) (path : string) (flags : Z) :
  forall (view : list nat) (ret setret : Z) (s : state),
    exit_bit ret -> exit_bit (fst (fix_afp_loop o fd path flags view ret setret s)).
Proof.
  induction view as [|idx rest IH]; intros ret setret s Hr; cbn [fix_afp_loop];
    [exact Hr|].
  unfold bind at 1. unfold gets at 1.
  destruct (nth_error (xlist s) idx) as [x|]; [|now apply IH].
  unfold bind.
  pose proof (fix_afp_turn_bit o fd path flags x ret setret s Hr) as H.
  destruct (fix_afp_turn o fd path flags x ret setret s) as [[r1 r2] s1].
  now apply IH.
Qed.

Lemma fix_append_turn_bit (o : oracle) (fd : Z) (path : string) (flags : Z)
      (idx : nat) (x : xattr) (ret setret : Z) (s : state) :
  exit_bit ret ->
  match fst (fix_append_turn o fd path flags idx x ret setret s) with
  | inl e => e = -1
  | inr (r, _) => exit_bit r
  end.
Proof.
  intros Hr. pose proof (exit_bit_lor ret Hr) as Hr1.
  unfold fix_append_turn, warn, bind, gets, modify, mret.
  repeat blind_step o fd; rewrite ?lor_ok; try assumption; reflexivity.
Qed.


Lemma fix_append_loop_bit (o : oracle) (fd : Z) (path : string) (flags : Z) :
  forall (view : list nat) (ret setret : Z) (s : state),
    exit_bit ret ->
    append_code (fst (fix_append_loop o fd path flags view ret setret s)).
Proof.
  induction view as [|idx rest IH]; intros ret setret s Hr; cbn [fix_append_loop];
    [now right|].
  unfold bind at 1. unfold gets at 1.
  destruct (nth_error (xlist s) idx) as [x|]; [|now apply IH].
  unfold bind, mret.
  pose proof (fix_append_turn_bit o fd path flags idx x ret setret s Hr) as H.
  destruct (fix_append_turn o fd path flags idx x ret setret s) as [[e|[r1 r2]] s1];
    cbn [fst] in *; [now left | now apply IH].
Qed.


Lemma do_ea_stuff_single_codes (o : oracle) (path : string)
      (attr : option string) (flags : Z) (s : state) :
  exit_code (fst (do_ea_stuff_single o path attr flags s)).
Proof.
  rewrite do_ea_stuff_single_result.
  generalize (set_append_list [] (set_afp_list [] (set_xlist [] s))). clear s. intros s.
  unfold exit_code, do_ea_stuff_body, warn, bind, mret.
  destruct (open_result o <? 0).
  { destruct (emit _ s). cbn. tauto. }
  destruct (get_extended_attributes o (open_result o) s) as [r s1].
  destruct (r <? 0); [cbn; tauto|].
  assert (Htail : forall s3 ret, exit_bit ret ->
            exit_code
              (fst ((if has flags F_APPEND_NULL_ALL || has flags F_APPEND_NULL
                     then
                       fun s0 =>
                         let (_, s') := get_append_list attr s0 in
                         let (a, s'0) := fix_append_list o (open_result o) path flags s' in
                         (if a <? 0
                          then fun s5 => (EX_DATAERR, s5)
                          else fun s5 => (a, s5)) s'0
                     else fun s0 => (ret, s0)) s3))).
  { intros s3 ret Hret.
    destruct (has flags F_APPEND_NULL_ALL || has flags F_APPEND_NULL).
    - destruct (get_append_list attr s3) as [u4 s4].
      unfold fix_append_list, bind, gets.
      pose proof (fix_append_loop_bit o (open_result o) path flags (append_list s4) 0 0 s4
                    (or_introl eq_refl)) as H5.
      destruct (fix_append_loop o (open_result o) path flags (append_list s4) 0 0 s4)
        as [r5 s5]. cbn [fst] in H5.
      destruct H5 as [-> | [-> | ->]]; cbn; unfold exit_code; tauto.
    - cbn [fst]. destruct Hret as [-> | ->]; unfold exit_code; tauto. }
  unfold exit_code in Htail.
  destruct (has flags F_CHECK_AFP_EA || has flags F_FIX_AFP_EA).
  - destruct (get_afp_list s1) as [u2 s2].
    unfold fix_afp_list, bind, gets.
    pose proof (fix_afp_loop_bit o (open_result o) path flags (afp_list s2) 0 0 s2
                  (or_introl eq_refl)) as H3.
    destruct (fix_afp_loop o (open_result o) path flags (afp_list s2) 0 0 s2) as [r3 s3].
    cbn [fst] in H3.
    destruct (r3 <? 0) eqn:Hneg.
    + destruct H3 as [-> | ->]; discriminate.
    + now apply Htail.
  - apply Htail. now left.
Qed.

(** X14.  Whatever the environment, the object and the flags are,
    [do_ea_stuff_single] returns one of [EX_OK], [EX_EA_CORRUPTED],
    [EX_DATAERR] and [EX_OSERR]. *)
Theorem do_ea_stuff_single_exit_codes (o : oracle) (path : string)
        (attr : option string) (flags : Z) (s : state) :
  exit_code (fst (do_ea_stuff_single o path attr flags s)).
Proof. exact (do_ea_stuff_single_codes o path attr flags s). Qed.

(** ** Walking a tree: do_ea_stuff_recursive *)

Lemma exit_code_lor (a b : Z) :
  exit_code a -> exit_code b -> Z.lor a b = Z.max a b /\ exit_code (Z.lor a b).
Proof.
  unfold exit_code.
  intros [-> | [-> | [-> | ->]]] [-> | [-> | [-> | ->]]]; cbn; tauto.
Qed.

Lemma fts_loop_max (o : oracle) (attr : option string) (flags : Z) :
  forall (entries : list FTSENT) (rval : Z) (s : state),
    exit_code rval ->
    fst (fts_loop o entries attr flags rval s)
    = fold_left Z.max (fts_results o entries attr flags s) rval /\
    exit_code (fst (fts_loop o entries attr flags rval s)).
Proof.
  induction entries as [|e rest IH]; intros rval s Hr; cbn [fts_loop fts_results].
  - cbn. now split.
  - unfold visited.
    destruct (fts_info e); try (now apply IH).
    + unfold bind, modify.
      pose proof (do_ea_stuff_single_codes (opening o e) (fts_accpath e) attr flags
                    (set_storage (fts_object e) s)) as Hc.
      destruct (do_ea_stuff_single (opening o e) (fts_accpath e) attr flags
                  (set_storage (fts_object e) s)) as [r s1].
      cbn [fst fold_left] in *.
      destruct (exit_code_lor rval r Hr Hc) as [E Hl]. rewrite <- E.
      now apply IH.
    + unfold bind, modify.
      pose proof (do_ea_stuff_single_codes (opening o e) (fts_accpath e) attr flags
                    (set_storage (fts_object e) s)) as Hc.
      destruct (do_ea_stuff_single (opening o e) (fts_accpath e) attr flags
                  (set_storage (fts_object e) s)) as [r s1].
      cbn [fst fold_left] in *.
      destruct (exit_code_lor rval r Hr Hc) as [E Hl]. rewrite <- E.
      now apply IH.
Qed.

(** X15.  [do_ea_stuff_recursive] returns one of the same four values, and
    over the entries of a walk it returns the largest of the results of
    [do_ea_stuff_single] on the entries of kind [FTS_D] and [FTS_F] (0 when
    there is none), each entry with the result [open] has for it: on these
    four values the bitwise or that accumulates [rval] is the maximum.
    Entries of the other kinds add nothing.  On the sample walk, in check
    mode, the file that cannot be opened gives [EX_OSERR], the entries
    before and after it are examined all the same (a directory without
    attributes, and two files with corrupted ones), and the walk returns
    [EX_OSERR]. *)
Theorem do_ea_stuff_recursive_largest (o : oracle) (tree : option (list FTSENT))
        (entries : list FTSENT) (attr : option string) (flags : Z) (s : state) :
  exit_code (fst (do_ea_stuff_recursive o tree attr flags s)) /\
  fst (do_ea_stuff_recursive o (Some entries) attr flags s)
  = fold_left Z.max (fts_results o entries attr flags s) 0 /\
  fts_results quiet sample_tree None F_CHECK_AFP_EA (initial [])
  = [EX_OK; EX_EA_CORRUPTED; EX_OSERR; EX_EA_CORRUPTED] /\
  fst (do_ea_stuff_recursive quiet (Some sample_tree) None F_CHECK_AFP_EA (initial []))
  = EX_OSERR.
Proof.
  split; [|split; [|split]].
  - destruct tree as [es|]; cbn [do_ea_stuff_recursive].
    + apply fts_loop_max. now left.
    + unfold warn, bind, mret. destruct (emit _ s). cbn. unfold exit_code. tauto.
  - cbn [do_ea_stuff_recursive]. apply fts_loop_max. now left.
  - vm_compute. reflexivity.
  - vm_compute. reflexivity.
Qed.

Lemma do_ea_stuff_single_unwritten (o : oracle) (path : string)
      (attr : option string) (flags : Z) (s : state) :
  has flags F_DRY_RUN = true \/
  (has flags F_FIX_AFP_EA = false /\ has flags F_APPEND_NULL = false) ->
  unwritten s (snd (do_ea_stuff_single o path attr flags s)).
Proof.
  intros Hmode. rewrite do_ea_stuff_single_split. cbn [snd].
  set (s0 := set_append_list [] (set_afp_list [] (set_xlist [] s))).
  assert (U0 : unwritten s s0) by now apply unwritten_same.
  clearbody s0.
  pose proof (do_ea_stuff_body_unwritten o (open_result o) path attr flags s0 Hmode) as U1.
  eapply unwritten_trans; [exact U0|].
  eapply unwritten_trans; [exact U1|].
  apply cleanup_unwritten.
Qed.


Lemma fts_loop_uncalled (o : oracle) (attr : option string) (flags : Z) :
  has flags F_DRY_RUN = true \/
  (has flags F_FIX_AFP_EA = false /\ has flags F_APPEND_NULL = false) ->
  forall (entries : list FTSENT) (rval : Z) (s : state),
    uncalled s (snd (fts_loop o entries attr flags rval s)).
Proof.
  intros Hmode. induction entries as [|e rest IH]; intros rval s; cbn [fts_loop].
  - now split.
  - assert (Hvisit : forall rv,
              uncalled s
                (snd ((modify (set_storage (fts_object e)) ;;
                       r <- do_ea_stuff_single (opening o e) (fts_accpath e) attr flags ;;
                       fts_loop o rest attr flags (Z.lor rv r)) s))).
    { intros rv. unfold bind, modify.
      pose proof (do_ea_stuff_single_unwritten (opening o e) (fts_accpath e) attr flags
                    (set_storage (fts_object e) s) Hmode) as (_ & N1 & T1).
      destruct (do_ea_stuff_single (opening o e) (fts_accpath e) attr flags
                  (set_storage (fts_object e) s)) as [r s1].
      cbn [snd] in *.
      destruct (IH (Z.lor rv r) s1) as [N2 T2].
      split; [now rewrite N2, N1 | now rewrite T2, T1]. }
    destruct (fts_info e); try apply IH; try apply Hvisit.
    unfold warn, bind, emit, modify.
    destruct (IH rval (set_trace (trace s ++ [Warn (fts_path e ++ ": " ++ fts_error e)]) s))
      as [N2 T2].
    split; [exact N2|]. rewrite T2. cbn [trace set_trace].
    rewrite set_calls_app. cbn. apply app_nil_r.
Qed.

(** X16.  In a dry run, and also when neither the fix nor the append flag
    is set, [do_ea_stuff_recursive] makes no call of [extattr_set_fd],
    whatever the walk yields and whatever fails, the [open] of some entries
    and not of others included. *)
Theorem do_ea_stuff_recursive_never_writes (o : oracle) (tree : option (list FTSENT))
        (attr : option string) (flags : Z) (s : state) :
  has flags F_DRY_RUN = true \/
  (has flags F_FIX_AFP_EA = false /\ has flags F_APPEND_NULL = false) ->
  nset (snd (do_ea_stuff_recursive o tree attr flags s)) = nset s /\
  set_calls (trace (snd (do_ea_stuff_recursive o tree attr flags s)))
  = set_calls (trace s).
Proof.
  intros Hmode. destruct tree as [entries|]; cbn [do_ea_stuff_recursive].
  - now apply fts_loop_uncalled.
  - unfold warn, bind, emit, modify, mret. cbn [snd nset trace set_trace].
    split; [reflexivity|]. rewrite set_calls_app. cbn. apply app_nil_r.
Qed.

Lemma do_ea_stuff_recursive_never_writes_witness :
  nset (snd (do_ea_stuff_recursive first_set_fails (Some sample_tree) None 0x1f
                                   (initial [])))
  = nset (initial []) /\
  set_calls (trace (snd (do_ea_stuff_recursive first_set_fails (Some sample_tree) None
                                               0x1f (initial []))))
  = set_calls (trace (initial [])).
Proof.
  apply (do_ea_stuff_recursive_never_writes first_set_fails (Some sample_tree) None 0x1f
           (initial [])).
  left. vm_compute. reflexivity.
Defined.

(** ** The options of main *)

Lemma has_bit (flags : Z) (k : Z) :
  0 <= k -> has flags (2 ^ k) = Z.testbit flags k.
Proof.
  intros Hk. unfold has.
  destruct (Z.testbit flags k) eqn:Hb.
  - apply negb_true_iff, Z.eqb_neq. intros H0.
    assert (Ht : Z.testbit (Z.land flags (2 ^ k)) k = true)
      by (rewrite Z.land_spec, Hb, Z.pow2_bits_true; [reflexivity | exact Hk]).
    rewrite H0, Z.bits_0 in Ht. discriminate.
  - apply negb_false_iff, Z.eqb_eq. apply Z.bits_inj_0. intros n.
    rewrite Z.land_spec. destruct (Z.eq_dec n k) as [->|Hne].
    + now rewrite Hb.
    + destruct (Z.lt_ge_cases n 0) as [Hn|Hn].
      * now rewrite (Z.testbit_neg_r flags n Hn).
      * rewrite Z.pow2_bits_false by auto. apply andb_false_r.
Qed.

Lemma has_lor (f g : Z) (k : Z) :
  0 <= k -> has (Z.lor f g) (2 ^ k) = has f (2 ^ k) || has g (2 ^ k).
Proof. intros Hk. rewrite !has_bit by exact Hk. apply Z.lor_spec. Qed.

Lemma has_clear (f g : Z) (k : Z) :
  0 <= k < 64 ->
  has (Z.land f (u_int64_t (Z.lnot g))) (2 ^ k) = has f (2 ^ k) && negb (has g (2 ^ k)).
Proof.
  intros Hk. rewrite !has_bit by lia. rewrite Z.land_spec. f_equal.
  unfold u_int64_t. rewrite Z.mod_pow2_bits_low by lia.
  apply Z.lnot_spec. lia.
Qed.


Lemma range_land (f : Z) : 0 <= f < 256 <-> Z.land f 255 = f.
Proof.
  change 255 with (Z.ones 8). rewrite Z.land_ones by lia. change (2 ^ 8) with 256. split.
  - intros H. now apply Z.mod_small.
  - intros <-. now apply Z.mod_pos_bound.
Qed.

Lemma range_lor (f g : Z) : 0 <= f < 256 -> 0 <= g < 256 -> 0 <= Z.lor f g < 256.
Proof.
  rewrite !range_land. intros Hf Hg. now rewrite Z.land_lor_distr_l, Hf, Hg.
Qed.

Lemma range_clear (f m : Z) : 0 <= f < 256 -> 0 <= Z.land f m < 256.
Proof.
  rewrite !range_land. intros Hf.
  now rewrite <- Z.land_assoc, (Z.land_comm m), Z.land_assoc, Hf.
Qed.

Lemma main_option_cases (ch : ascii) (dup : option string) (fa fa' : Z * option string) :
  main_option ch dup fa = Some fa' ->
  (ch = "a" \/ ch = "c" \/ ch = "C" \/ ch = "d" \/
   ch = "f" \/ ch = "n" \/ ch = "r" \/ ch = "v")%char.
Proof.
  destruct fa as [flags attr].
  destruct ch as [[] [] [] [] [] [] [] []]; cbn; try discriminate; intros _; auto 10.
Qed.

Lemma main_getopt_app (l1 l2 : list (ascii * option string)) :
  forall fa,
    main_getopt (l1 ++ l2) fa
    = match main_getopt l1 fa with
      | None => None
      | Some fa' => main_getopt l2 fa'
      end.
Proof.
  induction l1 as [|[ch dup] rest IH]; intros fa; cbn; [reflexivity|].
  destruct (main_option ch dup fa); [apply IH | reflexivity].
Qed.

Lemma last_is_snoc (c x : ascii) (among chs : list ascii) :
  last_is c among (chs ++ [x])
  = if existsb (Ascii.eqb x) among then Ascii.eqb x c else last_is c among chs.
Proof.
  unfold last_is. rewrite rev_app_distr. cbn [rev app find].
  now destruct (existsb (Ascii.eqb x) among).
Qed.

Ltac flag_bits :=
  change F_APPEND_NULL_ALL with (2 ^ 0) in *;
  change F_CHECK_AFP_EA with (2 ^ 1) in *;
  change F_DRY_RUN with (2 ^ 2) in *;
  change F_FIX_AFP_EA with (2 ^ 3) in *;
  change F_APPEND_NULL with (2 ^ 4) in *;
  change F_VERBOSE with (2 ^ 5) in *;
  change F_DEBUG with (2 ^ 6) in *;
  change F_RECURSIVE with (2 ^ 7) in *;
  rewrite ?has_clear, ?has_lor by lia;
  rewrite ?has_bit in * by lia;
  rewrite ?Z.pow2_bits_eqb by lia.

Lemma main_option_parsed (l : list (ascii * option string)) (ch : ascii)
      (dup : option string) (fa fa' : Z * option string) :
  parsed l fa -> main_option ch dup fa = Some fa' -> parsed (l ++ [(ch, dup)]) fa'.
Proof.
  intros Hp Ho. pose proof (main_option_cases ch dup fa fa' Ho) as Hc.
  destruct fa as [flags attr]. unfold parsed in *. cbv zeta in *. cbn [fst snd] in *.
  destruct Hp as (R & A & C & D & F & N & V & G & RR & AT).
  rewrite map_app, rev_app_distr. cbn [map fst rev app find].
  rewrite !existsb_app, !last_is_snoc.
  assert (R16 : 0 <= Z.lor F_APPEND_NULL_ALL F_APPEND_NULL < 256) by (cbn; lia).
  destruct Hc as [-> | [-> | [-> | [-> | [-> | [-> | [-> | ->]]]]]]];
    cbn [main_option] in Ho; injection Ho as <-; cbn [fst snd];
    (split; [first [apply range_clear, range_lor | apply range_lor];
             first [exact R | exact R16 | cbn; lia] |]);
    flag_bits; cbn [existsb Ascii.eqb Bool.eqb orb andb negb Z.eqb Pos.eqb];
    rewrite ?orb_false_r, ?orb_true_r, ?andb_true_r, ?andb_false_r, ?A, ?C, ?D, ?F, ?N, ?V, ?G, ?RR;
    repeat split; try reflexivity; try assumption.
  all: idtac.
Qed.

Lemma main_getopt_spec (opts : list (ascii * option string)) :
  forall fa, main_getopt opts (F_NONE, None) = Some fa -> parsed opts fa.
Proof.
  induction opts as [|[ch dup] l IH] using rev_ind; intros fa H.
  - cbn in H. injection H as <-. unfold parsed. cbv zeta. cbn [fst snd map rev find].
    split; [unfold F_NONE; lia|]. repeat split.
  - rewrite main_getopt_app in H.
    destruct (main_getopt l (F_NONE, None)) as [fa0|] eqn:E; [|discriminate].
    cbn [main_getopt] in H.
    destruct (main_option ch dup fa0) as [fa1|] eqn:E1; [|discriminate].
    injection H as <-. now apply (main_option_parsed l ch dup fa0 fa1 (IH fa0 eq_refl)).
Qed.

Lemma find_map {A B} (f : A -> B) (p : B -> bool) (l : list A) :
  find p (map f l) = option_map f (find (fun x => p (f x)) l).
Proof.
  induction l as [|a t IH]; cbn; [reflexivity|].
  now destruct (p (f a)).
Qed.

(** X17.  The options of [main].  When the loop over the options ends
    without a call of [usage], [flags] is below 256 and each of its bits is
    determined by the options given: dry run, debug, recursive and verbose
    are set when -C, -d, -r, -v occur; check is set when the last of -c and
    -f is -c, fix when it is -f, so they are never both set; the append bit
    is set when -a or -n occurs, the append-all bit when the last of them is
    -a; and [attr] is the copy of the argument of -n when the last of them
    is -n, NULL otherwise.  So with the append-all bit [attr] is NULL, and
    with a name the append bit is set and the append-all bit is not. *)
Theorem main_getopt_flags (opts : list (ascii * option string)) (flags : Z)
        (attr : option string) :
  main_getopt opts (F_NONE, None) = Some (flags, attr) ->
  parsed opts (flags, attr) /\
  has flags F_CHECK_AFP_EA && has flags F_FIX_AFP_EA = false /\
  (has flags F_APPEND_NULL_ALL = true -> has flags F_APPEND_NULL = true /\ attr = None) /\
  (attr <> None -> has flags F_APPEND_NULL = true /\ has flags F_APPEND_NULL_ALL = false).
Proof.
  intros H. pose proof (main_getopt_spec opts _ H) as Hp. split; [exact Hp|].
  unfold parsed in Hp. cbv zeta in Hp. cbn [fst snd] in Hp.
  destruct Hp as (R & A & C & D & F & N & V & G & RR & AT).
  assert (HA : has flags F_APPEND_NULL_ALL = true ->
               has flags F_APPEND_NULL = true /\ attr = None).
  { rewrite A, N, AT. unfold last_is. rewrite <- map_rev, find_map.
    destruct (find _ (rev opts)) as [[c d]|] eqn:Ef; cbn [option_map fst];
      [|discriminate].
    intros Ha. apply Ascii.eqb_eq in Ha. subst c. split; [|reflexivity].
    apply find_some in Ef as [Hin _]. apply in_rev in Hin.
    apply orb_true_iff. left. apply existsb_exists. exists "a"%char.
    split; [|reflexivity]. now apply (in_map fst) in Hin. }
  split; [|split; [exact HA|]].
  - rewrite C, F. unfold last_is.
    destruct (find _ (rev (map fst opts))) as [x|]; [|reflexivity].
    destruct (Ascii.eqb_spec x "c") as [->|]; reflexivity.
  - intros Hattr.
    destruct (has flags F_APPEND_NULL_ALL) eqn:Hall.
    + destruct (HA eq_refl) as [_ Hnone]. contradiction.
    + split; [|reflexivity]. rewrite N. rewrite AT in Hattr.
      destruct (find _ (rev opts)) as [[c d]|] eqn:Ef; [|contradiction].
      destruct (Ascii.eqb_spec c "n") as [->|]; [|contradiction].
      apply find_some in Ef as [Hin _]. apply in_rev in Hin.
      apply orb_true_iff. right. apply existsb_exists. exists "n"%char.
      split; [|reflexivity]. now apply (in_map fst) in Hin.
Qed.

Lemma main_getopt_flags_witness :
  parsed sample_options (0x38, Some "DosStream.x") /\
  has 0x38 F_CHECK_AFP_EA && has 0x38 F_FIX_AFP_EA = false /\
  (has 0x38 F_APPEND_NULL_ALL = true ->
   has 0x38 F_APPEND_NULL = true /\ Some "DosStream.x" = None) /\
  (Some "DosStream.x" <> None ->
   has 0x38 F_APPEND_NULL = true /\ has 0x38 F_APPEND_NULL_ALL = false).
Proof.
  apply (main_getopt_flags sample_options 0x38 (Some "DosStream.x")).
  vm_compute. reflexivity.
Defined.

(** X18.  The loop over the options calls [usage] exactly when one of the
    options is not among a, c, C, d, f, n, r and v: that is the case of -p,
    which the option string given to [getopt] accepts. *)
Theorem main_getopt_usage (opts : list (ascii * option string)) (fa : Z * option string) :
  main_getopt opts fa = None <-> exists ch, In ch (map fst opts) /\ handled ch = false.
Proof.
  revert fa. induction opts as [|[ch dup] rest IH]; intros fa; cbn [main_getopt map fst].
  - split; [discriminate | intros (ch & [] & _)].
  - destruct (main_option ch dup fa) as [fa'|] eqn:E.
    + rewrite IH. apply main_option_cases in E.
      assert (Hh : handled ch = true)
        by (destruct E as [-> | [-> | [-> | [-> | [-> | [-> | [-> | ->]]]]]]]; reflexivity).
      split.
      * intros (c & Hin & Hc). exists c. split; [now right | exact Hc].
      * intros (c & [<- | Hin] & Hc); [congruence | now exists c].
    + split; [intros _ | reflexivity]. exists ch. split; [now left|].
      destruct fa as [flags attr].
      destruct ch as [[] [] [] [] [] [] [] []]; cbn in E; try discriminate; reflexivity.
Qed.

(** ** The repair from end to end *)

Lemma store_head (p : ptr) (b0 : byte) (t : list byte) (l : bool) (b : byte) (s : state) :
  nth_error (heap s) p = Some (mkBlock (b0 :: t) l) ->
  store p 0 b s = (tt, set_heap (upd p (mkBlock (b :: t) l) (heap s)) s).
Proof.
  intros Hp. unfold store. rewrite Hp. cbn [bytes live List.length].
  replace ((0 <=? 0) && (0 <? Z.of_nat (S (List.length t)))) with true
    by (symmetry; apply andb_true_iff; split; [apply Z.leb_le | apply Z.ltb_lt]; lia).
  reflexivity.
Qed.

(** One turn of the repair that writes, on a record that holds a
    non-empty value: the first byte of the value block becomes 'A', the
    object gets the new value under the name of the record, and nothing
    else changes but the trace. *)
Lemma fix_afp_turn_repairs (o : oracle) (fd : Z) (path : string) (flags : Z)
      (x : xattr) (ret setret : Z) (s : state) (nm : string) (b0 : byte) (t : list byte) :
  has flags F_FIX_AFP_EA = true ->
  has flags F_DRY_RUN = false ->
  set_err o (nset s) = false ->
  holds s x (nm, b0 :: t) ->
  plain nm = true ->
  name x <> value x ->
  Z.of_nat (List.length (b0 :: t)) < 2 ^ 31 ->
  exists tr r,
    fix_afp_turn o fd path flags x ret setret s
    = (r, mkState (upd (value x) (mkBlock (x41 :: t) true) (heap s))
                  (xlist s) (afp_list s) (append_list s)
                  (assign nm (x41 :: t) (storage s)) tr
                  (nmalloc s) (nlist s) (nget s) (S (nset s)) (room s)).
Proof.
  intros Hfix Hdry Hok (Hn & Hr & Hv & Hl) Hpl Hne Hsmall.
  apply andb_true_iff in Hpl as [_ Hnul].
  cbn [fst snd] in *.
  unfold fix_afp_turn.
  unfold bind at 1. unfold gets at 1. unfold bind at 1.
  destruct (debug_dump_trace flags path (cstr s (name x)) (value x) (length x) s)
    as (t1 & E1 & _ & _).
  rewrite E1. clear E1.
  destruct s as [h xs af ap st tr km kl kg ks rm].
  unfold room_of in Hr.
  cbn [heap xlist afp_list append_list storage trace nmalloc nlist nget nset room] in *.
  rewrite Hfix, Hdry. cbn [negb].
  assert (Hn' : forall tr' st' ks',
             cstr (mkState (upd (value x) (mkBlock (x41 :: t) true) h) xs af ap st' tr'
                           km kl kg ks' rm) (name x) = nm).
  { intros. apply (cstr_plain _ _ nm true); [|exact Hr|exact Hnul]. cbn [heap].
    rewrite nth_error_upd_other by congruence. exact Hn. }
  assert (Hload : forall tr' ks',
             load_bytes (mkState (upd (value x) (mkBlock (x41 :: t) true) h) xs af ap st tr'
                                 km kl kg ks' rm) (value x) 0 (length x) = x41 :: t).
  { intros. unfold load_bytes, block_bytes. cbn [heap].
    rewrite nth_error_upd_same by (apply nth_error_Some; congruence).
    cbn [bytes]. rewrite Hl, Nat2Z.id. change (Z.to_nat 0) with 0%nat.
    cbn [skipn List.length firstn]. f_equal. apply firstn_all. }
  assert (Hpos : (0 <? length x) = true)
    by (apply Z.ltb_lt; rewrite Hl; cbn [List.length]; lia).
  assert (Hnn : (length x <? 0) = false)
    by (apply Z.ltb_ge; rewrite Hl; lia).
  assert (Hint : to_int (length x) = length x)
    by (apply to_int_small; rewrite Hl; lia).
  destruct (has flags F_CHECK_AFP_EA), (has flags F_VERBOSE);
    unfold warn, bind, gets, emit, modify, mret; state_norm;
    rewrite (store_head _ b0 t true) by (state_norm; exact Hv);
    state_norm; unfold extattr_set_fd; state_norm; rewrite Hok;
    rewrite ?Hn', ?Hload, Hint, Hnn, Hpos; cbn [orb]; state_norm;
    rewrite ?Hn'; do 2 eexists; reflexivity.
Qed.

(** Replacing a block that no record of [xs] points to leaves what the
    records hold as it is. *)
Lemma holds_frame (s s' : state) (p : ptr) (blk : block) (xs : list xattr)
      (es : list (string * list byte)) :
  heap s' = upd p blk (heap s) ->
  room s' = room s ->
  ~ In p (buffers_of xs) ->
  Forall2 (holds s) xs es -> Forall2 (holds s') xs es.
Proof.
  intros Hh Hrm Hp H. induction H as [|x e xs es (Hn & Hr & Hv & Hl) H IH]; [constructor|].
  cbn [buffers_of flat_map app] in Hp.
  constructor.
  - unfold holds, room_of. rewrite Hrm.
    rewrite Hh, !nth_error_upd_other by (intros ->; apply Hp; cbn; tauto).
    now repeat split.
  - apply IH. intros Hin. apply Hp. cbn. tauto.
Qed.

(** Replacing the value block of the record at position [i] by a value of
    the same size updates what that record holds, and nothing else. *)
Lemma holds_update (s s' : state) (xs : list xattr) (es : list (string * list byte)) :
  Forall2 (holds s) xs es ->
  forall (i : nat) (x : xattr) (nm : string) (v v' : list byte),
    NoDup (buffers_of xs) ->
    nth_error xs i = Some x ->
    nth_error es i = Some (nm, v) ->
    List.length v' = List.length v ->
    heap s' = upd (value x) (mkBlock v' true) (heap s) ->
    room s' = room s ->
    Forall2 (holds s') xs (upd i (nm, v') es).
Proof.
  intros H. induction H as [|y e xs es Hy H IH]; intros i x nm v v' Hnd Hx He Hlen Hh Hrm.
  - destruct i; discriminate.
  - cbn [buffers_of flat_map app] in Hnd. fold (buffers_of xs) in Hnd.
    apply NoDup_cons_iff in Hnd as [Hn1 Hnd]. apply NoDup_cons_iff in Hnd as [Hn2 Hnd].
    destruct i as [|i]; cbn [nth_error upd] in *.
    + injection Hx as ->. injection He as ->.
      destruct Hy as (Hn & Hr & Hv & Hl). cbn [fst snd] in *.
      constructor.
      * unfold holds, room_of. cbn [fst snd]. rewrite Hrm, Hh.
        rewrite nth_error_upd_other by (intros E; apply Hn1; cbn; now left).
        rewrite nth_error_upd_same by (apply nth_error_Some; congruence).
        repeat split; [exact Hn | exact Hr | now rewrite Hl, Hlen].
      * now apply (holds_frame s s' (value x) (mkBlock v' true)).
    + assert (Hin : In (value x) (buffers_of xs)).
      { apply nth_error_In in Hx. unfold buffers_of. apply in_flat_map.
        exists x. split; [exact Hx | cbn; tauto]. }
      constructor.
      * destruct Hy as (Hn & Hr & Hv & Hl). unfold holds, room_of. rewrite Hrm, Hh.
        rewrite !nth_error_upd_other; [now repeat split | |].
        -- intros E. apply Hn2. now rewrite <- E.
        -- intros E. apply Hn1. right. now rewrite <- E.
      * now apply (IH i x nm v v').
Qed.

Lemma Forall2_nth {A B} (R : A -> B -> Prop) (l1 : list A) (l2 : list B) :
  Forall2 R l1 l2 ->
  forall i,
    match nth_error l1 i, nth_error l2 i with
    | Some a, Some b => R a b
    | None, None => True
    | _, _ => False
    end.
Proof.
  intros H. induction H as [|a b l1 l2 Hab H IH]; intros [|i]; cbn; auto. apply IH.
Qed.


Lemma fold_left_pointwise {A B} (f g : A -> B -> A) (l : list B) :
  (forall a b, f a b = g a b) -> forall a, fold_left f l a = fold_left g l a.
Proof.
  intros H. induction l as [|b l IH]; intros a; cbn; [reflexivity|].
  now rewrite H, IH.
Qed.

Lemma nth_error_upd {A} (l : list A) (i j : nat) (x : A) :
  nth_error (upd i x l) j
  = if Nat.eqb i j then option_map (fun _ => x) (nth_error l j) else nth_error l j.
Proof.
  destruct (Nat.eqb_spec i j) as [->|Hne].
  - destruct (nth_error l j) eqn:E; cbn.
    + apply nth_error_upd_same. apply nth_error_Some. congruence.
    + apply nth_error_None. rewrite upd_length. now apply nth_error_None.
  - now apply nth_error_upd_other.
Qed.

Lemma fix_afp_loop_storage (o : oracle) (fd : Z) (path : string) (flags : Z) :
  has flags F_FIX_AFP_EA = true ->
  has flags F_DRY_RUN = false ->
  (forall k, set_err o k = false) ->
  forall (view : list nat) (ret setret : Z) (s : state) (es : list (string * list byte)),
    Forall2 (holds s) (xlist s) es ->
    NoDup (buffers_of (xlist s)) ->
    Forall (fun e => plain (fst e) = true /\ Z.of_nat (List.length (snd e)) < 2 ^ 31) es ->
    Forall (fun i => forall e, nth_error es i = Some e -> snd e <> []) view ->
    storage (snd (fix_afp_loop o fd path flags view ret setret s))
    = fold_left (repair_step es) view (storage s).
Proof.
  intros Hfix Hdry Hok.
  induction view as [|idx rest IH]; intros ret setret s es Hh Hnd Hes Hview;
    cbn [fix_afp_loop fold_left]; [reflexivity|].
  apply Forall_cons_iff in Hview as [Hidx Hrest].
  unfold bind at 1. unfold gets at 1.
  pose proof (Forall2_nth _ _ _ Hh idx) as Hi. unfold repair_step at 2.
  destruct (nth_error (xlist s) idx) as [x|] eqn:Hx;
    destruct (nth_error es idx) as [[nm v]|] eqn:He; try contradiction;
    [|now apply IH].
  cbn [fst snd].
  destruct v as [|b0 t]; [now destruct (Hidx _ eq_refl)|].
  assert (Hne : name x <> value x).
  { clear - Hnd Hx. apply nth_error_split in Hx as (l1 & l2 & E & _).
    rewrite E in Hnd. clear E.
    unfold buffers_of in Hnd. rewrite flat_map_app in Hnd. apply NoDup_app_remove_l in Hnd.
    cbn in Hnd. apply NoDup_cons_iff in Hnd as [Hn _]. intros E. apply Hn. now left. }
  rewrite Forall_forall in Hes.
  destruct (Hes _ (nth_error_In _ _ He)) as [Hpl Hsm]. cbn [fst snd] in Hpl, Hsm.
  destruct (fix_afp_turn_repairs o fd path flags x ret setret s nm b0 t Hfix Hdry
              (Hok _) Hi Hpl Hne Hsm) as (tr & [r1 r2] & E).
  unfold bind. rewrite E. cbn [fix_head].
  set (s1 := mkState _ _ _ _ _ _ _ _ _ _ _).
  rewrite (IH r1 r2 s1 (upd idx (nm, x41 :: t) es)).
  - subst s1. cbn [storage]. apply fold_left_pointwise. intros st i.
    unfold repair_step. rewrite nth_error_upd.
    destruct (Nat.eqb_spec idx i) as [<-|]; [|reflexivity].
    now rewrite He.
  - subst s1. cbn [xlist].
    now apply (holds_update s _ (xlist s) es Hh idx x nm (b0 :: t) (x41 :: t)).
  - exact Hnd.
  - apply Forall_upd; [|now apply Forall_forall]. now split.
  - rewrite Forall_forall in *. intros i Hin e. rewrite nth_error_upd.
    destruct (Nat.eqb_spec idx i) as [<-|]; [|now apply Hrest].
    rewrite He. cbn. intros [= <-]. discriminate.
Qed.

Lemma selects_holds (s : state) (x : xattr) (e : string * list byte) :
  holds s x e -> selects s x = afp_corrupted (snd e).
Proof.
  intros (_ & _ & Hv & Hl). unfold selects, AFP_EA_CORRUPTED, load, block_bytes.
  rewrite Hv, Hl. cbn [bytes].
  destruct (snd e) as [|b0 [|b1 [|b2 t]]]; try reflexivity.
  replace (3 <=? Z.of_nat (List.length (b0 :: b1 :: b2 :: t))) with true
    by (symmetry; apply Z.leb_le; cbn [List.length]; lia).
  reflexivity.
Qed.

(** The positions selected by [get_afp_list], turned into the attributes
    they hold. *)
Lemma selection_fold (s : state) (xs : list xattr) (es : list (string * list byte)) :
  Forall2 (holds s) xs es ->
  forall (pre : list (string * list byte)) (st : list (string * list byte)),
    fold_left (repair_step (pre ++ es))
              (map fst (filter (fun e => selects s (snd e))
                               (combine (seq (List.length pre) (List.length xs)) xs))) st
    = fold_left (fun st e => assign (fst e) (fix_head (snd e)) st)
                (filter (fun e => afp_corrupted (snd e)) es) st.
Proof.
  intros H. induction H as [|x e xs es Hxe H IH]; intros pre st; [reflexivity|].
  cbn [List.length seq combine filter snd].
  rewrite (selects_holds s x e Hxe).
  specialize (IH (pre ++ [e])). rewrite <- app_assoc, length_app in IH.
  cbn [app List.length] in IH. rewrite Nat.add_1_r in IH.
  destruct (afp_corrupted (snd e)); [|apply IH].
  cbn [map fst fold_left]. unfold repair_step at 2.
  rewrite nth_error_app2, Nat.sub_diag by lia. cbn [nth_error]. apply IH.
Qed.

Lemma lookup_NoDup (st : list (string * list byte)) (e : string * list byte) :
  NoDup (map fst st) -> In e st -> lookup (fst e) st = Some (snd e).
Proof.
  induction st as [|[k w] t IH]; intros Hnd Hin; [destruct Hin|].
  cbn [map fst] in Hnd. apply NoDup_cons_iff in Hnd as [Hk Hnd].
  cbn [lookup]. destruct Hin as [<- | Hin].
  - cbn [fst snd]. now rewrite String.eqb_refl.
  - destruct (String.eqb_spec k (fst e)) as [->|_]; [|now apply IH].
    destruct Hk. now apply in_map.
Qed.

Lemma kept_entries_filter (st rest : list (string * list byte)) :
  NoDup (map fst st) -> incl rest st ->
  kept_entries st rest = filter (fun e => prefix "DosStream." (fst e)) rest.
Proof.
  intros Hnd. induction rest as [|e rest IH]; intros Hin; [reflexivity|].
  cbn [kept_entries flat_map filter]. fold (kept_entries st rest).
  rewrite IH by (intros a Ha; apply Hin; now right).
  rewrite (lookup_NoDup st e Hnd) by (apply Hin; now left).
  destruct (prefix "DosStream." (fst e)); [|reflexivity]. now destruct e.
Qed.

Lemma assign_first (nm : string) (v w : list byte) (l1 l2 : list (string * list byte)) :
  ~ In nm (map fst l1) -> assign nm v (l1 ++ (nm, w) :: l2) = l1 ++ (nm, v) :: l2.
Proof.
  induction l1 as [|[k u] t IH]; intros Hn; cbn [app assign].
  - now rewrite String.eqb_refl.
  - cbn [map fst] in Hn. destruct (String.eqb_spec k nm) as [->|_].
    + destruct Hn. now left.
    + f_equal. apply IH. intros H. apply Hn. now right.
Qed.

Lemma fold_assign_map (f : list byte -> list byte) (p : string * list byte -> bool)
      (rest : list (string * list byte)) :
  forall pre : list (string * list byte),
    NoDup (map fst (pre ++ rest)) ->
    fold_left (fun st e => assign (fst e) (f (snd e)) st) (filter p rest)
              (map (fun e => if p e then (fst e, f (snd e)) else e) pre ++ rest)
    = map (fun e => if p e then (fst e, f (snd e)) else e) (pre ++ rest).
Proof.
  induction rest as [|e rest IH]; intros pre Hnd.
  - cbn. now rewrite !app_nil_r.
  - specialize (IH (pre ++ [e])). rewrite <- app_assoc in IH. cbn [app] in IH.
    specialize (IH Hnd). rewrite map_app in IH. cbn [map] in IH.
    rewrite <- app_assoc in IH. cbn [app] in IH.
    cbn [filter]. destruct (p e) eqn:Hp.
    + cbn [fold_left]. destruct e as [nm w]. cbn [fst snd] in *.
      rewrite assign_first; [exact IH|].
      rewrite map_map.
      rewrite map_app in Hnd. apply NoDup_remove_2 in Hnd.
      intros Hin. apply Hnd. apply in_or_app. left.
      apply in_map_iff in Hin as (a & Ha & Hin). apply in_map_iff. exists a.
      split; [|exact Hin]. now destruct (p a).
    + exact IH.
Qed.

Lemma filter_filter {A} (p q : A -> bool) (l : list A) :
  filter q (filter p l) = filter (fun a => p a && q a) l.
Proof.
  induction l as [|a l IH]; cbn; [reflexivity|].
  destruct (p a); cbn; [|exact IH]. destruct (q a); now rewrite IH.
Qed.

(** Assigning the repaired value of every corrupted AFP attribute is one
    pass of [repair] over the object. *)
Lemma repairs_all (st : list (string * list byte)) :
  NoDup (map fst st) ->
  fold_left (fun st e => assign (fst e) (fix_head (snd e)) st)
            (filter (fun e => afp_corrupted (snd e)) (afp_entries st)) st
  = map repair st.
Proof.
  intros Hnd. unfold afp_entries.
  rewrite kept_entries_filter by (try exact Hnd; apply incl_refl).
  rewrite filter_filter.
  exact (fold_assign_map fix_head
           (fun e => prefix "DosStream." (fst e) && afp_corrupted (snd e)) st [] Hnd).
Qed.

Lemma afp_entries_incl (st : list (string * list byte)) :
  NoDup (map fst st) -> incl (afp_entries st) st.
Proof.
  intros Hnd. unfold afp_entries.
  rewrite kept_entries_filter by (try exact Hnd; apply incl_refl).
  intros e He. now apply filter_In in He.
Qed.

(** The part of [do_ea_stuff_single] before the label, in a repair without
    append, on an object whose names are distinct. *)
Lemma do_ea_stuff_body_repairs (o : oracle) (fd : Z) (path : string)
      (attr : option string) (flags : Z) (s : state) :
  calm o ->
  roomy o ->
  (forall k, set_err o k = false) ->
  0 <= fd ->
  has flags F_FIX_AFP_EA = true ->
  has flags F_DRY_RUN = false ->
  has flags F_APPEND_NULL = false ->
  has flags F_APPEND_NULL_ALL = false ->
  xlist s = [] -> afp_list s = [] ->
  NoDup (map fst (storage s)) ->
  Forall (fun e => plain (fst e) = true) (storage s) ->
  Forall (fun e => Z.of_nat (List.length (snd e)) < 2 ^ 31) (storage s) ->
  Z.of_nat (List.length (listing (storage s))) < 2 ^ 31 ->
  storage (snd (do_ea_stuff_body o fd path attr flags s)) = map repair (storage s) /\
  (has flags F_CHECK_AFP_EA = false ->
   fst (do_ea_stuff_body o fd path attr flags s) = EX_OK).
Proof.
  intros Hc Hroom Hok Hfd Hfix Hdry Happ Hall Hx0 Ha0 Hnd Hpl Hsmall Hlen.
  enough (H : exists r s',
             do_ea_stuff_body o fd path attr flags s = (r, s') /\
             storage s' = map repair (storage s) /\
             (has flags F_CHECK_AFP_EA = false -> r = EX_OK))
    by (destruct H as (r & s' & -> & H1 & H2); now split).
  unfold do_ea_stuff_body.
  replace (fd <? 0) with false by (symmetry; apply Z.ltb_ge; lia).
  unfold bind at 1.
  destruct (get_extended_attributes_spec o fd s Hc Hroom Hpl Hsmall Hlen)
    as (new & Hr & Hx & Hs & Hh & Hn & _).
  pose proof (get_extended_attributes_views o fd s) as [Hv _].
  destruct (get_extended_attributes o fd s) as [r s1]. cbn [fst snd] in *.
  subst r. change (0 <? 0) with false. cbv iota.
  rewrite Hx0 in Hx. cbn [app] in Hx. rewrite Ha0 in Hv.
  rewrite Hfix, Happ, Hall, orb_true_r. cbn [orb].
  unfold bind at 1. unfold bind at 1.
  destruct (get_afp_list_spec s1) as (sel & E2 & Hsel & _).
  rewrite E2. rewrite Hv. cbn [app].
  set (s2 := set_afp_list sel s1).
  unfold bind at 1. unfold fix_afp_list at 1. unfold bind at 1. unfold gets at 1.
  change (afp_list s2) with sel.
  assert (Hh2 : Forall2 (holds s2) (xlist s2) (afp_entries (storage s))).
  { change (xlist s2) with (xlist s1). rewrite Hx. exact Hh. }
  assert (Hn2 : NoDup (buffers_of (xlist s2))).
  { change (xlist s2) with (xlist s1). now rewrite Hx. }
  assert (Hes : Forall (fun e => plain (fst e) = true /\
                                 Z.of_nat (List.length (snd e)) < 2 ^ 31)
                       (afp_entries (storage s))).
  { rewrite Forall_forall in *. intros e He. apply (afp_entries_incl _ Hnd) in He.
    split; [now apply Hpl | now apply Hsmall]. }
  assert (Hsel2 : forall i x, In i sel -> nth_error (xlist s2) i = Some x ->
                    exists e, nth_error (afp_entries (storage s)) i = Some e /\
                              holds s2 x e /\ snd e <> []).
  { intros i x Hi Hxi. pose proof (Forall2_nth _ _ _ Hh2 i) as H2. rewrite Hxi in H2.
    destruct (nth_error (afp_entries (storage s)) i) as [e|]; [|contradiction].
    exists e. split; [reflexivity|]. split; [exact H2|].
    apply Hsel in Hi as (y & Hy & Hl3 & _). change (xlist s2) with (xlist s1) in Hxi.
    rewrite Hxi in Hy. injection Hy as <-. destruct H2 as (_ & _ & _ & Hl).
    rewrite Hl in Hl3. intros E. rewrite E in Hl3. cbn in Hl3. lia. }
  assert (Hview : Forall (fun i => forall e, nth_error (afp_entries (storage s)) i = Some e ->
                                             snd e <> []) sel).
  { apply Forall_forall. intros i Hi e He.
    pose proof (Forall2_nth _ _ _ Hh2 i) as H2. rewrite He in H2.
    destruct (nth_error (xlist s2) i) as [x|] eqn:Hxi; [|contradiction].
    destruct (Hsel2 i x Hi Hxi) as (e' & He' & _ & Hne). congruence. }
  pose proof (fix_afp_loop_storage o fd path flags Hfix Hdry Hok sel 0 0 s2
                (afp_entries (storage s)) Hh2 Hn2 Hes Hview) as Hst.
  pose proof (fix_afp_loop_bit o fd path flags sel 0 0 s2 (or_introl eq_refl)) as Hbit.
  assert (Hcode : has flags F_CHECK_AFP_EA = false ->
                  fst (fix_afp_loop o fd path flags sel 0 0 s2) = 0).
  { intros Hchk. apply (fix_afp_loop_succeeds o fd path flags Hfix Hdry Hchk).
    - intros i x Hi Hxi. destruct (Hsel2 i x Hi Hxi) as (e & He & (_ & _ & _ & Hl) & _).
      rewrite Hl. rewrite Forall_forall in Hes.
      destruct (Hes e (nth_error_In _ _ He)) as [_ Hsm]. lia.
    - intros k _. apply Hok. }
  destruct (fix_afp_loop o fd path flags sel 0 0 s2) as [r3 s3]. cbn [fst snd] in *.
  replace (r3 <? 0) with false
    by (symmetry; apply Z.ltb_ge; destruct Hbit as [-> | ->];
        unfold EX_EA_CORRUPTED; lia).
  unfold mret. exists r3, s3. split; [reflexivity|]. split; [|exact Hcode].
  rewrite Hst. change (storage s2) with (storage s1). rewrite Hs.
  assert (Hsel_eq : sel = map fst (filter (fun e => selects s1 (snd e))
                                          (combine (seq 0 (List.length (xlist s1)))
                                                   (xlist s1)))).
  { unfold get_afp_list, bind, gets, mret in E2.
    rewrite get_afp_loop_filter in E2. injection E2 as E2.
    apply app_inv_head in E2. now symmetry. }
  rewrite Hsel_eq.
  rewrite <- (repairs_all (storage s) Hnd).
  change (afp_entries (storage s)) with ([] ++ afp_entries (storage s)) at 1.
  change 0%nat with (List.length (@nil (string * list byte))).
  apply (selection_fold s1). rewrite Hx in *. exact Hh.
Qed.

Lemma do_ea_stuff_single_repair_spec (o : oracle) (path : string) (attr : option string)
      (flags : Z) (s : state) :
  calm o ->
  roomy o ->
  (forall k, set_err o k = false) ->
  0 <= open_result o ->
  has flags F_FIX_AFP_EA = true ->
  has flags F_DRY_RUN = false ->
  has flags F_APPEND_NULL = false ->
  has flags F_APPEND_NULL_ALL = false ->
  NoDup (map fst (storage s)) ->
  Forall (fun e => plain (fst e) = true) (storage s) ->
  Forall (fun e => Z.of_nat (List.length (snd e)) < 2 ^ 31) (storage s) ->
  Z.of_nat (List.length (listing (storage s))) < 2 ^ 31 ->
  storage (snd (do_ea_stuff_single o path attr flags s)) = map repair (storage s) /\
  (has flags F_CHECK_AFP_EA = false ->
   fst (do_ea_stuff_single o path attr flags s) = EX_OK).
Proof.
  intros Hc Hroom Hok Hfd Hfix Hdry Happ Hall Hnd Hpl Hsmall Hlen.
  rewrite do_ea_stuff_single_split. cbv zeta. cbn [fst snd].
  set (s0 := set_append_list [] (set_afp_list [] (set_xlist [] s))).
  destruct (do_ea_stuff_body_repairs o (open_result o) path attr flags s0
              Hc Hroom Hok Hfd Hfix Hdry Happ Hall eq_refl eq_refl Hnd Hpl Hsmall Hlen)
    as [Hst Hcode].
  split; [|exact Hcode].
  destruct (cleanup_unwritten (open_result o)
              (snd (do_ea_stuff_body o (open_result o) path attr flags s0)))
    as (Hs & _).
  rewrite Hs. exact Hst.
Qed.

(** X19.  The repair from end to end.  When no call fails, every
    allocation has a usable byte past its size (so that the terminators of
    the names land in memory of their blocks), the names of the object are
    distinct, at most 255 bytes long and without a NUL, and the sizes fit an
    [int], [do_ea_stuff_single] with the fix flag, without dry
    run and without append, leaves the object with every attribute whose
    name starts with "DosStream." and whose value starts with 00 'F' 'P'
    rewritten with 'A' as its first byte, and every other attribute as it
    was; without the check flag the result is [EX_OK]. *)
Theorem do_ea_stuff_single_repairs (o : oracle) (path : string) (attr : option string)
        (flags : Z) (s : state) :
  calm o ->
  roomy o ->
  (forall k, set_err o k = false) ->
  0 <= open_result o ->
  has flags F_FIX_AFP_EA = true ->
  has flags F_DRY_RUN = false ->
  has flags F_APPEND_NULL = false ->
  has flags F_APPEND_NULL_ALL = false ->
  NoDup (map fst (storage s)) ->
  Forall (fun e => plain (fst e) = true) (storage s) ->
  Forall (fun e => Z.of_nat (List.length (snd e)) < 2 ^ 31) (storage s) ->
  Z.of_nat (List.length (listing (storage s))) < 2 ^ 31 ->
  storage (snd (do_ea_stuff_single o path attr flags s)) = map repair (storage s) /\
  (has flags F_CHECK_AFP_EA = false ->
   fst (do_ea_stuff_single o path attr flags s) = EX_OK).
Proof. exact (do_ea_stuff_single_repair_spec o path attr flags s). Qed.


Lemma do_ea_stuff_single_repairs_witness :
  storage (snd (do_ea_stuff_single quiet "/f" None 0x28 (initial repair_sample)))
  = map repair (storage (initial repair_sample)) /\
  (has 0x28 F_CHECK_AFP_EA = false ->
   fst (do_ea_stuff_single quiet "/f" None 0x28 (initial repair_sample)) = EX_OK).
Proof.
  apply (do_ea_stuff_single_repairs quiet "/f" None 0x28 (initial repair_sample)).
  - intros k. repeat split.
  - intros k. cbn. lia.
  - reflexivity.
  - vm_compute. discriminate.
  - reflexivity.
  - reflexivity.
  - reflexivity.
  - reflexivity.
  - repeat (apply NoDup_cons; [vm_compute; intuition discriminate|]). apply NoDup_nil.
  - repeat (apply Forall_cons; [vm_compute; reflexivity|]). apply Forall_nil.
  - repeat (apply Forall_cons; [vm_compute; reflexivity|]). apply Forall_nil.
  - vm_compute. reflexivity.
Defined.

(** ** The check from end to end *)

Lemma corrupted_holds (s : state) (x : xattr) (e : string * list byte) :
  holds s x e -> (corrupted s x <-> afp_corrupted (snd e) = true).
Proof.
  intros (_ & _ & Hv & Hl). unfold corrupted, block_bytes. rewrite Hv, Hl. cbn [bytes].
  destruct (snd e) as [|b0 [|b1 [|b2 t]]]; cbn [List.length afp_corrupted firstn];
    try (split; [intros [H _]; cbn in H; lia | discriminate]).
  split.
  - intros [_ [= -> -> ->]]. reflexivity.
  - intros H. apply andb_true_iff in H as [H H2]. apply andb_true_iff in H as [H0 H1].
    apply Byte.byte_dec_bl in H0, H1, H2. subst. split; [lia | reflexivity].
Qed.

Lemma Forall2_exists {A B} (R : A -> B -> Prop) (P : A -> Prop) (q : B -> bool)
      (l1 : list A) (l2 : list B) :
  Forall2 R l1 l2 ->
  (forall a b, R a b -> (P a <-> q b = true)) ->
  ((exists a, In a l1 /\ P a) <-> existsb q l2 = true).
Proof.
  intros H Hpq. induction H as [|a b l1 l2 Hab H IH].
  - cbn. split; [intros (a & [] & _) | discriminate].
  - cbn [existsb]. rewrite orb_true_iff, <- IH, <- (Hpq a b Hab). split.
    + intros (c & [<- | Hc] & Pc); [now left | right; now exists c].
    + intros [Pa | (c & Hc & Pc)]; [exists a; split; [now left | exact Pa]|].
      exists c. split; [now right | exact Pc].
Qed.

Lemma do_ea_stuff_single_check_spec (o : oracle) (path : string) (attr : option string)
      (flags : Z) (s : state) :
  calm o ->
  roomy o ->
  0 <= open_result o ->
  has flags F_CHECK_AFP_EA = true ->
  has flags F_FIX_AFP_EA = false ->
  has flags F_APPEND_NULL = false ->
  has flags F_APPEND_NULL_ALL = false ->
  Forall (fun e => plain (fst e) = true) (storage s) ->
  Forall (fun e => Z.of_nat (List.length (snd e)) < 2 ^ 31) (storage s) ->
  Z.of_nat (List.length (listing (storage s))) < 2 ^ 31 ->
  fst (do_ea_stuff_single o path attr flags s)
  = if existsb (fun e => afp_corrupted (snd e)) (afp_entries (storage s))
    then EX_EA_CORRUPTED else EX_OK.
Proof.
  intros Hc Hroom Hfd Hchk Hfix Happ Hall Hpl Hsmall Hlen.
  rewrite do_ea_stuff_single_result.
  set (s0 := set_append_list [] (set_afp_list [] (set_xlist [] s))).
  destruct (get_extended_attributes_spec o (open_result o) s0 Hc Hroom Hpl Hsmall Hlen)
    as (new & Hr & Hx & Hs & Hh & _).
  change (xlist s0) with (@nil xattr) in Hx. cbn [app] in Hx.
  change (storage s0) with (storage s) in Hh.
  destruct (do_ea_stuff_body_check_only o (open_result o) path attr flags s0
              Hchk Hfix Hall Happ Hfd eq_refl) as [H1 H0]; [rewrite Hr; lia|].
  cbv zeta in H1, H0. rewrite Hx in H1, H0.
  pose proof (Forall2_exists _ _ (fun e => afp_corrupted (snd e)) _ _ Hh
                (corrupted_holds _)) as Hex.
  destruct (existsb _ (afp_entries (storage s))).
  - apply H1. now apply Hex.
  - apply H0. intros H. apply Hex in H. discriminate.
Qed.

(** X20.  The check from end to end.  When no call fails, every allocation
    has a usable byte past its size, the names are at most 255 bytes long
    without a NUL, and the sizes fit an [int],
    [do_ea_stuff_single] with the check flag, without fix and without
    append, returns [EX_EA_CORRUPTED] when the object has an attribute whose
    name starts with "DosStream." and whose value starts with 00 'F' 'P',
    and [EX_OK] when it has none. *)
Theorem do_ea_stuff_single_checks (o : oracle) (path : string) (attr : option string)
        (flags : Z) (s : state) :
  calm o ->
  roomy o ->
  0 <= open_result o ->
  has flags F_CHECK_AFP_EA = true ->
  has flags F_FIX_AFP_EA = false ->
  has flags F_APPEND_NULL = false ->
  has flags F_APPEND_NULL_ALL = false ->
  Forall (fun e => plain (fst e) = true) (storage s) ->
  Forall (fun e => Z.of_nat (List.length (snd e)) < 2 ^ 31) (storage s) ->
  Z.of_nat (List.length (listing (storage s))) < 2 ^ 31 ->
  fst (do_ea_stuff_single o path attr flags s)
  = if existsb (fun e => afp_corrupted (snd e)) (afp_entries (storage s))
    then EX_EA_CORRUPTED else EX_OK.
Proof. exact (do_ea_stuff_single_check_spec o path attr flags s). Qed.

Lemma do_ea_stuff_single_checks_witness :
  fst (do_ea_stuff_single quiet "/f" None 0x22 (initial repair_sample))
  = if existsb (fun e => afp_corrupted (snd e))
               (afp_entries (storage (initial repair_sample)))
    then EX_EA_CORRUPTED else EX_OK.
Proof.
  apply (do_ea_stuff_single_checks quiet "/f" None 0x22 (initial repair_sample)).
  - intros k. repeat split.
  - intros k. cbn. lia.
  - vm_compute. discriminate.
  - reflexivity.
  - reflexivity.
  - reflexivity.
  - reflexivity.
  - repeat (apply Forall_cons; [vm_compute; reflexivity|]). apply Forall_nil.
  - repeat (apply Forall_cons; [vm_compute; reflexivity|]). apply Forall_nil.
  - vm_compute. reflexivity.
Defined.

(** ** A repair followed by a check *)

Lemma repair_fst (e : string * list byte) : fst (repair e) = fst e.
Proof. unfold repair. now destruct (prefix "DosStream." (fst e) && afp_corrupted (snd e)). Qed.

Lemma fix_head_length (v : list byte) : List.length (fix_head v) = List.length v.
Proof. now destruct v. Qed.

Lemma repair_length (e : string * list byte) :
  List.length (snd (repair e)) = List.length (snd e).
Proof.
  unfold repair. destruct (prefix "DosStream." (fst e) && afp_corrupted (snd e));
    [apply fix_head_length | reflexivity].
Qed.

Lemma repair_clean (e : string * list byte) :
  prefix "DosStream." (fst (repair e)) && afp_corrupted (snd (repair e)) = false.
Proof.
  unfold repair.
  destruct (prefix "DosStream." (fst e)) eqn:Hp; cbn [andb].
  - destruct (afp_corrupted (snd e)) eqn:Hc; cbn [fst snd]; rewrite Hp; cbn [andb];
      [|exact Hc].
    destruct (snd e) as [|b0 [|b1 [|b2 t]]]; try discriminate. reflexivity.
  - now rewrite Hp.
Qed.

Lemma listing_names (st st' : list (string * list byte)) :
  map fst st' = map fst st -> listing st' = listing st.
Proof.
  revert st'. induction st as [|e st IH]; intros [|e' st'] H; try discriminate;
    [reflexivity|].
  cbn [map] in H. injection H as H1 H2. cbn [listing flat_map].
  fold (listing st') (listing st). now rewrite H1, (IH st' H2).
Qed.

Lemma existsb_filter {A} (p q : A -> bool) (l : list A) :
  existsb q (filter p l) = existsb (fun a => p a && q a) l.
Proof.
  induction l as [|a l IH]; cbn; [reflexivity|].
  destruct (p a); cbn; now rewrite IH.
Qed.

(** After a repair no attribute of the object passes the test of
    [get_afp_list]. *)
Lemma repaired_clean (st : list (string * list byte)) :
  NoDup (map fst st) ->
  existsb (fun e => afp_corrupted (snd e)) (afp_entries (map repair st)) = false.
Proof.
  intros Hnd.
  assert (Hnames : map fst (map repair st) = map fst st).
  { rewrite map_map. apply map_ext. apply repair_fst. }
  unfold afp_entries.
  rewrite kept_entries_filter by (try apply incl_refl; now rewrite Hnames).
  rewrite existsb_filter.
  induction st as [|e st IH]; [reflexivity|].
  cbn [map existsb]. rewrite repair_clean. cbn [orb]. apply IH.
  - cbn [map] in Hnd. now apply NoDup_cons_iff in Hnd.
  - rewrite map_map. apply map_ext. apply repair_fst.
Qed.

(** X21.  A repair followed by a check.  Under the conditions of the repair
    from end to end, a run of [do_ea_stuff_single] in check mode on the
    state the repair leaves returns [EX_OK]: nothing is left to report. *)
Theorem repair_then_check (o : oracle) (path : string) (attr : option string)
        (fixing checking : Z) (s : state) :
  calm o ->
  roomy o ->
  (forall k, set_err o k = false) ->
  0 <= open_result o ->
  has fixing F_FIX_AFP_EA = true ->
  has fixing F_DRY_RUN = false ->
  has fixing F_APPEND_NULL = false ->
  has fixing F_APPEND_NULL_ALL = false ->
  has checking F_CHECK_AFP_EA = true ->
  has checking F_FIX_AFP_EA = false ->
  has checking F_APPEND_NULL = false ->
  has checking F_APPEND_NULL_ALL = false ->
  NoDup (map fst (storage s)) ->
  Forall (fun e => plain (fst e) = true) (storage s) ->
  Forall (fun e => Z.of_nat (List.length (snd e)) < 2 ^ 31) (storage s) ->
  Z.of_nat (List.length (listing (storage s))) < 2 ^ 31 ->
  fst (do_ea_stuff_single o path attr checking
         (snd (do_ea_stuff_single o path attr fixing s))) = EX_OK.
Proof.
  intros Hc Hroom Hok Hfd F1 F2 F3 F4 C1 C2 C3 C4 Hnd Hpl Hsmall Hlen.
  destruct (do_ea_stuff_single_repair_spec o path attr fixing s
              Hc Hroom Hok Hfd F1 F2 F3 F4 Hnd Hpl Hsmall Hlen) as [Hst _].
  set (s' := snd (do_ea_stuff_single o path attr fixing s)) in *.
  assert (Hnames : map fst (storage s') = map fst (storage s)).
  { rewrite Hst, map_map. apply map_ext. apply repair_fst. }
  rewrite (do_ea_stuff_single_check_spec o path attr checking s' Hc Hroom Hfd C1 C2 C3 C4).
  - rewrite Hst. now rewrite repaired_clean.
  - rewrite Hst. apply Forall_map. revert Hpl. apply Forall_impl.
    intros e He. now rewrite repair_fst.
  - rewrite Hst. apply Forall_map. revert Hsmall. apply Forall_impl.
    intros e He. now rewrite repair_length.
  - now rewrite (listing_names _ _ Hnames).
Qed.

Lemma repair_then_check_witness :
  fst (do_ea_stuff_single quiet "/f" None 0x22
         (snd (do_ea_stuff_single quiet "/f" None 0x28 (initial repair_sample)))) = EX_OK.
Proof.
  apply (repair_then_check quiet "/f" None 0x28 0x22 (initial repair_sample)).
  - intros k. repeat split.
  - intros k. cbn. lia.
  - reflexivity.
  - vm_compute. discriminate.
  - reflexivity.
  - reflexivity.
  - reflexivity.
  - reflexivity.
  - reflexivity.
  - reflexivity.
  - reflexivity.
  - reflexivity.
  - repeat (apply NoDup_cons; [vm_compute; intuition discriminate|]). apply NoDup_nil.
  - repeat (apply Forall_cons; [vm_compute; reflexivity|]). apply Forall_nil.
  - repeat (apply Forall_cons; [vm_compute; reflexivity|]). apply Forall_nil.
  - vm_compute. reflexivity.
Defined.

(** ** An account of the blocks: nothing is freed twice, one block is left *)

Lemma live_at_lives (s s' : state) :
  map live (heap s') = map live (heap s) -> forall p, live_at s' p = live_at s p.
Proof.
  intros H p. unfold live_at.
  pose proof (f_equal (fun l => nth_error l p) H) as Hp. cbn beta in Hp.
  rewrite !nth_error_map in Hp.
  destruct (nth_error (heap s') p), (nth_error (heap s) p); cbn in Hp; congruence.
Qed.

Lemma accounted_perm (h0 : list block) (a a' : list ptr) (s : state) :
  Permutation a a' -> accounted h0 a s -> accounted h0 a' s.
Proof.
  intros P (He & Hn & Hi & Hl & Ht).
  split; [exact He|]. split; [now apply (Permutation_NoDup P)|].
  split; [|split; [|exact Ht]].
  - intros p Hp. now apply Hi, (Permutation_in _ (Permutation_sym P)).
  - intros p Hp Hlv. apply (Permutation_in _ P). now apply Hl.
Qed.

(** A step that keeps the allocation state of every block and frees
    nothing keeps the account. *)
Lemma accounted_quiet (h0 : list block) (a : list ptr) (s s' : state) :
  ext_of h0 s' ->
  map live (heap s') = map live (heap s) ->
  freed (trace s') = freed (trace s) ->
  accounted h0 a s -> accounted h0 a s'.
Proof.
  intros He' Hlv Hfr (He & Hn & Hi & Hl & Ht1 & Ht2).
  pose proof (live_at_lives s s' Hlv) as L.
  split; [exact He'|]. split; [exact Hn|].
  split; [|split; [|split]].
  - intros p Hp. rewrite L. now apply Hi.
  - intros p Hp Hp'. rewrite L in Hp'. now apply Hl.
  - now rewrite Hfr.
  - intros p Hp. rewrite L, <- (length_map live (heap s')), Hlv, length_map.
    apply Ht2. now rewrite <- Hfr.
Qed.

Lemma owns_quiet (h0 : list block) (hold : list ptr) (s s' : state) :
  ext_of h0 s' ->
  map live (heap s') = map live (heap s) ->
  freed (trace s') = freed (trace s) ->
  xlist s' = xlist s ->
  owns h0 hold s -> owns h0 hold s'.
Proof.
  intros He Hlv Hfr Hx H. unfold owns in *. rewrite Hx.
  now apply (accounted_quiet h0 _ s s').
Qed.

Lemma owns_same (h0 : list block) (hold : list ptr) (s s' : state) :
  heap s' = heap s -> trace s' = trace s -> xlist s' = xlist s ->
  owns h0 hold s -> owns h0 hold s'.
Proof.
  intros Hh Ht Hx H. apply (owns_quiet h0 hold s); try assumption.
  - apply (ext_of_same h0 s); [exact Hh | apply H].
  - now rewrite Hh.
  - now rewrite Ht.
Qed.

Lemma freed_app (t1 t2 : list event) : freed (t1 ++ t2) = freed t1 ++ freed t2.
Proof. apply flat_map_app. Qed.

Lemma store_trace_freed (p : ptr) (i : Z) (b : byte) (s : state) :
  freed (trace (snd (store p i b s))) = freed (trace s).
Proof.
  unfold store. destruct (nth_error (heap s) p) as [blk|]; [|reflexivity].
  destruct ((0 <=? i) && (i <? Z.of_nat (List.length (bytes blk)))); [reflexivity|].
  cbn [snd trace set_trace]. rewrite freed_app. cbn. apply app_nil_r.
Qed.

Lemma store_bytes_trace_freed (p : ptr) (bs : list byte) :
  forall (i : Z) (s : state),
    freed (trace (snd (store_bytes p i bs s))) = freed (trace s).
Proof.
  induction bs as [|b rest IH]; intros i s; [reflexivity|].
  cbn [store_bytes]. unfold bind.
  pose proof (store_trace_freed p i b s) as H1.
  destruct (store p i b s) as [u s1]. cbn [snd] in H1.
  now rewrite IH.
Qed.

Lemma store_owns (h0 : list block) (hold : list ptr) (p : ptr) (i : Z) (b : byte)
      (s : state) :
  (List.length h0 <= p)%nat -> owns h0 hold s -> owns h0 hold (snd (store p i b s)).
Proof.
  intros Hp H. apply (owns_quiet h0 hold s); try assumption.
  - apply store_ext; [exact Hp | apply H].
  - apply store_lives.
  - apply store_trace_freed.
  - apply store_kept.
Qed.

Lemma store_bytes_owns (h0 : list block) (hold : list ptr) (p : ptr) (bs : list byte)
      (i : Z) (s : state) :
  (List.length h0 <= p)%nat -> owns h0 hold s ->
  owns h0 hold (snd (store_bytes p i bs s)).
Proof.
  intros Hp H. apply (owns_quiet h0 hold s); try assumption.
  - apply store_bytes_ext; [exact Hp | apply H].
  - apply store_bytes_lives.
  - apply store_bytes_trace_freed.
  - apply store_bytes_kept.
Qed.


Lemma emit_owns (h0 : list block) (hold : list ptr) (e : event) (s : state) :
  not_free e = true -> owns h0 hold s -> owns h0 hold (snd (emit e s)).
Proof.
  intros He H. apply (owns_quiet h0 hold s); try assumption; try reflexivity.
  - apply emit_ext, H.
  - unfold emit, modify. cbn [snd trace set_trace]. rewrite freed_app.
    destruct e; try discriminate; cbn; apply app_nil_r.
Qed.

Lemma malloc_xattr_owns (h0 : list block) (hold : list ptr) (o : oracle) (s : state) :
  owns h0 hold s -> owns h0 hold (snd (malloc_xattr o s)).
Proof. now apply owns_same. Qed.

Lemma extattr_get_fd_owns (h0 : list block) (hold : list ptr) (o : oracle) (fd : Z)
      (nm : string) (data : option ptr) (n : Z) (s : state) :
  (forall p, data = Some p -> (List.length h0 <= p)%nat) ->
  owns h0 hold s -> owns h0 hold (snd (extattr_get_fd o fd nm data n s)).
Proof.
  intros Hp H.
  assert (H1 : owns h0 hold (set_nget (S (nget s)) s)) by now apply (owns_same h0 hold s).
  unfold extattr_get_fd. destruct (get_err o (nget s)); [exact H1|].
  destruct (lookup nm (storage s)) as [v|]; [|exact H1].
  destruct data as [p|]; [|exact H1]. cbn [snd].
  apply store_bytes_owns; [now apply Hp | exact H1].
Qed.

Lemma extattr_list_fd_owns (h0 : list block) (hold : list ptr) (o : oracle) (fd : Z)
      (data : option ptr) (n : Z) (s : state) :
  (forall p, data = Some p -> (List.length h0 <= p)%nat) ->
  owns h0 hold s -> owns h0 hold (snd (extattr_list_fd o fd data n s)).
Proof.
  intros Hp H.
  assert (H1 : owns h0 hold (set_nlist (S (nlist s)) s)) by now apply (owns_same h0 hold s).
  unfold extattr_list_fd. destruct (list_err o (nlist s)); [exact H1|].
  destruct data as [p|]; [|exact H1]. cbn [snd].
  apply store_bytes_owns; [now apply Hp | exact H1].
Qed.

Lemma owns_printing (h0 : list block) (hold : list ptr) (s s' : state) :
  heap s' = heap s -> xlist s' = xlist s -> freed (trace s') = freed (trace s) ->
  owns h0 hold s -> owns h0 hold s'.
Proof.
  intros Hh Hx Hf H. apply (owns_quiet h0 hold s); try assumption.
  - apply (ext_of_same h0 s); [exact Hh | apply H].
  - now rewrite Hh.
Qed.

Lemma extattr_set_fd_owns (h0 : list block) (hold : list ptr) (o : oracle) (fd : Z)
      (nm : string) (p : ptr) (n : Z) (s : state) :
  owns h0 hold s -> owns h0 hold (snd (extattr_set_fd o fd nm p n s)).
Proof.
  intros H. unfold extattr_set_fd.
  destruct (set_err o (nset s)); cbn [snd];
    (apply (owns_printing h0 hold s); [reflexivity | reflexivity | | exact H]);
    cbn [trace set_trace set_storage set_nset]; rewrite freed_app; cbn;
    apply app_nil_r.
Qed.

Lemma hexdump_ea_owns (h0 : list block) (hold : list ptr) (path nm : string) (buf : ptr)
      (len : Z) (s : state) :
  owns h0 hold s -> owns h0 hold (snd (hexdump_ea path nm buf len s)).
Proof.
  intros H. unfold hexdump_ea, bind, gets, mret.
  destruct (len =? 0); [exact H|].
  destruct (len <? 8); now apply emit_owns.
Qed.

Lemma live_at_allocated (s : state) (p : ptr) :
  live_at s p = true -> (p < List.length (heap s))%nat.
Proof.
  unfold live_at. intros H. apply nth_error_Some.
  now destruct (nth_error (heap s) p).
Qed.

Lemma malloc_accounted (h0 : list block) (a : list ptr) (o : oracle) (n : Z) (s : state) :
  accounted h0 a s ->
  match fst (malloc o n s) with
  | Some p => accounted h0 (p :: a) (snd (malloc o n s)) /\ (List.length h0 <= p)%nat
  | None => accounted h0 a (snd (malloc o n s))
  end.
Proof.
  intros H. unfold malloc. destruct (malloc_null o (nmalloc s)) eqn:Hm; cbn [fst snd].
  - apply (accounted_quiet h0 a s); try reflexivity; try assumption.
    apply (ext_of_same h0 s); [reflexivity | apply H].
  - destruct H as (He & Hn & Hi & Hl & Ht1 & Ht2).
    set (blk := mkBlock _ true).
    set (s' := set_nmalloc _ _).
    assert (Hh : heap s' = heap s ++ [blk]) by reflexivity.
    assert (Hold : forall q, (q < List.length (heap s))%nat -> live_at s' q = live_at s q).
    { intros q Hq. unfold live_at. rewrite Hh. now rewrite nth_error_app1. }
    assert (Hnew : live_at s' (List.length (heap s)) = true).
    { unfold live_at. rewrite Hh. now rewrite nth_error_app2, Nat.sub_diag. }
    assert (Hge : (List.length h0 <= List.length (heap s))%nat).
    { destruct He as [ext ->]. rewrite length_app. lia. }
    split; [|exact Hge].
    split; [|split; [|split; [|split; [|split]]]].
    + destruct He as [ext E]. exists (ext ++ [blk]). now rewrite Hh, E, app_assoc.
    + constructor; [|exact Hn]. intros Hin. apply Hi in Hin as [_ Hin].
      apply live_at_allocated in Hin. lia.
    + intros q [<- | Hq]; [now split|].
      destruct (Hi q Hq) as [Hq1 Hq2]. split; [exact Hq1|].
      rewrite Hold; [exact Hq2 | now apply live_at_allocated].
    + intros q Hq Hlv. destruct (Nat.eq_dec q (List.length (heap s))) as [->|Hne];
        [now left|]. right. apply Hl; [exact Hq|].
      pose proof (live_at_allocated _ _ Hlv) as Hq'. rewrite Hh, length_app in Hq'.
      cbn in Hq'. rewrite <- Hold by lia. exact Hlv.
    + exact Ht1.
    + intros q Hq. destruct (Ht2 q Hq) as [Hq1 Hq2]. change (trace s') with (trace s) in *.
      split; [rewrite Hh, length_app; lia|]. now rewrite Hold.
Qed.

Lemma free_live_at (p q : ptr) (s : state) :
  live_at (snd (free p s)) q = if Nat.eqb q p then false else live_at s q.
Proof.
  unfold live_at. rewrite free_heap.
  destruct (Nat.eqb q p); [|reflexivity].
  now destruct (nth_error (heap s) q).
Qed.

Lemma free_accounted (h0 : list block) (a : list ptr) (p : ptr) (s : state) :
  accounted h0 (p :: a) s -> accounted h0 a (snd (free p s)).
Proof.
  intros (He & Hn & Hi & Hl & Ht1 & Ht2).
  apply NoDup_cons_iff in Hn as [Hp Hn].
  destruct (Hi p (or_introl eq_refl)) as [Hp1 Hp2].
  split; [now apply free_ext|]. split; [exact Hn|].
  split; [|split; [|split]].
  - intros q Hq. destruct (Hi q (or_intror Hq)) as [Hq1 Hq2]. split; [exact Hq1|].
    rewrite free_live_at. destruct (Nat.eqb_spec q p) as [->|_]; [contradiction | exact Hq2].
  - intros q Hq Hlv. rewrite free_live_at in Hlv.
    destruct (Nat.eqb_spec q p) as [->|Hne]; [discriminate|].
    destruct (Hl q Hq Hlv) as [E | Hin]; [congruence | exact Hin].
  - unfold free. cbn [snd trace set_trace set_heap]. rewrite freed_app. cbn [freed flat_map app].
    apply NoDup_app; [exact Ht1 | repeat constructor; intros [] |].
    intros q Hq [<- | []]. apply Ht2 in Hq as [_ Hq]. congruence.
  - intros q Hq. rewrite free_heap_length, free_live_at.
    unfold free in Hq. cbn [snd trace set_trace set_heap] in Hq.
    rewrite freed_app in Hq. cbn [freed flat_map app] in Hq.
    apply in_app_or in Hq as [Hq | [<- | []]].
    + destruct (Ht2 q Hq) as [Hq1 Hq2]. split; [exact Hq1|].
      now destruct (Nat.eqb q p).
    + split; [now apply live_at_allocated|]. now rewrite Nat.eqb_refl.
Qed.

Lemma accounted_xlist (h0 : list block) (a : list ptr) (l : list xattr) (s : state) :
  accounted h0 a s -> accounted h0 a (set_xlist l s).
Proof.
  intros H. apply (accounted_quiet h0 a s); try reflexivity; try assumption.
  apply (ext_of_same h0 s); [reflexivity | apply H].
Qed.

Lemma malloc_owns (h0 : list block) (hold : list ptr) (o : oracle) (n : Z) (s : state) :
  owns h0 hold s ->
  match fst (malloc o n s) with
  | Some p => owns h0 (p :: hold) (snd (malloc o n s)) /\ (List.length h0 <= p)%nat
  | None => owns h0 hold (snd (malloc o n s))
  end.
Proof.
  intros H. pose proof (malloc_accounted h0 _ o n s H) as Hm.
  pose proof (proj1 (proj1 (malloc_kept o n s))) as Hx. unfold owns.
  destruct (fst (malloc o n s)); rewrite Hx; exact Hm.
Qed.

Lemma free_owns (h0 : list block) (hold : list ptr) (p : ptr) (s : state) :
  owns h0 (p :: hold) s -> owns h0 hold (snd (free p s)).
Proof.
  intros H. unfold owns. rewrite (proj1 (free_kept p s)).
  now apply free_accounted.
Qed.

Lemma buffers_of_app (l1 l2 : list xattr) :
  buffers_of (l1 ++ l2) = buffers_of l1 ++ buffers_of l2.
Proof. apply flat_map_app. Qed.

Ltac perm_by_members H :=
  apply NoDup_Permutation_bis;
  [ exact (proj1 (proj2 H))
  | cbn [List.length]; rewrite ?length_app; cbn [List.length]; rewrite ?length_app;
    cbn [List.length]; lia
  | intros ? ?; cbn [In] in *; rewrite ?in_app_iff in *; cbn [In] in *;
    rewrite ?in_app_iff in *; cbn [In] in *; tauto ].

(** A record takes over the two blocks allocated for it. *)
Lemma owns_push (h0 : list block) (hold : list ptr) (n v : ptr) (len : Z) (s : state) :
  owns h0 (v :: n :: hold) s ->
  owns h0 hold (set_xlist (xlist s ++ [mkXattr n v len]) s).
Proof.
  intros H. unfold owns in *. cbn [xlist set_xlist].
  apply accounted_xlist. rewrite buffers_of_app.
  cbn [buffers_of flat_map name value app].
  eapply accounted_perm; [|exact H]. perm_by_members H.
Qed.

(** The first record gives its two blocks back. *)
Lemma owns_pop (h0 : list block) (hold : list ptr) (x : xattr) (rest : list xattr)
      (s : state) :
  xlist s = x :: rest ->
  owns h0 hold s ->
  owns h0 (name x :: value x :: hold) (set_xlist rest s).
Proof.
  intros Hx H. unfold owns in *. cbn [xlist set_xlist]. rewrite Hx in H.
  apply accounted_xlist.
  cbn [buffers_of flat_map app] in H. fold (buffers_of rest) in H.
  eapply accounted_perm; [|exact H]. perm_by_members H.
Qed.

(** The record at [idx] releases its value and takes the block [b]
    instead. *)
Lemma owns_swap (h0 : list block) (hold : list ptr) (idx : nat) (x : xattr) (b : ptr)
      (len : Z) (s : state) :
  nth_error (xlist s) idx = Some x ->
  owns h0 (b :: hold) s ->
  owns h0 hold
       (set_xlist (upd idx (mkXattr (name x) b len) (xlist (snd (free (value x) s))))
                  (snd (free (value x) s))).
Proof.
  intros Hx H. unfold owns in *. cbn [xlist set_xlist].
  apply accounted_xlist. rewrite (proj1 (free_kept (value x) s)).
  apply nth_error_split in Hx as (l1 & l2 & E & Hlen). rewrite E in *. subst idx.
  rewrite upd_snoc. apply free_accounted.
  rewrite !buffers_of_app in *. cbn [buffers_of flat_map name value app] in *.
  fold (buffers_of l2) in *.
  eapply accounted_perm; [|exact H]. perm_by_members H.
Qed.

Lemma hexdump_ea_xlist (path nm : string) (buf : ptr) (len : Z) (s : state) :
  xlist (snd (hexdump_ea path nm buf len s)) = xlist s.
Proof. apply hexdump_ea_same_blocks. Qed.

Lemma extattr_set_fd_xlist (o : oracle) (fd : Z) (nm : string) (p : ptr) (n : Z)
      (s : state) :
  xlist (snd (extattr_set_fd o fd nm p n s)) = xlist s.
Proof. apply extattr_set_fd_same_blocks. Qed.

(** One step of a computation, with what it does to the account of the
    blocks and the fact that it keeps [xlist]. *)
Ltac own_step h0 o fd :=
  match goal with
  | Hg : owns h0 ?hold ?st |- context [store_bytes ?p ?i ?bs ?st] =>
      let Hb := fresh "Hb" in
      assert (Hb : (List.length h0 <= p)%nat) by assumption;
      pose proof (store_bytes_owns h0 hold p bs i st Hb Hg); clear Hb;
      pose proof (proj1 (store_bytes_kept p bs i st));
      destruct (store_bytes p i bs st) as [? ?]
  | Hg : owns h0 ?hold ?st |- context [store ?p ?i ?b ?st] =>
      let Hb := fresh "Hb" in
      assert (Hb : (List.length h0 <= p)%nat) by assumption;
      pose proof (store_owns h0 hold p i b st Hb Hg); clear Hb;
      pose proof (proj1 (store_kept p i b st));
      destruct (store p i b st) as [? ?]
  | Hg : owns h0 (?p :: ?hold) ?st |- context [free ?p ?st] =>
      pose proof (free_owns h0 hold p st Hg);
      pose proof (proj1 (free_kept p st));
      destruct (free p st) as [? ?]
  | Hg : owns h0 (?b :: ?hold) ?st
    |- context [free (value ?x) ?st] =>
      match goal with
      | |- context [upd ?idx (mkXattr (name x) b ?len)] =>
          let Hn := fresh "Hn" in
          assert (Hn : nth_error (xlist st) idx = Some x) by congruence;
          pose proof (owns_swap h0 hold idx x b len st Hn Hg); clear Hn;
          destruct (free (value x) st) as [? ?]
      end
  | Hg : owns h0 ?hold ?st |- context [emit ?e ?st] =>
      pose proof (emit_owns h0 hold e st eq_refl Hg);
      pose proof (proj1 (emit_kept e st));
      destruct (emit e st) as [? ?]
  | Hg : owns h0 ?hold ?st |- context [hexdump_ea ?pa ?nm ?b ?l ?st] =>
      pose proof (hexdump_ea_owns h0 hold pa nm b l st Hg);
      pose proof (hexdump_ea_xlist pa nm b l st);
      destruct (hexdump_ea pa nm b l st) as [? ?]
  | Hg : owns h0 ?hold ?st |- context [extattr_set_fd o fd ?nm ?p ?n ?st] =>
      pose proof (extattr_set_fd_owns h0 hold o fd nm p n st Hg);
      pose proof (extattr_set_fd_xlist o fd nm p n st);
      destruct (extattr_set_fd o fd nm p n st) as [? ?]
  | Hg : owns h0 ?hold ?st |- context [extattr_get_fd o fd ?nm None ?n ?st] =>
      pose proof (extattr_get_fd_owns h0 hold o fd nm None n st (none_bound h0) Hg);
      destruct (extattr_get_fd o fd nm None n st) as [? ?]
  | Hg : owns h0 ?hold ?st, Hb : (List.length h0 <= ?q)%nat
    |- context [extattr_get_fd o fd ?nm (Some ?q) ?n ?st] =>
      pose proof (extattr_get_fd_owns h0 hold o fd nm (Some q) n st
                    (some_bound h0 q Hb) Hg);
      destruct (extattr_get_fd o fd nm (Some q) n st) as [? ?]
  | Hg : owns h0 ?hold ?st |- context [malloc o ?n ?st] =>
      let H := fresh "H" in
      pose proof (malloc_owns h0 hold o n st Hg) as H;
      pose proof (proj1 (proj1 (malloc_kept o n st)));
      destruct (malloc o n st) as [[?|] ?]; cbn [fst snd] in H;
      [destruct H as [? ?] | ]
  | Hg : owns h0 ?hold ?st |- context [malloc_xattr o ?st] =>
      pose proof (malloc_xattr_owns h0 hold o st Hg);
      destruct (malloc_xattr o st) as [? ?]
  | |- context [if ?c then _ else _] => destruct c eqn:?
  end; cbn [fst snd] in *.

Lemma fetch_entry_owns (h0 : list block) (hold : list ptr) (o : oracle) (fd : Z)
      (buf : ptr) (i ch : Z) (s : state) :
  owns h0 hold s -> owns h0 hold (snd (fetch_entry o fd buf i ch s)).
Proof.
  intros Hg. unfold fetch_entry, warn, bind, gets, modify, mret.
  repeat own_step h0 o fd; try assumption.
  now apply owns_push.
Qed.

Lemma ea_loop_owns (h0 : list block) (hold : list ptr) (o : oracle) (fd : Z) (buf : ptr)
      (ret : Z) (fuel : nat) :
  forall (i : Z) (s : state),
    owns h0 hold s -> owns h0 hold (snd (ea_loop o fuel fd buf ret i s)).
Proof.
  induction fuel as [|fuel IH]; intros i s Hg; cbn [ea_loop]; [exact Hg|].
  destruct (i <? ret); [|exact Hg].
  unfold bind, gets.
  pose proof (fetch_entry_owns h0 hold o fd buf i (Z.of_N (Byte.to_N (load s buf i))) s Hg)
    as H.
  destruct (fetch_entry o fd buf i (Z.of_N (Byte.to_N (load s buf i))) s) as [u s1].
  now apply IH.
Qed.

Lemma malloc_pointer (o : oracle) (n : Z) (s : state) (p : ptr) :
  fst (malloc o n s) = Some p -> p = List.length (heap s).
Proof.
  unfold malloc. destruct (malloc_null o (nmalloc s)); cbn [fst]; congruence.
Qed.

(** After [get_extended_attributes] the only block it allocated that no
    record owns is the buffer of the list of names, the first block it
    allocated, and only when the list was fetched. *)
Lemma get_extended_attributes_owns (h0 : list block) (hold : list ptr) (o : oracle)
      (fd : Z) (s : state) :
  owns h0 hold s ->
  exists keep,
    (keep = [] \/ keep = [List.length (heap s)]) /\
    owns h0 (keep ++ hold) (snd (get_extended_attributes o fd s)).
Proof.
  intros Hg. unfold get_extended_attributes, warn, bind, mret.
  pose proof (extattr_list_fd_owns h0 hold o fd None 0 s (none_bound h0) Hg) as H1.
  assert (Hh1 : heap (snd (extattr_list_fd o fd None 0 s)) = heap s).
  { unfold extattr_list_fd. now destruct (list_err o (nlist s)). }
  destruct (extattr_list_fd o fd None 0 s) as [r1 s1]. cbn [snd] in *.
  destruct (to_int r1 <? 0); [exists []; split; [now left | exact H1]|].
  pose proof (malloc_owns h0 hold o (to_int r1) s1 H1) as H2.
  pose proof (malloc_pointer o (to_int r1) s1) as Hp.
  destruct (malloc o (to_int r1) s1) as [[buf|] s2]; cbn [fst snd] in *.
  - destruct H2 as [H2 Hb].
    assert (Ebuf : buf = List.length (heap s)) by (rewrite (Hp buf eq_refl); now rewrite Hh1).
    clear Hp.
    pose proof (extattr_list_fd_owns h0 _ o fd (Some buf) (to_int r1) s2
                  (some_bound h0 buf Hb) H2) as H3.
    destruct (extattr_list_fd o fd (Some buf) (to_int r1) s2) as [r3 s3]. cbn [snd] in *.
    destruct (to_int r3 <? 0).
    + exists []. split; [now left|]. repeat own_step h0 o fd. assumption.
    + exists [buf]. split; [right; now rewrite Ebuf|].
      pose proof (ea_loop_owns h0 _ o fd buf (to_int r3) (Z.to_nat (to_int r3)) 0 s3 H3)
        as H4.
      now destruct (ea_loop o (Z.to_nat (to_int r3)) fd buf (to_int r3) 0 s3).
  - exists []. split; [now left|]. repeat own_step h0 o fd. assumption.
Qed.

Lemma owns_bounds (h0 : list block) (hold : list ptr) (s : state) (idx : nat)
      (x : xattr) :
  owns h0 hold s -> nth_error (xlist s) idx = Some x ->
  (List.length h0 <= name x)%nat /\ (List.length h0 <= value x)%nat.
Proof.
  intros (_ & _ & Hi & _) Hx. apply nth_error_In in Hx.
  assert (Hin : forall p, In p [name x; value x] -> In p (hold ++ buffers_of (xlist s))).
  { intros p Hp. apply in_or_app. right. unfold buffers_of. apply in_flat_map.
    now exists x. }
  split; apply Hi, Hin; cbn; tauto.
Qed.

Lemma fix_afp_turn_owns (h0 : list block) (hold : list ptr) (o : oracle) (fd : Z)
      (path : string) (flags : Z) (x : xattr) (ret setret : Z) (s : state) :
  (List.length h0 <= value x)%nat ->
  owns h0 hold s ->
  owns h0 hold (snd (fix_afp_turn o fd path flags x ret setret s)).
Proof.
  intros Hv Hg. unfold fix_afp_turn, warn, bind, gets, modify, mret.
  repeat own_step h0 o fd; assumption.
Qed.

Lemma fix_afp_loop_owns (h0 : list block) (hold : list ptr) (o : oracle) (fd : Z)
      (path : string) (flags : Z) :
  forall (view : list nat) (ret setret : Z) (s : state),
    owns h0 hold s -> owns h0 hold (snd (fix_afp_loop o fd path flags view ret setret s)).
Proof.
  induction view as [|idx rest IH]; intros ret setret s Hg; cbn [fix_afp_loop];
    [exact Hg|].
  unfold bind at 1. unfold gets at 1.
  destruct (nth_error (xlist s) idx) as [x|] eqn:Hx; [|now apply IH].
  unfold bind.
  pose proof (fix_afp_turn_owns h0 hold o fd path flags x ret setret s
                (proj2 (owns_bounds h0 hold s idx x Hg Hx)) Hg) as H.
  destruct (fix_afp_turn o fd path flags x ret setret s) as [[r1 r2] s1].
  now apply IH.
Qed.

Lemma fix_append_turn_owns (h0 : list block) (hold : list ptr) (o : oracle) (fd : Z)
      (path : string) (flags : Z) (idx : nat) (x : xattr) (ret setret : Z) (s : state) :
  nth_error (xlist s) idx = Some x ->
  owns h0 hold s ->
  owns h0 hold (snd (fix_append_turn o fd path flags idx x ret setret s)).
Proof.
  intros Hx Hg. unfold fix_append_turn, warn, bind, gets, modify, mret.
  repeat own_step h0 o fd; assumption.
Qed.

Lemma fix_append_loop_owns (h0 : list block) (hold : list ptr) (o : oracle) (fd : Z)
      (path : string) (flags : Z) :
  forall (view : list nat) (ret setret : Z) (s : state),
    owns h0 hold s ->
    owns h0 hold (snd (fix_append_loop o fd path flags view ret setret s)).
Proof.
  induction view as [|idx rest IH]; intros ret setret s Hg; cbn [fix_append_loop];
    [exact Hg|].
  unfold bind at 1. unfold gets at 1.
  destruct (nth_error (xlist s) idx) as [x|] eqn:Hx; [|now apply IH].
  unfold bind, mret.
  pose proof (fix_append_turn_owns h0 hold o fd path flags idx x ret setret s Hx Hg) as H.
  destruct (fix_append_turn o fd path flags idx x ret setret s) as [[e|[r1 r2]] s1];
    [exact H | now apply IH].
Qed.

Lemma free_loop_owns (h0 : list block) (hold : list ptr) (xs : list xattr) :
  forall s : state,
    xlist s = xs -> owns h0 hold s ->
    owns h0 hold (snd (free_loop xs s)) /\ xlist (snd (free_loop xs s)) = [].
Proof.
  induction xs as [|x rest IH]; intros s Hx Hg; cbn [free_loop]; [now split|].
  unfold bind, modify.
  pose proof (owns_pop h0 hold x rest s Hx Hg) as H0.
  assert (Hx0 : xlist (set_xlist rest s) = rest) by reflexivity.
  generalize dependent (set_xlist rest s). intros s0 H0 Hx0.
  repeat own_step h0 quiet 0.
  apply IH; [congruence | assumption].
Qed.

Lemma get_afp_list_owns (h0 : list block) (hold : list ptr) (s : state) :
  owns h0 hold s -> owns h0 hold (snd (get_afp_list s)).
Proof.
  destruct (get_afp_list_spec s) as (sel & E & _). rewrite E.
  now apply owns_same.
Qed.

Lemma get_append_list_owns (h0 : list block) (hold : list ptr) (attr : option string)
      (s : state) :
  owns h0 hold s -> owns h0 hold (snd (get_append_list attr s)).
Proof.
  unfold get_append_list, bind, gets, mret.
  assert (H : exists sel, get_append_loop attr 0 (xlist s) s
                          = (tt, set_append_list (append_list s ++ sel) s)).
  { destruct attr as [a|].
    - destruct (get_append_loop_named a (xlist s) 0 s) as (sel & E & _). now exists sel.
    - rewrite get_append_loop_all. now eexists. }
  destruct H as [sel ->]. now apply owns_same.
Qed.

Lemma do_ea_stuff_tail_owns (h0 : list block) (hold : list ptr) (o : oracle) (fd : Z)
      (path : string) (attr : option string) (flags : Z) (s : state) :
  owns h0 hold s ->
  owns h0 hold
    (snd ((afp <- (if has flags F_CHECK_AFP_EA || has flags F_FIX_AFP_EA then
                     get_afp_list ;;
                     setret <- fix_afp_list o fd path flags ;;
                     if setret <? 0 then mret (inl EX_DATAERR) else mret (inr setret)
                   else mret (inr 0)) ;;
           match afp with
           | inl ret => mret ret
           | inr ret =>
               if has flags F_APPEND_NULL_ALL || has flags F_APPEND_NULL then
                 get_append_list attr ;;
                 setret <- fix_append_list o fd path flags ;;
                 if setret <? 0 then mret EX_DATAERR else mret setret
               else mret ret
           end) s)).
Proof.
  intros Hg.
  assert (Hrep : forall s2, owns h0 hold s2 ->
                            owns h0 hold (snd (fix_afp_list o fd path flags s2))).
  { intros s2 H2. unfold fix_afp_list, bind, gets. now apply fix_afp_loop_owns. }
  assert (Hadd : forall s4, owns h0 hold s4 ->
                            owns h0 hold (snd (fix_append_list o fd path flags s4))).
  { intros s4 H4. unfold fix_append_list, bind, gets. now apply fix_append_loop_owns. }
  assert (Htail : forall s3 ret, owns h0 hold s3 ->
            owns h0 hold
              (snd ((if has flags F_APPEND_NULL_ALL || has flags F_APPEND_NULL then
                       get_append_list attr ;;
                       setret <- fix_append_list o fd path flags ;;
                       if setret <? 0 then mret EX_DATAERR else mret setret
                     else mret ret) s3))).
  { intros s3 ret H3.
    destruct (has flags F_APPEND_NULL_ALL || has flags F_APPEND_NULL); [|exact H3].
    unfold bind, mret.
    pose proof (get_append_list_owns h0 hold attr s3 H3) as H4.
    destruct (get_append_list attr s3) as [u4 s4]. cbn [snd] in H4.
    pose proof (Hadd s4 H4) as H5.
    destruct (fix_append_list o fd path flags s4) as [r5 s5]. cbn [snd] in H5.
    now destruct (r5 <? 0). }
  unfold bind at 1.
  destruct (has flags F_CHECK_AFP_EA || has flags F_FIX_AFP_EA).
  - unfold bind at 1.
    pose proof (get_afp_list_owns h0 hold s Hg) as H2.
    destruct (get_afp_list s) as [u2 s2]. cbn [snd] in H2.
    unfold bind at 1.
    pose proof (Hrep s2 H2) as H3.
    destruct (fix_afp_list o fd path flags s2) as [r3 s3]. cbn [snd] in H3.
    destruct (r3 <? 0); unfold mret at 1; [exact H3|]. now apply Htail.
  - unfold mret at 1. now apply Htail.
Qed.

(** X22.  What [do_ea_stuff_single] leaves of the memory it allocates.  From
    a state in which no block was freed twice, whatever the environment, the
    object and the flags are: no block is freed twice, every block that is
    freed had been allocated, the blocks that existed before the call are
    as they were, and of the blocks allocated during the call only the
    first one, the buffer of the list of names, can still be allocated at
    the end; every name, value and replacement value has been freed. *)
Theorem do_ea_stuff_single_frees (o : oracle) (path : string) (attr : option string)
        (flags : Z) (s : state) :
  roomy o ->
  tidy s ->
  tidy (snd (do_ea_stuff_single o path attr flags s)) /\
  ext_of (heap s) (snd (do_ea_stuff_single o path attr flags s)) /\
  forall p, (List.length (heap s) <= p)%nat ->
            live_at (snd (do_ea_stuff_single o path attr flags s)) p = true ->
            p = List.length (heap s).
Proof.
  intros _ Ht.
  enough (H : exists keep,
             (keep = [] \/ keep = [List.length (heap s)]) /\
             accounted (heap s) keep (snd (do_ea_stuff_single o path attr flags s))).
  { destruct H as (keep & Hk & He & _ & _ & Hl & Ht').
    split; [exact Ht'|]. split; [exact He|].
    intros p Hp Hlv. specialize (Hl p Hp Hlv).
    destruct Hk as [-> | ->]; [destruct Hl | destruct Hl as [<- | []]; reflexivity]. }
  rewrite do_ea_stuff_single_split. cbv zeta. cbn [snd].
  set (s0 := set_append_list [] (set_afp_list [] (set_xlist [] s))).
  assert (H0 : owns (heap s) [] s0).
  { unfold owns. cbn [app buffers_of flat_map xlist s0 set_append_list set_afp_list set_xlist].
    split; [apply (ext_of_same _ s); [reflexivity | apply ext_of_refl]|].
    split; [constructor|]. split; [intros p []|]. split; [|exact Ht].
    intros p Hp Hlv. apply live_at_allocated in Hlv.
    change (heap s0) with (heap s) in Hlv. lia. }
  assert (Hbody : exists keep,
             (keep = [] \/ keep = [List.length (heap s)]) /\
             owns (heap s) keep
                  (snd (do_ea_stuff_body o (open_result o) path attr flags s0))).
  { unfold do_ea_stuff_body.
    destruct (open_result o <? 0).
    - exists []. split; [now left|]. unfold warn, bind, mret.
      repeat own_step (heap s) o (open_result o). assumption.
    - unfold bind at 1.
      destruct (get_extended_attributes_owns (heap s) [] o (open_result o) s0 H0)
        as (keep & Hk & H1).
      rewrite app_nil_r in H1. exists keep. split; [exact Hk|].
      destruct (get_extended_attributes o (open_result o) s0) as [r s1]. cbn [snd] in H1.
      destruct (r <? 0); [exact H1|].
      now apply do_ea_stuff_tail_owns. }
  destruct Hbody as (keep & Hk & H1). exists keep. split; [exact Hk|].
  destruct (do_ea_stuff_body o (open_result o) path attr flags s0) as [r s1].
  cbn [snd] in *.
  unfold unlink_afp_list, unlink_append_list, free_extended_attributes,
    bind, modify, gets, mret.
  set (s2 := set_append_list [] (set_afp_list [] s1)).
  assert (H2 : owns (heap s) keep s2) by now apply (owns_same _ _ s1).
  change (xlist s2) with (xlist s1).
  destruct (free_loop_owns (heap s) keep (xlist s1) s2 eq_refl H2) as [H3 X3].
  destruct (free_loop (xlist s1) s2) as [u3 s3]. cbn [snd] in *.
  assert (H4 : owns (heap s) keep
                 (snd ((if 0 <? open_result o
                        then emit (Close (open_result o))
                        else fun s => (tt, s)) s3))).
  { destruct (0 <? open_result o); [now apply emit_owns | exact H3]. }
  assert (X4 : xlist (snd ((if 0 <? open_result o
                            then emit (Close (open_result o))
                            else fun s => (tt, s)) s3)) = []).
  { destruct (0 <? open_result o); exact X3. }
  destruct ((if 0 <? open_result o then emit (Close (open_result o))
             else fun s => (tt, s)) s3) as [u4 s4].
  cbn [snd] in *. unfold owns in H4. rewrite X4 in H4. cbn [buffers_of flat_map] in H4.
  now rewrite app_nil_r in H4.
Qed.

Lemma do_ea_stuff_single_frees_witness :
  tidy (snd (do_ea_stuff_single quiet "/f" None 0x19 (initial mixed_attributes))) /\
  ext_of (heap (initial mixed_attributes))
         (snd (do_ea_stuff_single quiet "/f" None 0x19 (initial mixed_attributes))) /\
  forall p, (List.length (heap (initial mixed_attributes)) <= p)%nat ->
            live_at (snd (do_ea_stuff_single quiet "/f" None 0x19
                                             (initial mixed_attributes))) p = true ->
            p = List.length (heap (initial mixed_attributes)).
Proof.
  apply (do_ea_stuff_single_frees quiet "/f" None 0x19 (initial mixed_attributes)).
  - intros k. cbn. lia.
  - split; [constructor | intros p []].
Defined.
